(** * melonJS: Path2D tessellation buffers, TMX decoding and Container ownership

    A shallow embedding of three parts of the melonJS engine:

    - [Path2D] (points, arcs, [closePath], [triangulatePath]);
    - the TMX utilities ([setTMXValue], [decode], [decodeBase64AsArray],
      [normalize], [parse], [applyTMXProperties]);
    - the ownership discipline of [Container.addChild] / [removeChild].

    JavaScript numbers are IEEE 754 binary64 values; they are embedded as
    Rocq's primitive floats, whose operations are specified bit for bit by
    [SpecFloat]. *)

From Stdlib Require Import ZArith List String Ascii Bool Floats Lia.
From Equations Require Import Equations.
From stdpp Require Import base list gmap strings pretty.

Set Warnings "-register-all".

(* ================================================================== *)
(** * JavaScript numbers *)
(* ================================================================== *)

Module JSNumber.

Local Open Scope float_scope.

(** A JavaScript [number]. *)
Definition number : Type := float.

(** [a === b] on numbers: IEEE equality ([NaN] differs from itself,
    [+0] equals [-0]). *)
Definition strict_eq (a b : number) : bool := a =? b.

(** [a >= b] is [b <= a]; both are [false] as soon as one side is [NaN]. *)
Definition ge (a b : number) : bool := b <=? a.

(** SameValueZero: [===] extended so that [NaN] is the same as [NaN]. *)
Definition same_value_zero (a b : number) : bool :=
  (a =? b) || (is_nan a && is_nan b).

(** The remainder [x % y] on the specification side: the result has the
    sign of the dividend and is computed exactly. *)
Definition SFrem (x y : spec_float) : spec_float :=
  match x, y with
  | S754_nan, _ | _, S754_nan => S754_nan
  | S754_infinity _, _ => S754_nan
  | _, S754_zero _ => S754_nan
  | S754_zero s, _ => S754_zero s
  | S754_finite _ _ _, S754_infinity _ => x
  | S754_finite sx mx ex, S754_finite _ my ey =>
      let e := Z.min ex ey in
      let X := (Z.pos mx * 2 ^ (ex - e))%Z in
      let Y := (Z.pos my * 2 ^ (ey - e))%Z in
      let R := (X mod Y)%Z in
      if (R =? 0)%Z then S754_zero sx
      else binary_normalize prec emax (if sx then (- R)%Z else R) e sx
  end.

(** [x % y]. *)
Definition rem (x y : number) : number :=
  SF2Prim (SFrem (Prim2SF x) (Prim2SF y)).

(** [Math.PI], the binary64 value nearest to pi. *)
Definition PI : number := 0x1.921fb54442d18p+1.

(** [j++] iterated: the values a loop counter starting at [j] takes. *)
Fixpoint count_from (j : number) (n : nat) : number :=
  match n with
  | O => j
  | S n' => count_from (j + 1) n'
  end.

End JSNumber.

(* ================================================================== *)
(** * The platform's [Math.sin] and [Math.cos] *)
(* ================================================================== *)

(** ECMAScript leaves the precision of [Math.sin] and [Math.cos] to the
    engine; the development below is generic in them.  This module gives
    one executable instance, used to run the model on concrete calls: the
    argument is reduced modulo a wide fixed-point value of pi, the Taylor
    series is summed in fixed point and the sum is rounded to binary64.
    The special cases are those ECMAScript prescribes: [NaN] and the
    infinities give [NaN], [sin] keeps a signed zero and [cos] of a zero
    is [1]. *)
Module JSMath.

Local Open Scope Z_scope.

(** [arctan (1/n) * 2^bits], by its alternating series. *)
Fixpoint atan_inv_series (fuel : nat) (n2 k pw acc : Z) : Z :=
  match fuel with
  | O => acc
  | S f =>
      if pw =? 0 then acc
      else atan_inv_series f n2 (k + 2) (- (pw / n2)) (acc + pw / k)
  end.

Definition atan_inv (bits n : Z) : Z :=
  atan_inv_series 2000 (n * n) 1 (2 ^ bits / n) 0.

(** Fractional bits kept while reducing the argument, and while summing. *)
Definition WIDE : Z := 1300.
Definition NARROW : Z := 256.

(** [pi * 2^WIDE], by Machin's formula. *)
Definition pi_wide : Z := Eval vm_compute in
  (16 * atan_inv (WIDE + 32) 5 - 4 * atan_inv (WIDE + 32) 239) / 2 ^ 32.

Fixpoint taylor (fuel : nat) (r2 k term acc : Z) : Z :=
  match fuel with
  | O => acc
  | S f =>
      if term =? 0 then acc
      else taylor f r2 (k + 2)
             (- (term * r2 / 2 ^ NARROW / ((k + 1) * (k + 2)))) (acc + term)
  end.

Definition sin_fix (r : Z) : Z := taylor 200 (r * r / 2 ^ NARROW) 1 r 0.
Definition cos_fix (r : Z) : Z := taylor 200 (r * r / 2 ^ NARROW) 0 (2 ^ NARROW) 0.

(** The quadrant of [m * 2^e] and its offset in that quadrant. *)
Definition reduce (m : positive) (e : Z) : Z * Z :=
  let X := Z.shiftl (Z.pos m) (e + WIDE) in
  let R := X mod (2 * pi_wide) in
  let half := pi_wide / 2 in
  let q := R / half in
  (q, Z.shiftr (R - q * half) (WIDE - NARROW)).

Definition round_fix (v : Z) : spec_float :=
  binary_normalize prec emax v (- NARROW) false.

Definition SFsin (a : spec_float) : spec_float :=
  match a with
  | S754_nan | S754_infinity _ => S754_nan
  | S754_zero _ => a
  | S754_finite s m e =>
      if Z.pos (digits2_pos m) + e <? -26 then a
      else
        let '(q, r) := reduce m e in
        let v := if q =? 0 then sin_fix r
                 else if q =? 1 then cos_fix r
                 else if q =? 2 then - sin_fix r
                 else - cos_fix r in
        round_fix (if s then - v else v)
  end.

Definition SFcos (a : spec_float) : spec_float :=
  match a with
  | S754_nan | S754_infinity _ => S754_nan
  | S754_zero _ => round_fix (2 ^ NARROW)
  | S754_finite s m e =>
      if Z.pos (digits2_pos m) + e <? -27 then round_fix (2 ^ NARROW)
      else
        let '(q, r) := reduce m e in
        round_fix (if q =? 0 then cos_fix r
                   else if q =? 1 then - sin_fix r
                   else if q =? 2 then - cos_fix r
                   else sin_fix r)
  end.

Definition sin (a : JSNumber.number) : JSNumber.number := SF2Prim (SFsin (Prim2SF a)).
Definition cos (a : JSNumber.number) : JSNumber.number := SF2Prim (SFcos (Prim2SF a)).

End JSMath.

(* ================================================================== *)
(** * Outcomes of a call: a value or a thrown exception *)
(* ================================================================== *)

Module JS.

(** The exceptions the embedded code can raise. *)
Inductive exn : Type :=
| Error (message : string)        (** [throw new Error(message)] *)
| TypeError                       (** member access on [undefined], ... *)
| SyntaxError                     (** [JSON.parse], [Function] *)
| InvalidCharacterError.          (** [atob] *)

Inductive result (A : Type) : Type :=
| Ok (a : A)
| Throw (e : exn).
Arguments Ok {A} a.
Arguments Throw {A} e.

Definition bind {A B} (r : result A) (k : A -> result B) : result B :=
  match r with
  | Ok a => k a
  | Throw e => Throw e
  end.

End JS.

Notation "'let*' x ':=' r 'in' k" := (JS.bind r (fun x => k))
  (at level 10, x name, r at level 100, k at level 200).

(* ================================================================== *)
(** * Points and the shared pool *)
(* ================================================================== *)

Module Geometry.

Import JSNumber.

(** A pooled [Point]: two number fields. *)
Record Point : Type := { x : number; y : number }.

(** Modelled from the spec: [Point.equals], which lives in the engine's
    geometry module.  The spec calls it coordinate equality; on numbers
    that is JavaScript's [===] on each coordinate. *)
Definition equals (p q : Point) : bool :=
  strict_eq (x p) (x q) && strict_eq (y p) (y q).

(** [p.set(x, y)]: overwrite both coordinates. *)
Definition set (p : Point) (x0 y0 : number) : Point := {| x := x0; y := y0 |}.

End Geometry.

Module Pool.

Import JSNumber Geometry.

(** Modelled from the spec: the pool service of the engine's pooling
    module, [acquire(typeTag, ...ctorArgs) -> instance] and
    [release(instance) -> void], for the "Point" tag.  The state is the
    stack of released instances awaiting reuse (most recent first),
    with the number of acquisitions and releases so far. *)
Record pool : Type := {
  available : list Point;
  pulls : nat;
  pushes : nat
}.

Definition empty : pool := {| available := []; pulls := 0; pushes := 0 |}.

(** [pool.pull("Point", x, y)]: a released instance is reused when there
    is one, a new one is constructed otherwise; either way the instance
    handed out carries the coordinates asked for. *)
Definition pull (pl : pool) (x0 y0 : number) : Point * pool :=
  match available pl with
  | recycled :: rest =>
      (set recycled x0 y0,
       {| available := rest; pulls := S (pulls pl); pushes := pushes pl |})
  | [] =>
      ({| x := x0; y := y0 |},
       {| available := []; pulls := S (pulls pl); pushes := pushes pl |})
  end.

(** [pool.push(p)]. *)
Definition push (pl : pool) (p : Point) : pool :=
  {| available := p :: available pl; pulls := pulls pl; pushes := S (pushes pl) |}.

(** The pool after [k] instances were pulled from it. *)
Definition pulled (k : nat) (pl : pool) : pool :=
  {| available := drop k (available pl); pulls := k + pulls pl; pushes := pushes pl |}.

(** The pool after the instances [vs] were pushed, the last one first. *)
Definition pushed (vs : list Point) (pl : pool) : pool :=
  {| available := vs ++ available pl; pulls := pulls pl; pushes := length vs + pushes pl |}.

End Pool.

(* ================================================================== *)
(** * Path2D *)
(* ================================================================== *)

Module Path.

Import JSNumber Geometry Pool JS.
Local Open Scope float_scope.

(** Modelled from the spec: the constant [TAU] of the engine's math
    module, one full turn (two pi). *)
Definition TAU : number := Eval vm_compute in 2 * PI.

(** The fields of a [Path2D] instance. *)
Record Path2D : Type := {
  points : list Point;
  arcResolution : number;
  vertices : list Point
}.

(** [new Path2D()]. *)
Definition create : Path2D :=
  {| points := []; arcResolution := 5; vertices := [] |}.

Definition with_points (p : Path2D) (pts : list Point) : Path2D :=
  {| points := pts; arcResolution := arcResolution p; vertices := vertices p |}.

Definition with_vertices (p : Path2D) (vs : list Point) : Path2D :=
  {| points := points p; arcResolution := arcResolution p; vertices := vs |}.

(** [points.push(pool.pull("Point", x, y))]. *)
Definition push_pulled (pts : list Point) (pl : pool) (x0 y0 : number)
  : list Point * pool :=
  let '(q, pl') := pull pl x0 y0 in (pts ++ [q], pl').

(** [beginPath()]: every point goes back to the pool, in order, and the
    sequence is emptied. *)
Definition beginPath (p : Path2D) (pl : pool) : Path2D * pool :=
  (with_points p [], fold_left push (points p) pl).

(** [closePath()].  The two reads [points[points.length-1]] and
    [points[0]] are only reached when [points.length > 1]. *)
Definition closePath (p : Path2D) (pl : pool) : Path2D * pool :=
  let pts := points p in
  match pts !! 0%nat, pts !! (length pts - 1)%nat with
  | Some first, Some final =>
      if (1 <? length pts)%nat && negb (equals final first) then
        let '(pts', pl') := push_pulled pts pl (x first) (y first) in
        (with_points p pts', pl')
      else (p, pl)
  | _, _ => (p, pl)
  end.

(** [moveTo(x, y)] and [lineTo(x, y)] have the same body. *)
Definition moveTo (p : Path2D) (pl : pool) (x0 y0 : number) : Path2D * pool :=
  let '(pts', pl') := push_pulled (points p) pl x0 y0 in (with_points p pts', pl').

Definition lineTo (p : Path2D) (pl : pool) (x0 y0 : number) : Path2D * pool :=
  let '(pts', pl') := push_pulled (points p) pl x0 y0 in (with_points p pts', pl').

(** [rect(x, y, width, height)]. *)
Definition rect (p : Path2D) (pl : pool) (x0 y0 width height : number)
  : Path2D * pool :=
  let '(p, pl) := moveTo p pl x0 y0 in
  let '(p, pl) := lineTo p pl (x0 + width) y0 in
  let '(p, pl) := moveTo p pl (x0 + width) y0 in
  let '(p, pl) := lineTo p pl (x0 + width) (y0 + height) in
  let '(p, pl) := moveTo p pl (x0 + width) (y0 + height) in
  let '(p, pl) := lineTo p pl x0 (y0 + height) in
  let '(p, pl) := moveTo p pl x0 (y0 + height) in
  lineTo p pl x0 y0.

(** ** [arc] *)

Section Arc.

(** [Math.cos] and [Math.sin] of the engine running the code. *)
Variables cos sin : number -> number.

(** The interpolation loop

    [for (var j = 0; j < nr_of_interpolation_points; j++) { push; angle += direction * dangle; }]

    The counter is a number and the bound may be infinite, so the
    loop need not terminate: [fuel] bounds the number of iterations
    and [None] means the bound was reached. *)
Fixpoint arc_loop (fuel : nat) (x0 y0 radius nr dangle direction : number)
    (j angle : number) (pts : list Point) (pl : pool)
  : option (list Point * pool) :=
  if j <? nr then
    match fuel with
    | O => None
    | S fuel' =>
        let '(pts', pl') :=
          push_pulled pts pl (x0 + radius * cos angle) (y0 + radius * sin angle) in
        arc_loop fuel' x0 y0 radius nr dangle direction
          (j + 1) (angle + direction * dangle) pts' pl'
    end
  else Some (pts, pl).

(** The value of the variable [startAngle] once brought into range. *)
Definition normalized_start (startAngle : number) : number :=
  let startAngle := rem startAngle TAU in
  if startAngle <? 0 then startAngle + TAU else startAngle.

(** The value of the variable [endAngle] when the terminal point is
    pushed: reduced modulo [TAU], brought into range, and moved one
    turn forward when the start is not below it. *)
Definition normalized_end (startAngle endAngle : number) : number :=
  let startAngle := normalized_start startAngle in
  let endAngle := rem endAngle TAU in
  let endAngle := if endAngle <? 0 then endAngle + TAU else endAngle in
  if ge startAngle endAngle then endAngle + TAU else endAngle.

(** The sweep [diff] the interpolation covers. *)
Definition sweep (startAngle endAngle : number) (anticlockwise : bool) : number :=
  let fullCircle :=
    if anticlockwise then ge (abs (startAngle - endAngle)) TAU
    else ge (abs (endAngle - startAngle)) TAU in
  let diff := normalized_end startAngle endAngle - normalized_start startAngle in
  let diff := if anticlockwise then TAU - diff else diff in
  if fullCircle then TAU else diff.

(** [nr_of_interpolation_points]. *)
Definition interpolation_points (p : Path2D) (radius startAngle endAngle : number)
    (anticlockwise : bool) : number :=
  (sweep startAngle endAngle anticlockwise * radius) / arcResolution p.

(** [arc(x, y, radius, startAngle, endAngle, anticlockwise)]. *)
Definition arc (fuel : nat) (p : Path2D) (pl : pool)
    (x0 y0 radius startAngle endAngle : number) (anticlockwise : bool)
  : option (Path2D * pool) :=
  if strict_eq startAngle endAngle then Some (p, pl)
  else
    let fullCircle :=
      if anticlockwise then ge (abs (startAngle - endAngle)) TAU
      else ge (abs (endAngle - startAngle)) TAU in
    let startAngle := rem startAngle TAU in
    let endAngle := rem endAngle TAU in
    let startAngle := if startAngle <? 0 then startAngle + TAU else startAngle in
    let endAngle := if endAngle <? 0 then endAngle + TAU else endAngle in
    let endAngle := if ge startAngle endAngle then endAngle + TAU else endAngle in
    let diff := endAngle - startAngle in
    let direction := if anticlockwise then -1 else 1 in
    let diff := if anticlockwise then TAU - diff else diff in
    let diff := if fullCircle then TAU else diff in
    let length := diff * radius in
    let nr_of_interpolation_points := length / arcResolution p in
    let dangle := diff / nr_of_interpolation_points in
    match arc_loop fuel x0 y0 radius nr_of_interpolation_points dangle direction
            0 startAngle (points p) pl with
    | None => None
    | Some (pts, pl') =>
        let '(pts', pl'') :=
          push_pulled pts pl' (x0 + radius * cos endAngle) (y0 + radius * sin endAngle) in
        Some (with_points p pts', pl'')
    end.

End Arc.

(** ** [triangulatePath] *)

Section Triangulate.

(** The [earcut] package: from the flat coordinate list to the list of
    triangle vertex indices, three per triangle. *)
Variable earcut : list number -> list nat.

(** [while (vertices.length < indices.length) vertices.push(pool.pull("Point"))] *)
Equations? grow (vs : list Point) (pl : pool) (n : nat) : list Point * pool
  by wf (n - length vs)%nat lt :=
  grow vs pl n with lt_dec (length vs) n := {
    | left _ := grow (vs ++ [fst (pull pl 0 0)]) (snd (pull pl 0 0)) n
    | right _ := (vs, pl) }.
Proof. rewrite length_app. simpl. lia. Qed.

(** [for (i = 0; i < indices.length; i++) { var point = points[indices[i]]; vertices[i].set(point.x, point.y); }]

    Reading [point.x] throws when [indices[i]] is not an index of
    [points]. *)
Fixpoint set_vertices (pts : list Point) (indices : list nat) (i : nat)
    (vs : list Point) : result (list Point) :=
  match indices with
  | [] => Ok vs
  | index :: rest =>
      match pts !! index, vs !! i with
      | Some point, Some v =>
          set_vertices pts rest (S i) (<[i := set v (x point) (y point)]> vs)
      | _, _ => Throw TypeError
      end
  end.

(** [while (vertices.length > indices.length) { pool.push(vertices[vertices.length-1]); vertices.length -= 1; }] *)
Equations? shrink (vs : list Point) (pl : pool) (n : nat) : list Point * pool
  by wf (length vs - n)%nat lt :=
  shrink vs pl n with lt_dec n (length vs) := {
    | left _ with vs !! (length vs - 1)%nat := {
        | Some v := shrink (take (length vs - 1)%nat vs) (push pl v) n
        | None := (vs, pl) }
    | right _ := (vs, pl) }.
Proof. rewrite length_take. lia. Qed.

(** [triangulatePath()]: the updated path and pool (the returned array
    is the [vertices] field itself). *)
Definition triangulatePath (p : Path2D) (pl : pool) : result (Path2D * pool) :=
  let indices := earcut (flat_map (fun q => [x q; y q]) (points p)) in
  let '(vs, pl) := grow (vertices p) pl (length indices) in
  let* vs := set_vertices (points p) indices 0%nat vs in
  let '(vs, pl) := shrink vs pl (length indices) in
  Ok (with_vertices p vs, pl).

End Triangulate.

(** ** [ellipse], [arcTo] and [roundRect] *)

(** The angle of the loops of [arc] and [ellipse] after [k] rounds of
    [angle += step]. *)
Fixpoint swept (angle step : number) (k : nat) : number :=
  match k with
  | O => angle
  | S k' => swept (angle + step) step k'
  end.

(** The point of the circle of centre [(x0, y0)] that [arc] pushes for
    an angle. *)
Definition arc_point (cos sin : number -> number) (x0 y0 radius angle : number)
  : Point :=
  {| x := x0 + radius * cos angle; y := y0 + radius * sin angle |}.

(** The point that the loop of [ellipse] pushes for an angle. *)
Definition ellipse_point (cos sin : number -> number)
    (x0 y0 radiusX radiusY cos_rotation sin_rotation angle : number) : Point :=
  let _x1 := radiusX * cos angle in
  let _y1 := radiusY * sin angle in
  {| x := x0 + _x1 * cos_rotation - _y1 * sin_rotation;
     y := y0 + _x1 * sin_rotation + _y1 * cos_rotation |}.

Section Curves.

(** [Math.cos], [Math.sin], [Math.sqrt], [Math.tan], [Math.pow] and
    [Math.atan2] of the engine running the code. *)
Variables cos sin sqrt tan : number -> number.
Variables pow atan2 : number -> number -> number.

(** The loop of [ellipse]

    [for (var j = 0; j < nr_of_interpolation_points; j++) { ...; points.push(pool.pull("Point", _x2, _y2)); angle += direction * dangle; }]

    with [fuel] as in [arc_loop]. *)
Fixpoint ellipse_loop (fuel : nat)
    (x0 y0 radiusX radiusY cos_rotation sin_rotation nr dangle direction : number)
    (j angle : number) (pts : list Point) (pl : pool)
  : option (list Point * pool) :=
  if j <? nr then
    match fuel with
    | O => None
    | S fuel' =>
        let _x1 := radiusX * cos angle in
        let _y1 := radiusY * sin angle in
        let _x2 := x0 + _x1 * cos_rotation - _y1 * sin_rotation in
        let _y2 := y0 + _x1 * sin_rotation + _y1 * cos_rotation in
        let '(pts', pl') := push_pulled pts pl _x2 _y2 in
        ellipse_loop fuel' x0 y0 radiusX radiusY cos_rotation sin_rotation nr dangle
          direction (j + 1) (angle + direction * dangle) pts' pl'
    end
  else Some (pts, pl).

(** [nr_of_interpolation_points] of [ellipse]. *)
Definition ellipse_interpolation_points (p : Path2D)
    (radiusX radiusY startAngle endAngle : number) (anticlockwise : bool) : number :=
  let diff := sweep startAngle endAngle anticlockwise in
  ((diff * radiusX + diff * radiusY) / 2) / arcResolution p.

(** [ellipse(x, y, radiusX, radiusY, rotation, startAngle, endAngle, anticlockwise)].
    Unlike [arc], nothing is pushed after the loop. *)
Definition ellipse (fuel : nat) (p : Path2D) (pl : pool)
    (x0 y0 radiusX radiusY rotation startAngle endAngle : number)
    (anticlockwise : bool) : option (Path2D * pool) :=
  if strict_eq startAngle endAngle then Some (p, pl)
  else
    let fullCircle :=
      if anticlockwise then ge (abs (startAngle - endAngle)) TAU
      else ge (abs (endAngle - startAngle)) TAU in
    let startAngle := rem startAngle TAU in
    let endAngle := rem endAngle TAU in
    let startAngle := if startAngle <? 0 then startAngle + TAU else startAngle in
    let endAngle := if endAngle <? 0 then endAngle + TAU else endAngle in
    let endAngle := if ge startAngle endAngle then endAngle + TAU else endAngle in
    let diff := endAngle - startAngle in
    let direction := if anticlockwise then -1 else 1 in
    let diff := if anticlockwise then TAU - diff else diff in
    let diff := if fullCircle then TAU else diff in
    let length := (diff * radiusX + diff * radiusY) / 2 in
    let nr_of_interpolation_points := length / arcResolution p in
    let dangle := diff / nr_of_interpolation_points in
    let cos_rotation := cos rotation in
    let sin_rotation := sin rotation in
    match ellipse_loop fuel x0 y0 radiusX radiusY cos_rotation sin_rotation
            nr_of_interpolation_points dangle direction 0 startAngle (points p) pl with
    | None => None
    | Some (pts, pl') => Some (with_points p pts, pl')
    end.

(** The first tangent point of [arcTo], which it pushes, and the call of
    [arc] it ends with: centre, start angle and end angle.  [(x0, y0)] is
    the current point. *)
Definition arcTo_geometry (x0 y0 x1 y1 x2 y2 radius : number)
  : (number * number) * (number * number) * number * number :=
  let a0 := x0 - x1 in
  let a1 := y0 - y1 in
  let b0 := x2 - x1 in
  let b1 := y2 - y1 in
  let l_a := sqrt (pow a0 2 + pow a1 2) in
  let l_b := sqrt (pow b0 2 + pow b1 2) in
  let a0 := a0 / l_a in
  let a1 := a1 / l_a in
  let b0 := b0 / l_b in
  let b1 := b1 / l_b in
  let angle := atan2 a1 a0 - atan2 b1 b0 in
  let tan_angle_div2 := tan (angle / 2) in
  let adj_l := radius / tan_angle_div2 in
  let tangent_point1 := (x1 + a0 * adj_l, y1 + a1 * adj_l) in
  let tangent_point2 := (x1 + b0 * adj_l, y1 + b1 * adj_l) in
  let bisec0 := (a0 + b0) / 2 in
  let bisec1 := (a1 + b1) / 2 in
  let bisec_l := sqrt (pow bisec0 2 + pow bisec1 2) in
  let bisec0 := bisec0 / bisec_l in
  let bisec1 := bisec1 / bisec_l in
  let hyp_l := sqrt (pow radius 2 + pow adj_l 2) in
  let center := (x1 + hyp_l * bisec0, y1 + hyp_l * bisec1) in
  let startAngle :=
    atan2 (snd tangent_point1 - snd center) (fst tangent_point1 - fst center) in
  let endAngle :=
    atan2 (snd tangent_point2 - snd center) (fst tangent_point2 - fst center) in
  (tangent_point1, center, startAngle, endAngle).

(** [arcTo(x1, y1, x2, y2, radius)].  Reading [points[points.length-1].x]
    throws on an empty path; [None] is the fuel of [arc] running out. *)
Definition arcTo (fuel : nat) (p : Path2D) (pl : pool)
    (x1 y1 x2 y2 radius : number) : option (result (Path2D * pool)) :=
  match points p !! (length (points p) - 1)%nat with
  | None => Some (Throw TypeError)
  | Some current =>
      let '(tangent_point1, center, startAngle, endAngle) :=
        arcTo_geometry (x current) (y current) x1 y1 x2 y2 radius in
      let '(pts, pl) :=
        push_pulled (points p) pl (fst tangent_point1) (snd tangent_point1) in
      match arc cos sin fuel (with_points p pts) pl (fst center) (snd center) radius
              startAngle endAngle false with
      | None => None
      | Some after => Some (Ok after)
      end
  end.

(** The rest of a method after a call of [arcTo]. *)
Definition and_then (r : option (result (Path2D * pool)))
    (k : Path2D -> pool -> option (result (Path2D * pool)))
  : option (result (Path2D * pool)) :=
  match r with
  | Some (Ok (p, pl)) => k p pl
  | Some (Throw e) => Some (Throw e)
  | None => None
  end.

(** [roundRect(x, y, width, height, radius)]. *)
Definition roundRect (fuel : nat) (p : Path2D) (pl : pool)
    (x0 y0 width height radius : number) : option (result (Path2D * pool)) :=
  let '(p, pl) := moveTo p pl (x0 + radius) y0 in
  let '(p, pl) := lineTo p pl (x0 + width - radius) y0 in
  and_then (arcTo fuel p pl (x0 + width) y0 (x0 + width) (y0 + radius) radius)
    (fun p pl =>
  let '(p, pl) := lineTo p pl (x0 + width) (y0 + height - radius) in
  and_then (arcTo fuel p pl (x0 + width) (y0 + height) (x0 + width - radius)
              (y0 + height) radius)
    (fun p pl =>
  let '(p, pl) := lineTo p pl (x0 + radius) (y0 + height) in
  and_then (arcTo fuel p pl x0 (y0 + height) x0 (y0 + height - radius) radius)
    (fun p pl =>
  let '(p, pl) := lineTo p pl x0 (y0 + radius) in
  arcTo fuel p pl x0 y0 (x0 + radius) y0 radius))).

End Curves.

End Path.

(* ================================================================== *)
(** * Sequences of calls on one path *)
(* ================================================================== *)

Module Drawing.

Import JSNumber Geometry Pool JS Path.

(** A call of a method of [Path2D], with its arguments. *)
Inductive call : Type :=
| BeginPath
| ClosePath
| TriangulatePath
| MoveTo (x y : number)
| LineTo (x y : number)
| Arc (x y radius startAngle endAngle : number) (anticlockwise : bool)
| ArcTo (x1 y1 x2 y2 radius : number)
| Ellipse (x y radiusX radiusY rotation startAngle endAngle : number)
    (anticlockwise : bool)
| Rect (x y width height : number)
| RoundRect (x y width height radius : number).

Section Run.

Variables cos sin sqrt tan : number -> number.
Variables pow atan2 : number -> number -> number.
Variable earcut : list number -> list nat.

Definition returned (r : option (Path2D * pool)) : option (result (Path2D * pool)) :=
  match r with
  | Some after => Some (Ok after)
  | None => None
  end.

(** One call on the path [p], the pool being [pl]: the path and the pool
    after it, the exception it threw, or [None] when a loop was still
    running after [fuel] rounds. *)
Definition perform (fuel : nat) (c : call) (p : Path2D) (pl : pool)
  : option (result (Path2D * pool)) :=
  match c with
  | BeginPath => Some (Ok (beginPath p pl))
  | ClosePath => Some (Ok (closePath p pl))
  | TriangulatePath => Some (triangulatePath earcut p pl)
  | MoveTo x0 y0 => Some (Ok (moveTo p pl x0 y0))
  | LineTo x0 y0 => Some (Ok (lineTo p pl x0 y0))
  | Arc x0 y0 radius startAngle endAngle anticlockwise =>
      returned (arc cos sin fuel p pl x0 y0 radius startAngle endAngle anticlockwise)
  | ArcTo x1 y1 x2 y2 radius =>
      arcTo cos sin sqrt tan pow atan2 fuel p pl x1 y1 x2 y2 radius
  | Ellipse x0 y0 radiusX radiusY rotation startAngle endAngle anticlockwise =>
      returned (ellipse cos sin fuel p pl x0 y0 radiusX radiusY rotation
                  startAngle endAngle anticlockwise)
  | Rect x0 y0 width height => Some (Ok (rect p pl x0 y0 width height))
  | RoundRect x0 y0 width height radius =>
      roundRect cos sin sqrt tan pow atan2 fuel p pl x0 y0 width height radius
  end.

(** The calls in turn, up to the first one that throws. *)
Fixpoint run (fuel : nat) (calls : list call) (p : Path2D) (pl : pool)
  : option (result (Path2D * pool)) :=
  match calls with
  | [] => Some (Ok (p, pl))
  | c :: rest =>
      match perform fuel c p pl with
      | Some (Ok (p', pl')) => run fuel rest p' pl'
      | other => other
      end
  end.

End Run.

(** [lineTo] for each pair of coordinates in turn. *)
Definition polyline (p : Path2D) (pl : pool) (coordinates : list (number * number))
  : Path2D * pool :=
  fold_left (fun after c => lineTo (fst after) (snd after) (fst c) (snd c))
    coordinates (p, pl).

(** What a call that only appends leaves: the points it found, then
    those it pulled, one pull each; nothing else has changed. *)
Definition appends (p : Path2D) (pl : pool) (p' : Path2D) (pl' : pool) : Prop :=
  exists extra,
    p' = with_points p (points p ++ extra) /\ pl' = pulled (length extra) pl.

(** The call did not throw, and what it returned, if it did return, was
    appended. *)
Definition appended (p : Path2D) (pl : pool) (r : option (result (Path2D * pool)))
  : Prop :=
  match r with
  | Some (Ok (p', pl')) => appends p pl p' pl'
  | Some (Throw _) => False
  | None => True
  end.

(** The points handed out by the pool and not given back, less those the
    path holds in [points] and [vertices]. *)
Definition unaccounted (p : Path2D) (pl : pool) : Z :=
  (Z.of_nat (pulls pl) - Z.of_nat (pushes pl)
   - Z.of_nat (length (points p)) - Z.of_nat (length (vertices p)))%Z.

End Drawing.

(* ================================================================== *)
(** * TMX utilities *)
(* ================================================================== *)

Module TMX.

Import JSNumber JS.
Local Open Scope string_scope.

(** JavaScript values as the TMX code handles them.  Records (plain
    objects) are finite maps from property names to values; the result of
    a base64 decoding is a [Uint32Array].

    A JavaScript string is a sequence of 16-bit code units.  A [string]
    is such a sequence with every code unit below 256, the character of
    code [n] being the code unit [n]: the character of code 160 is
    U+00A0, not a byte of some encoding.  The binary strings that [atob]
    returns and the ASCII text of a map file are of this kind; strings
    with a code unit from 256 on are not described. *)
Inductive val : Type :=
| VUndefined
| VNull
| VBool (b : bool)
| VNumber (n : number)
| VString (s : string)
| VArray (elements : list val)
| VObject (properties : gmap string val)
| VUint32Array (words : list Z).

(** A record, as [parse] builds them. *)
Abbreviation record := (gmap string val).

(** ToBoolean: what [!v], [v || w] and [v ? a : b] test. *)
Definition truthy (v : val) : bool :=
  match v with
  | VUndefined | VNull => false
  | VBool b => b
  | VNumber n => negb (is_zero n || is_nan n)
  | VString s => negb (String.eqb s "")
  | VArray _ | VObject _ | VUint32Array _ => true
  end.

(** [a || b]. *)
Definition or_else (a b : val) : val := if truthy a then a else b.

(** [o.k]: a missing property reads as [undefined]. *)
Definition get (o : record) (k : string) : val := default VUndefined (o !! k).

(** [typeof v !== "undefined"]. *)
Definition defined (v : val) : bool :=
  match v with
  | VUndefined => false
  | _ => true
  end.

(** [v === s] for a string literal [s]. *)
Definition is_string (v : val) (s : string) : bool :=
  match v with
  | VString s' => String.eqb s' s
  | _ => false
  end.

(** ** String helpers standing for the regular expressions of the source *)

Definition lower (c : ascii) : ascii :=
  let n := nat_of_ascii c in
  if (65 <=? n)%nat && (n <=? 90)%nat then ascii_of_nat (n + 32) else c.

Fixpoint lowercase (s : string) : string :=
  match s with
  | EmptyString => EmptyString
  | String c s' => String (lower c) (lowercase s')
  end.

(** [s.search(/^prefix/i) === 0], for a lower-case [prefix]. *)
Definition starts_with_ci (prefix s : string) : bool :=
  String.eqb (lowercase (substring 0 (String.length prefix) s)) prefix.

(** [s.split(/^prefix/i)[1]] when [s] starts with the prefix: what follows it. *)
Definition after_prefix (prefix s : string) : string :=
  substring (String.length prefix) (String.length s - String.length prefix) s.

(** [[\da-fA-F]]. *)
Definition is_hex (c : ascii) : bool :=
  let n := nat_of_ascii c in
  ((48 <=? n) && (n <=? 57) || (97 <=? n) && (n <=? 102) || (65 <=? n) && (n <=? 70))%nat.

Fixpoint all_hex (s : string) : bool :=
  match s with
  | EmptyString => true
  | String c s' => is_hex c && all_hex s'
  end.

(** [s.match(/^#([\da-fA-F]{a})([\da-fA-F]{b})$/)]: the two groups. *)
Definition match_color (a b : nat) (s : string) : option (string * string) :=
  match s with
  | String "#" digits =>
      if (String.length digits =? a + b)%nat && all_hex digits
      then Some (substring 0 a digits, substring a b digits)
      else None
  | _ => None
  end.

(** [name.search(/^(ratio|anchorPoint)$/) === 0]. *)
Definition is_ratio_or_anchorPoint (name : string) : bool :=
  String.eqb name "ratio" || String.eqb name "anchorPoint".

(** ** [setTMXValue] *)

Section Properties.

(** [isBoolean] and [isNumeric] of the engine's string utilities. *)
Variables isBoolean isNumeric : string -> bool.

(** [Number(s)] on a string. *)
Variable Number_of_string : string -> number.

(** [JSON.parse(s)], and [Function("'use strict';return (" + s + ")")()]:
    a value, or the exception raised. *)
Variables JSON_parse evaluate : string -> result val.

(** The final step of the default case: a number named [ratio] or
    [anchorPoint] becomes a vector. *)
Definition normalize_named (name : string) (v : val) : val :=
  if is_ratio_or_anchorPoint name then
    match v with
    | VNumber n => VObject (<["x" := VNumber n]> (<["y" := VNumber n]> ∅))
    | _ => v
    end
  else v.

(** The [if ... else if ...] chain of the default case, on a string. *)
Definition interpret (s : string) : result val :=
  if negb (truthy (VString s)) || isBoolean s then
    Ok (if truthy (VString s) then VBool (String.eqb s "true") else VBool true)
  else if isNumeric s then
    Ok (VNumber (Number_of_string s))
  else if starts_with_ci "json:" s then
    let matched := after_prefix "json:" s in
    match JSON_parse matched with
    | Ok v => Ok v
    | Throw _ => Throw (Error ("Unable to parse JSON: " ++ matched))
    end
  else if starts_with_ci "eval:" s then
    let matched := after_prefix "eval:" s in
    match evaluate matched with
    | Ok v => Ok v
    | Throw _ => Throw (Error ("Unable to evaluate: " ++ matched))
    end
  else
    match match_color 1 3 s with
    | Some (g1, g2) => Ok (VString ("#" ++ g2 ++ g1))
    | None =>
        match match_color 2 6 s with
        | Some (g1, g2) => Ok (VString ("#" ++ g2 ++ g1))
        | None => Ok (VString s)
        end
    end.

(** [setTMXValue(name, type, value)]. *)
Definition setTMXValue (name : string) (type value : val) : result val :=
  match value with
  | VString s =>
      if is_string type "int" || is_string type "float" then
        Ok (VNumber (Number_of_string s))
      else if is_string type "bool" then
        Ok (VBool (String.eqb s "true"))
      else
        let* v := interpret s in
        Ok (normalize_named name v)
  | _ => Ok value
  end.

End Properties.

(** ** [decode] and its helpers *)

(** [decompress()]. *)
Definition decompress : result val :=
  Throw (Error "GZIP/ZLIB compressed TMX Tile Map not supported!").

Section Decoding.

(** ToNumber, as unary [+] applies it, and ToString, as [+] applies it to
    the operand of a string concatenation. *)
Variable ToNumber : val -> number.
Variable ToString : val -> string.

(** The code units that [String.prototype.trim] removes, which are
    ECMAScript's WhiteSpace and LineTerminator: TAB, LF, VT, FF, CR, SP,
    NBSP (U+00A0), the other space separators of Unicode (U+1680,
    U+2000 to U+200A, U+202F, U+205F, U+3000), LS and PS (U+2028, U+2029)
    and ZWNBSP (U+FEFF). *)
Definition is_white_space (n : Z) : bool :=
  ((9 <=? n) && (n <=? 13) || (n =? 32) || (n =? 160) || (n =? 5760)
   || (8192 <=? n) && (n <=? 8202) || (n =? 8232) || (n =? 8233)
   || (n =? 8239) || (n =? 8287) || (n =? 12288) || (n =? 65279))%Z.

(** The characters that [trim] removes: of the code units a character
    can be, these are 9 to 13, 32 and 160. *)
Definition is_space (c : ascii) : bool :=
  is_white_space (Z.of_nat (nat_of_ascii c)).

Fixpoint trim_start (l : list ascii) : list ascii :=
  match l with
  | c :: l' => if is_space c then trim_start l' else l
  | [] => []
  end.

Definition trim (l : list ascii) : list ascii :=
  rev (trim_start (rev (trim_start l))).

(** [s.replace("\n", "")]: only the first line feed goes. *)
Fixpoint remove_first_newline (l : list ascii) : list ascii :=
  match l with
  | c :: l' => if (nat_of_ascii c =? 10)%nat then l' else c :: remove_first_newline l'
  | [] => []
  end.

(** [s.split(",")]. *)
Fixpoint split_commas (l : list ascii) (current : list ascii) : list (list ascii) :=
  match l with
  | c :: l' =>
      if (nat_of_ascii c =? 44)%nat then rev current :: split_commas l' []
      else split_commas l' (c :: current)
  | [] => [rev current]
  end.

(** [decodeCSV(input)]. *)
Definition decodeCSV (input : val) : result val :=
  match input with
  | VString s =>
      let entries := split_commas (trim (remove_first_newline (list_ascii_of_string s))) [] in
      Ok (VArray (map (fun e => VNumber (ToNumber (VString (string_of_list_ascii e)))) entries))
  | _ => Throw TypeError
  end.

(** *** [atob]: the forgiving base64 decoding of the HTML standard *)

Definition sextet (c : ascii) : option Z :=
  let n := Z.of_nat (nat_of_ascii c) in
  if (65 <=? n)%Z && (n <=? 90)%Z then Some (n - 65)%Z
  else if (97 <=? n)%Z && (n <=? 122)%Z then Some (n - 71)%Z
  else if (48 <=? n)%Z && (n <=? 57)%Z then Some (n + 4)%Z
  else if (n =? 43)%Z then Some 62%Z
  else if (n =? 47)%Z then Some 63%Z
  else None.

Definition is_equals_sign (c : ascii) : bool := (nat_of_ascii c =? 61)%nat.

(** Drop one or two trailing [=] of an input whose length is a multiple of four. *)
Definition strip_padding (l : list ascii) : list ascii :=
  if (length l mod 4 =? 0)%nat then
    match rev l with
    | a :: b :: rest =>
        if is_equals_sign a then
          if is_equals_sign b then rev rest else rev (b :: rest)
        else l
    | _ => l
    end
  else l.

(** The bytes of the sextets, four at a time; two or three left over give
    one or two bytes. *)
Fixpoint bytes_of_sextets (l : list Z) : list Z :=
  match l with
  | a :: b :: c :: d :: rest =>
      let n := (a * 262144 + b * 4096 + c * 64 + d)%Z in
      (n / 65536)%Z :: (n / 256 mod 256)%Z :: (n mod 256)%Z :: bytes_of_sextets rest
  | [a; b; c] =>
      let n := (a * 4096 + b * 64 + c)%Z in
      [(n / 1024)%Z; (n / 4 mod 256)%Z]
  | [a; b] => [((a * 64 + b) / 16)%Z]
  | _ => []
  end.

(** ASCII whitespace, which [atob] skips: tab, line feed, form feed,
    carriage return and space. *)
Definition is_ascii_whitespace (c : ascii) : bool :=
  let n := nat_of_ascii c in
  ((n =? 9) || (n =? 10) || (n =? 12) || (n =? 13) || (n =? 32))%nat.

(** [globalThis.atob(s)]: the character codes of the decoded binary
    string, or [InvalidCharacterError]. *)
Definition atob (s : string) : result (list Z) :=
  let l := filter (fun c => negb (is_ascii_whitespace c)) (list_ascii_of_string s) in
  let l := strip_padding l in
  if (length l mod 4 =? 1)%nat then Throw InvalidCharacterError
  else
    match mapM sextet l with
    | Some sextets => Ok (bytes_of_sextets sextets)
    | None => Throw InvalidCharacterError
    end.

(** [[A-Za-z0-9\+\/\=]]. *)
Definition is_base64_char (c : ascii) : bool :=
  match sextet c with
  | Some _ => true
  | None => is_equals_sign c
  end.

(** ToInt32 and ToUint32 of an integer. *)
Definition to_int32 (z : Z) : Z := ((z + 2 ^ 31) mod 2 ^ 32 - 2 ^ 31)%Z.
Definition to_uint32 (z : Z) : Z := (z mod 2 ^ 32)%Z.

(** [a << s] on integers: the shift count is taken modulo 32 and the
    result wraps to a signed 32-bit integer. *)
Definition shl (a s : Z) : Z := to_int32 (Z.shiftl a (s mod 32)).

(** [dec.charCodeAt(k)] as the operand of [<<]: past the end it is [NaN],
    which [<<] reads as [0]. *)
Definition charCodeAt (dec : list Z) (k : nat) : Z := default 0%Z (dec !! k).

(** The inner loop

    [for (j = bytes - 1; j >= 0; --j) ar[i] += dec.charCodeAt((i * bytes) + j) << (j << 3);]

    on the element [ar[i]], [js] being the values [j] takes. *)
Fixpoint add_bytes (dec : list Z) (bytes i : nat) (js : list nat) (word : Z) : Z :=
  match js with
  | [] => word
  | j :: js' =>
      add_bytes dec bytes i js'
        (to_uint32 (word + shl (charCodeAt dec (i * bytes + j)) (shl (Z.of_nat j) 3)))
  end.

(** The outer loop, [steps] being the values [i] takes.  A store past the end
    of a typed array is dropped, as is an update of a list element. *)
Fixpoint fill_words (dec : list Z) (bytes : nat) (steps : list nat) (ar : list Z) : list Z :=
  match steps with
  | [] => ar
  | i :: steps' =>
      fill_words dec bytes steps'
        (<[i := add_bytes dec bytes i (rev (seq 0 bytes)) 0%Z]> ar)
  end.

(** [decodeBase64AsArray(input, bytes)]. *)
Definition decodeBase64AsArray (input : val) (bytes : nat) : result (list Z) :=
  let bytes := if (bytes =? 0)%nat then 1%nat else bytes in
  match input with
  | VString s =>
      let cleaned := filter is_base64_char (list_ascii_of_string s) in
      let* dec := atob (string_of_list_ascii cleaned) in
      (* [new Uint32Array(dec.length / bytes)] truncates the length; the
         loop runs while [i < dec.length / bytes], the exact quotient *)
      let ar := replicate (length dec / bytes) 0%Z in
      let iterations := ((length dec + bytes - 1) / bytes)%nat in
      Ok (fill_words dec bytes (seq 0 iterations) ar)
  | _ => Throw TypeError
  end.

(** [decode(data, encoding, compression)]. *)
Definition decode (data encoding compression : val) : result val :=
  let compression := or_else compression (VString "none") in
  let encoding := or_else encoding (VString "none") in
  if is_string encoding "csv" then decodeCSV data
  else if is_string encoding "base64" then
    let* decoded := decodeBase64AsArray data 4 in
    if is_string compression "none" then Ok (VUint32Array decoded) else decompress
  else if is_string encoding "none" then Ok data
  else if is_string encoding "xml" then
    Throw (Error "XML encoding is deprecated, use base64 instead")
  else Throw (Error ("Unknown layer encoding: " ++ ToString encoding)).

(** ** The "data" case of [normalize] *)

(** [chunk.k] inside the [forEach] callback: reading a property of
    [undefined] or [null] throws, a primitive has none. *)
Definition member (v : val) (k : string) : result val :=
  match v with
  | VUndefined | VNull => Throw TypeError
  | VObject o => Ok (get o k)
  | _ => Ok VUndefined
  end.

(** The object literal pushed for one chunk. *)
Definition chunk_entry (data : record) (chunk : val) : result val :=
  let* cx := member chunk "x" in
  let* cy := member chunk "y" in
  let* cw := member chunk "width" in
  let* ch := member chunk "height" in
  let* text := member chunk "text" in
  let* decoded := decode text (get data "encoding") (get data "compression") in
  Ok (VObject (<["x" := VNumber (ToNumber cx)]>
              (<["y" := VNumber (ToNumber cy)]>
              (<["width" := VNumber (ToNumber cw)]>
              (<["height" := VNumber (ToNumber ch)]>
              (<["data" := decoded]> ∅)))))).

(** [data.chunks.forEach((chunk) => { obj.chunks.push({...}); })], on the
    value of [obj.chunks]. *)
Fixpoint push_chunks (data : record) (chunks : list val) (target : val)
  : result val :=
  match chunks with
  | [] => Ok target
  | chunk :: rest =>
      let* entry := chunk_entry data chunk in
      match target with
      | VArray entries => push_chunks data rest (VArray (entries ++ [entry]))
      | _ => Throw TypeError
      end
  end.

(** The body of [case "data":], from the record [data] that [parse(item)]
    returned. *)
Definition normalize_data (obj data : record) : result record :=
  let data := <["encoding" := or_else (get data "encoding") (VString "xml")]> data in
  let* obj :=
    if defined (get data "chunks") then
      let obj := <["chunks" := or_else (get obj "chunks") (VArray [])]> obj in
      match get data "chunks" with
      | VArray chunks =>
          let* pushed := push_chunks data chunks (get obj "chunks") in
          Ok (<["encoding" := VString "none"]> (<["chunks" := pushed]> obj))
      | _ => Throw TypeError
      end
    else Ok obj in
  if defined (get data "text") && negb (defined (get obj "chunks")) then
    let* decoded := decode (get data "text") (get data "encoding") (get data "compression") in
    Ok (<["encoding" := VString "none"]> (<["data" := decoded]> obj))
  else Ok obj.

End Decoding.

(** ** What the decoded array should hold *)

(** A character code of a binary string. *)
Definition is_byte (b : Z) : Prop := (0 <= b < 256)%Z.

(** The little-endian 32-bit word made of the four bytes from [i * 4]. *)
Definition word_at (dec : list Z) (i : nat) : Z :=
  (charCodeAt dec (i * 4) + 256 * charCodeAt dec (i * 4 + 1)
   + 65536 * charCodeAt dec (i * 4 + 2) + 16777216 * charCodeAt dec (i * 4 + 3))%Z.

End TMX.

(* ================================================================== *)
(** * Container: who holds a Renderable *)
(* ================================================================== *)

Module Container.

Import JS.

(** Modelled from the spec: the [Container] class (only its declarations,
    container.d.ts, are at hand; the implementation is not).  The part
    modelled is what [addChild], [removeChild] and [removeChildNow] do to
    the child sequences: a Renderable is known by an identifier, a
    Container is itself a Renderable, and a scene records the child
    sequence of every Container, the scene root, the removals that
    [removeChild] has scheduled and the children whose destroy hook ran. *)
Record scene : Type := {
  children : gmap nat (list nat);
  root : nat;
  pendingRemoval : list (nat * nat * bool);
  destroyed : list nat
}.

(** A scene with no child anywhere. *)
Definition create (root0 : nat) : scene :=
  {| children := ∅; root := root0; pendingRemoval := []; destroyed := [] |}.

(** Modelled from the spec: the child sequence of Container [c]
    ([getChildren]). *)
Definition sequence (s : scene) (c : nat) : list nat :=
  default [] (children s !! c).

(** Modelled from the spec: [hasChild], true if the Container contains
    the child. *)
Definition hasChild (s : scene) (c child : nat) : bool :=
  bool_decide (child ∈ sequence s c).

Definition with_sequence (s : scene) (c : nat) (l : list nat) : scene :=
  {| children := <[c := l]> (children s); root := root s;
     pendingRemoval := pendingRemoval s; destroyed := destroyed s |}.

(** Modelled from the spec: the unlink of a child from a Container, after
    which the Container no longer has the child. *)
Definition unlink (s : scene) (c child : nat) : scene :=
  with_sequence s c (filter (fun r => r ≠ child) (sequence s c)).

(** Modelled from the spec: "child already belongs to another Container":
    a Container other than [c] whose sequence has the child. *)
Definition other_holder (s : scene) (c child : nat) : option nat :=
  fst <$> List.find
    (fun entry : nat * list nat =>
       bool_decide (entry.1 ≠ c) && bool_decide (child ∈ entry.2))
    (map_to_list (children s)).

(** Modelled from the spec: [c] is a descendant of [top], searched to a
    bounded depth. *)
Fixpoint descends (depth : nat) (s : scene) (top c : nat) : bool :=
  match depth with
  | O => false
  | S depth' =>
      existsb (fun k => Nat.eqb k c || descends depth' s k c) (sequence s top)
  end.

Definition is_descendant (s : scene) (top c : nat) : bool :=
  descends (S (size (children s))) s top c.

(** Modelled from the spec: [addChild(child)] on Container [c].  It fails
    with an InvalidOperation condition if the child is the Container
    itself, or if the child is the current root and [c] is a descendant
    of it; if the child already belongs to another Container it is
    removed from there first; then it is inserted into the sequence. *)
Definition addChild (s : scene) (c child : nat) : result scene :=
  if Nat.eqb child c then Throw (Error "InvalidOperation")
  else if Nat.eqb child (root s) && is_descendant s child c then
    Throw (Error "InvalidOperation")
  else
    let s :=
      match other_holder s c child with
      | Some previous => unlink s previous child
      | None => s
      end in
    Ok (with_sequence s c (sequence s c ++ [child])).

(** Modelled from the spec: [removeChildNow(child, keepalive)], the
    immediate and unconditional unlink; the destroy hook of the child
    runs unless [keepalive]. *)
Definition removeChildNow (s : scene) (c child : nat) (keepalive : bool) : scene :=
  let s := unlink s c child in
  if keepalive then s
  else {| children := children s; root := root s;
          pendingRemoval := pendingRemoval s;
          destroyed := child :: destroyed s |}.

(** Modelled from the spec: [removeChild(child, keepalive)] schedules the
    unlink for the end of the current update/draw pass. *)
Definition removeChild (s : scene) (c child : nat) (keepalive : bool) : scene :=
  {| children := children s; root := root s;
     pendingRemoval := pendingRemoval s ++ [(c, child, keepalive)];
     destroyed := destroyed s |}.

(** Modelled from the spec: the safe point between two passes, where the
    scheduled removals are carried out. *)
Definition endOfPass (s : scene) : scene :=
  let drained :=
    fold_left (fun s (r : nat * nat * bool) => removeChildNow s r.1.1 r.1.2 r.2)
      (pendingRemoval s) s in
  {| children := children drained; root := root drained;
     pendingRemoval := []; destroyed := destroyed drained |}.

(** What application code may do to a scene. *)
Inductive operation : Type :=
| AddChild (c child : nat)
| RemoveChild (c child : nat) (keepalive : bool)
| RemoveChildNow (c child : nat) (keepalive : bool)
| EndOfPass.

(** One operation; a failed [addChild] leaves the scene as it was. *)
Definition step (s : scene) (o : operation) : scene :=
  match o with
  | AddChild c child =>
      match addChild s c child with
      | Ok s' => s'
      | Throw _ => s
      end
  | RemoveChild c child keepalive => removeChild s c child keepalive
  | RemoveChildNow c child keepalive => removeChildNow s c child keepalive
  | EndOfPass => endOfPass s
  end.

Definition run (ops : list operation) (s : scene) : scene := fold_left step ops s.

(** No Renderable is in the sequences of two Containers. *)
Definition exclusive (s : scene) : Prop :=
  forall c1 c2 r, r ∈ sequence s c1 -> r ∈ sequence s c2 -> c1 = c2.

End Container.

(* ================================================================== *)
(** * A small environment to run the model in *)
(* ================================================================== *)

(** The model takes from its environment what the engine takes from the
    JavaScript platform and from modules outside the files embedded here:
    [Math.cos] and [Math.sin] (see [JSMath]), the [earcut] package, the
    string predicates [isBoolean] and [isNumeric], [JSON.parse], the
    evaluation of an expression, the conversions ToNumber and ToString
    and, for [parse], [String.prototype.trim].
    The instances below are deliberately small: they are only used to run
    the model on concrete calls. *)
Module Sample.

Import JSNumber JS TMX.
Local Open Scope string_scope.

(** A fan triangulation: the triangles (0, i, i + 1) of a convex outline. *)
Definition fan (data : list number) : list nat :=
  flat_map (fun i => [0; i; S i])%nat (seq 1 (length data / 2 - 2)).

(** [s.trim()]. *)
Definition trimmed (s : string) : string :=
  string_of_list_ascii (trim (list_ascii_of_string s)).

Definition isBoolean (s : string) : bool :=
  String.eqb (trimmed s) "true" || String.eqb (trimmed s) "false".

Definition is_digit (c : ascii) : bool :=
  let n := nat_of_ascii c in ((48 <=? n) && (n <=? 57))%nat.

(** The value of a string of decimal digits. *)
Fixpoint digits_value (l : list ascii) (acc : Z) : option Z :=
  match l with
  | [] => Some acc
  | c :: l' =>
      if is_digit c then digits_value l' (10 * acc + Z.of_nat (nat_of_ascii c) - 48)%Z
      else None
  end.

Definition natural_of_string (s : string) : option Z :=
  match list_ascii_of_string (trimmed s) with
  | [] => None
  | l => digits_value l 0%Z
  end.

Definition isNumeric (s : string) : bool :=
  match natural_of_string s with
  | Some _ => true
  | None => false
  end.

Definition number_of_Z (z : Z) : number :=
  SF2Prim (binary_normalize prec emax z 0 false).

(** Decimal naturals convert to their value, anything else to [NaN]. *)
Definition Number_of_string (s : string) : number :=
  match natural_of_string s with
  | Some z => number_of_Z z
  | None => nan
  end.

(** The literals [true], [false], [null] and the decimal naturals. *)
Definition JSON_parse (s : string) : result val :=
  if String.eqb (trimmed s) "true" then Ok (VBool true)
  else if String.eqb (trimmed s) "false" then Ok (VBool false)
  else if String.eqb (trimmed s) "null" then Ok VNull
  else
    match natural_of_string s with
    | Some z => Ok (VNumber (number_of_Z z))
    | None => Throw SyntaxError
    end.

Definition evaluate (s : string) : result val := JSON_parse s.

Definition ToNumber (v : val) : number :=
  match v with
  | VNumber n => n
  | VString s => if String.eqb (trimmed s) "" then 0%float else Number_of_string s
  | VBool true => 1%float
  | VBool false | VNull => 0%float
  | _ => nan
  end.

Definition ToString (v : val) : string :=
  match v with
  | VString s => s
  | VUndefined => "undefined"
  | VNull => "null"
  | VBool true => "true"
  | VBool false => "false"
  | _ => "[object]"
  end.

(** Example paths. *)
Definition at_ (x0 y0 : number) : Geometry.Point := {| Geometry.x := x0; Geometry.y := y0 |}.

(** A triangle whose vertex buffer still holds the six vertices of an
    earlier, larger triangulation. *)
Definition triangle : Path.Path2D :=
  {| Path.points := [at_ 0 0; at_ 10 0; at_ 10 10];
     Path.arcResolution := 5;
     Path.vertices := [at_ 0 0; at_ 4 0; at_ 4 4; at_ 0 0; at_ 4 4; at_ 0 4] |}%float.

(** An open outline whose first point has no x coordinate. *)
Definition outline_from_nan : Path.Path2D :=
  {| Path.points := [at_ nan 0; at_ 1 1];
     Path.arcResolution := 5;
     Path.vertices := [] |}%float.

(** A parsed [data] node of an infinite map that carries both one chunk
    and stray text. *)
Definition chunk0 : val :=
  VObject (<["x" := VString "0"]> (<["y" := VString "16"]>
          (<["width" := VString "16"]> (<["height" := VString "16"]>
          (<["text" := VString "AQAAAAIAAAA="]> ∅))))).

(** What [normalize] pushes for [chunk0]. *)
Definition entry0 : val :=
  VObject (<["x" := VNumber 0%float]> (<["y" := VNumber 16%float]>
          (<["width" := VNumber 16%float]> (<["height" := VNumber 16%float]>
          (<["data" := VUint32Array [1%Z; 2%Z]]> ∅))))).

Definition data_with_both : gmap string val :=
  <["encoding" := VString "base64"]>
    (<["chunks" := VArray [chunk0]]> (<["text" := VString "AQAAAA=="]> ∅)).

End Sample.

(* ================================================================== *)
(** * TMX: what the decoders return, in other words *)
(* ================================================================== *)

Module TMXArrays.
Import JSNumber JS TMX.
Local Open Scope string_scope.

(** The number of commas of a string. *)
Fixpoint count_commas (l : list ascii) : nat :=
  match l with
  | [] => 0
  | c :: l' => (if (nat_of_ascii c =? 44)%nat then 1 else 0) + count_commas l'
  end.

Definition commas (s : string) : nat := count_commas (list_ascii_of_string s).

(** The value of [bytes] character codes from [k] on, the first one the
    least significant. *)
Fixpoint little_endian (dec : list Z) (k bytes : nat) : Z :=
  match bytes with
  | O => 0%Z
  | S bytes' => (charCodeAt dec k + 256 * little_endian dec (S k) bytes')%Z
  end.

End TMXArrays.

(* ================================================================== *)
(** * TMX: from the XML document to the record *)
(* ================================================================== *)

Module TMXParse.

Import JSNumber JS TMX.
Local Open Scope string_scope.

(** ** Documents *)

(** A node of an XML document, by what the code reads of it: an element
    ([nodeType] 1) has a name, attributes (name and value) and child
    nodes; a text node ([nodeType] 3) has a value; of any other node, a
    document or a comment say, the code reads the name and the child
    nodes only. *)
Inductive node : Type :=
| Element (name : string) (attributes : list (string * string)) (childNodes : list node)
| Text (nodeValue : string)
| Other (name : string) (childNodes : list node).

(** [item.nodeName]. *)
Definition nodeName (item : node) : string :=
  match item with
  | Element name _ _ => name
  | Text _ => "#text"
  | Other name _ => name
  end.

(** ** Outcomes *)

(** What a call does: [Some] of a value or of an exception, and [None]
    when it takes the objects out of what [val] describes, by changing a
    prototype or by storing a named property on an array. *)
Definition outcome (A : Type) : Type := option (result A).

Definition and_then {A B : Type} (r : outcome A) (k : A -> outcome B) : outcome B :=
  match r with
  | Some (Ok a) => k a
  | Some (Throw e) => Some (Throw e)
  | None => None
  end.

(** A store under the name [k] goes through the accessor [__proto__] of
    [Object.prototype] instead of making a property. *)
Definition sets_prototype (o : record) (k : string) : bool :=
  String.eqb k "__proto__" && negb (bool_decide (is_Some (o !! k))).

(** [o[k] = v] on a plain object, for a key only known when the code
    runs.  Through the accessor [__proto__] a primitive is dropped and an
    object becomes the prototype. *)
Definition store (o : record) (k : string) (v : val) : outcome record :=
  if sets_prototype o k then
    match v with
    | VUndefined | VBool _ | VNumber _ | VString _ => Some (Ok o)
    | VNull | VArray _ | VObject _ | VUint32Array _ => None
    end
  else Some (Ok (<[k := v]> o)).

(** [v.k] for a truthy [v] and a name [k] that no prototype has: a
    record has the property or not, nothing else has it. *)
Definition property_of (v : val) (k : string) : val :=
  match v with
  | VObject o => get o k
  | _ => VUndefined
  end.

(** [o.k = o.k || []; o.k.push(entry)]. *)
Definition push_onto (o : record) (k : string) (entry : val) : result record :=
  match or_else (get o k) (VArray []) with
  | VArray entries => Ok (<[k := VArray (entries ++ [entry])]> o)
  | _ => Throw TypeError
  end.

(** [s.split(separator)] on a string. *)
Fixpoint split_on (separator : ascii) (l current : list ascii) : list (list ascii) :=
  match l with
  | c :: l' =>
      if Ascii.eqb c separator then rev current :: split_on separator l' []
      else split_on separator l' (c :: current)
  | [] => [rev current]
  end.

Definition split (separator : ascii) (s : string) : list string :=
  map string_of_list_ascii (split_on separator (list_ascii_of_string s) []).

(** ** [parseAttributes] *)

(** [obj[attribute.name] = attribute.value], the value being a string. *)
Definition set_attribute (obj : record) (attribute : string * string) : record :=
  if sets_prototype obj (fst attribute) then obj
  else <[fst attribute := VString (snd attribute)]> obj.

(** [parseAttributes(obj, elt)], from the attributes of [elt]. *)
Definition parseAttributes (obj : record) (attributes : list (string * string)) : record :=
  fold_left set_attribute attributes obj.

Section Parse.

Variables isBoolean isNumeric : string -> bool.
Variable Number_of_string : string -> number.
Variables JSON_parse evaluate : string -> result val.
Variable ToNumber : val -> number.
Variable ToString : val -> string.

(** [setTMXValue(name, type, value)] for a name that need not be a
    string: the default case ends with [name.search(...)], which throws
    on anything else. *)
Definition setTMXValue_of (name type value : val) : result val :=
  match value with
  | VString s =>
      if is_string type "int" || is_string type "float" then
        Ok (VNumber (Number_of_string s))
      else if is_string type "bool" then
        Ok (VBool (String.eqb s "true"))
      else
        let* v := interpret isBoolean isNumeric Number_of_string JSON_parse evaluate s in
        match name with
        | VString name => Ok (normalize_named name v)
        | _ => Throw TypeError
        end
  | _ => Ok value
  end.

(** [o[k] = v] for a key [k] that is a value: a string is the name
    itself and any other primitive is converted to one; the conversion of
    an object, which may run code of the object, is left out. *)
Definition store_at (o : record) (k v : val) : outcome record :=
  match k with
  | VString name => store o name v
  | VArray _ | VObject _ | VUint32Array _ => None
  | _ => store o (ToString k) v
  end.

(** The three assignments of the cases [tile] and [tileset]:

    [if (tile.image) { tile.imagewidth = tile.image.width; tile.imageheight = tile.image.height; tile.image = tile.image.source; }] *)
Definition flatten_image (tile : record) : record :=
  let image := get tile "image" in
  if truthy image then
    <["image" := property_of image "source"]>
      (<["imageheight" := property_of image "height"]>
         (<["imagewidth" := property_of image "width"]> tile))
  else tile.

(** One vector of the cases [polygon] and [polyline]:
    [v = points[i].split(","); {"x": +v[0], "y": +v[1]}]. *)
Definition vector_of (point : string) : val :=
  let v := split "," point in
  VObject (<["x" := VNumber (ToNumber (default VUndefined (VString <$> v !! 0%nat)))]>
          (<["y" := VNumber (ToNumber (default VUndefined (VString <$> v !! 1%nat)))]> ∅)).

(** The body of [normalize(obj, item)] from the record that [parse(item)]
    returned, which every case starts by computing. *)
Definition normalize_parsed (obj : record) (name : string) (parsed : record)
  : outcome record :=
  if String.eqb name "data" then
    Some (normalize_data ToNumber ToString obj parsed)
  else if String.eqb name "chunk" then
    Some (push_onto obj "chunks" (VObject parsed))
  else if String.eqb name "imagelayer" || String.eqb name "layer"
          || String.eqb name "objectgroup" || String.eqb name "group" then
    let layer :=
      <["type" := VString (if String.eqb name "layer" then "tilelayer" else name)]> parsed in
    let layer :=
      if truthy (get layer "image")
      then <["image" := property_of (get layer "image") "source"]> layer
      else layer in
    Some (push_onto obj "layers" (VObject layer))
  else if String.eqb name "animation" then
    Some (Ok (<["animation" := get parsed "frames"]> obj))
  else if String.eqb name "frame" || String.eqb name "object" then
    Some (push_onto obj (name ++ "s") (VObject parsed))
  else if String.eqb name "tile" then
    let tile := flatten_image parsed in
    match or_else (get obj "tiles") (VObject ∅) with
    | VObject tiles =>
        and_then (store_at tiles (get tile "id") (VObject tile))
          (fun tiles => Some (Ok (<["tiles" := VObject tiles]> obj)))
    | VArray _ | VUint32Array _ => None
    | _ => Some (Throw TypeError)
    end
  else if String.eqb name "tileset" then
    Some (push_onto obj "tilesets" (VObject (flatten_image parsed)))
  else if String.eqb name "polygon" || String.eqb name "polyline" then
    match get parsed "points" with
    | VString points => Some (Ok (<[name := VArray (map vector_of (split " " points))]> obj))
    | _ => Some (Throw TypeError)
    end
  else if String.eqb name "properties" then
    Some (Ok (<["properties" := VObject parsed]> obj))
  else if String.eqb name "property" then
    let value :=
      if defined (get parsed "value") then get parsed "value" else get parsed "text" in
    match setTMXValue_of (get parsed "name")
            (or_else (get parsed "type") (VString "string")) value with
    | Ok v => store_at obj (get parsed "name") v
    | Throw e => Some (Throw e)
    end
  else store obj name (VObject parsed).

(** [String.prototype.trim], which [parse] calls on the value of each
    text node. *)
Variable trim : string -> string.

(** The loop of [parse] over the child nodes, with the object and the
    text built so far, and what follows it; [parse] is the function
    itself, for the call in [normalize]. *)
Definition parse_children (parse : node -> outcome record)
  : list node -> record -> string -> outcome record :=
  fix children (nodes : list node) (obj : record) (text : string) : outcome record :=
    match nodes with
    | [] => Some (Ok (if truthy (VString text) then <["text" := VString text]> obj else obj))
    | Element name attributes childNodes as item :: rest =>
        and_then (parse item) (fun parsed =>
        and_then (normalize_parsed obj name parsed) (fun obj =>
        children rest obj text))
    | Text nodeValue :: rest => children rest obj (text ++ trim nodeValue)
    | Other _ _ :: rest => children rest obj text
    end.

(** [parse(xml)]. *)
Fixpoint parse (xml : node) : outcome record :=
  match xml with
  | Element _ attributes childNodes =>
      parse_children parse childNodes (parseAttributes ∅ attributes) ""
  | Text _ => Some (Ok ∅)
  | Other _ childNodes => parse_children parse childNodes ∅ ""
  end.

(** [normalize(obj, item)]. *)
Definition normalize (obj : record) (item : node) : outcome record :=
  and_then (parse item) (normalize_parsed obj (nodeName item)).

(** ** [applyTMXProperties] *)

(** The names that [for (var property in o)] visits on a plain object,
    in the order it visits them. *)
Variable enumerate : record -> list string.

(** The properties that [for ... in] visits, with their values: those
    of a plain object, the elements of an array under their indices, none
    for [null], a number or a boolean.  Strings and typed arrays are left
    out. *)
Definition for_in (properties : val) : option (list (string * val)) :=
  match properties with
  | VObject o => Some (map (fun k => (k, get o k)) (enumerate o))
  | VArray elements => Some (imap (fun i v => (pretty i, v)) elements)
  | VUndefined | VNull | VBool _ | VNumber _ => Some []
  | VString _ | VUint32Array _ => None
  end.

(** [types[property]], for [types] that is not [undefined].  What a
    prototype has under the name is a function or an object, which
    [setTMXValue] takes as it takes [undefined]: it only compares the type
    with three strings.  Strings and arrays, which have properties of
    their own, are left out. *)
Definition type_of (types : val) (property : string) : outcome val :=
  match types with
  | VObject t => Some (Ok (get t property))
  | VNull => Some (Throw TypeError)
  | VUndefined | VBool _ | VNumber _ => Some (Ok VUndefined)
  | VString _ | VArray _ | VUint32Array _ => None
  end.

(** [properties.hasOwnProperty(property)] is [true] for a property the
    loop visits, unless [properties] has a property of this name itself,
    which is then called, and is not a function. *)
Definition hasOwnProperty_fails (properties : val) : bool :=
  match properties with
  | VObject o => bool_decide (is_Some (o !! "hasOwnProperty"))
  | _ => false
  end.

(** One round of the loop, for the property [property] of value [value]. *)
Definition apply_property (properties types : val) (obj : record)
    (property : string) (value : val) : outcome record :=
  if hasOwnProperty_fails properties then Some (Throw TypeError)
  else
    match member value "name", member value "type", member value "value" with
    | Ok own_name, Ok own_type, Ok own_value =>
        let name := if defined own_name then own_name else VString property in
        and_then
          (if defined types then type_of types property
           else Some (Ok (if defined own_type then own_type else VString "string")))
          (fun type =>
        let value := if defined own_value then own_value else value in
        match setTMXValue_of name type value with
        | Ok v => store_at obj name v
        | Throw e => Some (Throw e)
        end)
    | _, _, _ => Some (Throw TypeError)
    end.

Fixpoint apply_properties (properties types : val) (obj : record)
    (entries : list (string * val)) : outcome record :=
  match entries with
  | [] => Some (Ok obj)
  | (property, value) :: rest =>
      and_then (apply_property properties types obj property value)
        (fun obj => apply_properties properties types obj rest)
  end.

(** [applyTMXProperties(obj, data)]. *)
Definition applyTMXProperties (obj : record) (data : val) : outcome record :=
  match member data "properties", member data "propertytypes" with
  | Ok properties, Ok types =>
      if defined properties then
        match for_in properties with
        | Some entries => apply_properties properties types obj entries
        | None => None
        end
      else Some (Ok obj)
  | _, _ => Some (Throw TypeError)
  end.

End Parse.

(** ** Documents and records to state the facts with *)

(** [nodeType === 1]. *)
Definition is_element (item : node) : bool :=
  match item with
  | Element _ _ _ => true
  | _ => false
  end.

(** An element without child elements, or a node that is no element. *)
Definition is_leaf (item : node) : bool :=
  match item with
  | Element _ _ childNodes => forallb (fun child => negb (is_element child)) childNodes
  | _ => true
  end.

(** Every element among [nodes] is named [tag] and has no child element. *)
Definition only_leaves_named (tag : string) (nodes : list node) : bool :=
  forallb (fun item => negb (is_element item) || String.eqb (nodeName item) tag && is_leaf item)
    nodes.

(** [obj] with [text] as its property [text], unless [text] is empty. *)
Definition with_text (obj : record) (text : string) : record :=
  if truthy (VString text) then <["text" := VString text]> obj else obj.

Section Text.

(** [String.prototype.trim]. *)
Variable trim : string -> string.

(** The values of the text nodes among [nodes], each one trimmed, one
    after the other. *)
Fixpoint gathered_text (nodes : list node) : string :=
  match nodes with
  | [] => ""
  | Text nodeValue :: rest => trim nodeValue ++ gathered_text rest
  | _ :: rest => gathered_text rest
  end.

(** The record of an element without child elements: its attributes,
    and the text of its text nodes. *)
Definition leaf_record (item : node) : record :=
  match item with
  | Element _ attributes childNodes =>
      with_text (parseAttributes ∅ attributes) (gathered_text childNodes)
  | _ => ∅
  end.

End Text.

(** [o] once [entries] were pushed onto its array [o.k], which is made
    when [o.k] is not there. *)
Definition pushed_onto (o : record) (k : string) (entries : list val) : record :=
  match entries with
  | [] => o
  | _ =>
      <[k := VArray (match or_else (get o k) (VArray []) with
                     | VArray old => old
                     | _ => []
                     end ++ entries)]> o
  end.


(** An entry of the array [properties] of a JSON map. *)
Definition json_property (name : string) (type value : val) : val :=
  VObject (<["name" := VString name]> (<["type" := type]> (<["value" := value]> ∅))).

(** How often a character occurs in a string. *)
Fixpoint occurrences (c : ascii) (l : list ascii) : nat :=
  match l with
  | [] => 0
  | c' :: l' => (if Ascii.eqb c' c then 1 else 0) + occurrences c l'
  end.

(** A value that is neither [undefined] nor [null] and has no
    properties of the names [name], [type] and [value]: anything but a
    record. *)
Definition is_plain (v : val) : bool :=
  match v with
  | VUndefined | VNull | VObject _ => false
  | _ => true
  end.

End TMXParse.

(* ================================================================== *)
(** * A map to run the model on *)
(* ================================================================== *)

Module SampleMap.

Import JSNumber JS TMX TMXParse.
Local Open Scope string_scope.

(** An order in which to visit the properties of a record: that of the
    finite map. *)
Definition enumerate (o : gmap string val) : list string := (map_to_list o).*1.

(** A chunk of an infinite layer, indented as Tiled writes it. *)
Definition chunk_attributes : list (string * string) :=
  [("x", "0"); ("y", "16"); ("width", "16"); ("height", "16")].

Definition chunk_children : list node :=
  [Text "
   AQAAAAIAAAA=
  "].

Definition chunk : node := Element "chunk" chunk_attributes chunk_children.

(** The record [parse] makes of it. *)
Definition chunk_record : gmap string val :=
  <["text" := VString "AQAAAAIAAAA="]>
    (<["height" := VString "16"]> (<["width" := VString "16"]>
    (<["y" := VString "16"]> (<["x" := VString "0"]> ∅)))).

(** The [data] element of the layer. *)
Definition data_children : list node :=
  [Text "
  "; chunk; Text "
 "].

Definition data : node := Element "data" [("encoding", "base64")] data_children.

(** The custom properties of a map in the older JSON format, and in the
    newer one. *)
Definition custom : gmap string val :=
  <["properties" := VObject (<["speed" := VNumber 3%float]> (<["title" := VString "true"]> ∅))]>
    (<["propertytypes" := VObject (<["speed" := VString "float"]>
                                   (<["title" := VString "string"]> ∅))]> ∅).

Definition custom_entries : list (string * val * val) :=
  [("speed", VString "int", VString "3"); ("tint", VString "color", VString "#80ff0000")].

Definition custom_array : gmap string val :=
  <["properties" :=
      VArray (map (fun entry => json_property (fst (fst entry)) (snd (fst entry)) (snd entry))
                custom_entries)]> ∅.

End SampleMap.

(* ================================================================== *)
(** * Facts about binary64 arithmetic *)
(* ================================================================== *)

Module JSNumberFacts.

Import JSNumber.
Local Open Scope float_scope.

Lemma Prim2SF_zero_of_eqb (r : number) :
  (r =? 0) = true -> exists s, Prim2SF r = S754_zero s.
Proof.
  rewrite FloatAxioms.eqb_spec. change (Prim2SF 0) with (S754_zero false).
  destruct (Prim2SF r) as [s| s | |s m e]; try destruct s; cbn;
    intros H; try discriminate H; eauto.
Qed.

Lemma eqb_zero_of_Prim2SF (r : number) s :
  Prim2SF r = S754_zero s -> (r =? 0) = true.
Proof.
  intros H. rewrite FloatAxioms.eqb_spec, H. destruct s; reflexivity.
Qed.

Lemma is_nan_Prim2SF (a : number) :
  is_nan a = true <-> Prim2SF a = S754_nan.
Proof.
  unfold is_nan. rewrite FloatAxioms.eqb_spec.
  destruct (Prim2SF a) as [s| s | |s m e]; simpl.
  - destruct s; split; discriminate.
  - destruct s; split; discriminate.
  - split; reflexivity.
  - unfold SFeqb, SFcompare.
    rewrite Z.compare_refl, Pos.compare_refl.
    destruct s; simpl; split; discriminate.
Qed.

Lemma is_infinity_Prim2SF (a : number) :
  is_infinity a = true <-> exists s, Prim2SF a = S754_infinity s.
Proof.
  unfold is_infinity. rewrite FloatAxioms.eqb_spec, abs_spec.
  change (Prim2SF infinity) with (S754_infinity false).
  destruct (Prim2SF a) as [s| s | |s m e]; simpl;
    (split; [ intros H; try discriminate; eauto | intros [s' H]; try discriminate; try reflexivity ]).
Qed.

(** A finite number is a zero or [(-1)^s * m * 2^e]. *)
Lemma is_finite_Prim2SF (a : number) :
  is_finite a = true ->
  (exists s, Prim2SF a = S754_zero s) \/ (exists s m e, Prim2SF a = S754_finite s m e).
Proof.
  unfold is_finite. intros H.
  apply negb_true_iff, orb_false_iff in H. destruct H as [Hn Hi].
  destruct (Prim2SF a) as [s| s | |s m e] eqn:E; eauto.
  - assert (is_infinity a = true) by (apply is_infinity_Prim2SF; eauto). congruence.
  - assert (is_nan a = true) by (apply is_nan_Prim2SF; assumption). congruence.
Qed.

(** The product of a zero and a finite number is a zero. *)
Lemma mul_zero_finite (r c : number) :
  (r =? 0) = true -> is_finite c = true -> (r * c =? 0) = true.
Proof.
  intros Hr Hc.
  destruct (Prim2SF_zero_of_eqb r Hr) as [s Hs].
  destruct (is_finite_Prim2SF c Hc) as [[s' Hc'] | (s' & m & e & Hc')].
  - apply (eqb_zero_of_Prim2SF _ (xorb s s')).
    rewrite mul_spec, Hs, Hc'. reflexivity.
  - apply (eqb_zero_of_Prim2SF _ (xorb s s')).
    rewrite mul_spec, Hs, Hc'. reflexivity.
Qed.

(** Adding a zero leaves a number unchanged, up to the sign of zero. *)
Lemma add_zero_same (a z : number) :
  (z =? 0) = true -> same_value_zero (a + z) a = true.
Proof.
  intros Hz. destruct (Prim2SF_zero_of_eqb z Hz) as [s Hs].
  unfold same_value_zero.
  destruct (Prim2SF a) as [sa| sa | |sa m e] eqn:E.
  - assert (H : exists s', Prim2SF (a + z) = S754_zero s').
    { rewrite add_spec, E, Hs. unfold SF64add, SFadd.
      destruct sa, s; eauto. }
    destruct H as [s' H]. rewrite FloatAxioms.eqb_spec, H, E.
    destruct s', sa; reflexivity.
  - assert (H : Prim2SF (a + z) = S754_infinity sa).
    { rewrite add_spec, E, Hs. reflexivity. }
    rewrite FloatAxioms.eqb_spec, H, E. destruct sa; reflexivity.
  - assert (H : Prim2SF (a + z) = S754_nan).
    { rewrite add_spec, E, Hs. reflexivity. }
    assert (Ha : is_nan a = true) by (apply is_nan_Prim2SF; assumption).
    assert (Hb : is_nan (a + z) = true) by (apply is_nan_Prim2SF; assumption).
    rewrite Ha, Hb. apply orb_true_r.
  - assert (H : Prim2SF (a + z) = S754_finite sa m e).
    { rewrite add_spec, E, Hs. reflexivity. }
    rewrite FloatAxioms.eqb_spec, H, E. unfold SFeqb, SFcompare.
    rewrite Z.compare_refl, Pos.compare_refl. destruct sa; reflexivity.
Qed.

(** Whatever the sweep [d] and the resolution [a], a zero radius gives an
    interpolation count [(d * r) / a] that is a zero or [NaN], so that
    [0 < (d * r) / a] is false. *)
Lemma ltb_zero_div_mul_zero (d r a : number) :
  (r =? 0) = true -> (0 <? (d * r) / a) = false.
Proof.
  intros Hr. destruct (Prim2SF_zero_of_eqb r Hr) as [s Hs].
  rewrite FloatAxioms.ltb_spec, div_spec, mul_spec, Hs.
  change (Prim2SF 0) with (S754_zero false).
  destruct (Prim2SF d) as [sd| sd | |sd md ed];
    destruct (Prim2SF a) as [sa| sa | |sa ma ea]; simpl;
    try reflexivity;
    repeat match goal with
           | |- context [xorb ?a ?b] => destruct (xorb a b)
           end; reflexivity.
Qed.

(** The remainder of a [NaN] or of an infinity is [NaN]. *)
Lemma rem_not_finite (a b : number) : is_finite a = false -> rem a b = nan.
Proof.
  unfold is_finite. intros H. apply negb_false_iff, orb_true_iff in H.
  unfold rem. destruct H as [H|H].
  - apply is_nan_Prim2SF in H. rewrite H. reflexivity.
  - apply is_infinity_Prim2SF in H as [s H]. rewrite H.
    destruct (Prim2SF b); reflexivity.
Qed.

Lemma leb_nan_l (a : number) : (nan <=? a) = false.
Proof.
  rewrite FloatAxioms.leb_spec. change (Prim2SF nan) with S754_nan. reflexivity.
Qed.

End JSNumberFacts.

(* ================================================================== *)
(** * Facts about the pool *)
(* ================================================================== *)

Module PoolFacts.

Import JSNumber Geometry Pool.
Local Open Scope float_scope.

Lemma pull_point pl x0 y0 : fst (pull pl x0 y0) = {| x := x0; y := y0 |}.
Proof. unfold pull. destruct (available pl); reflexivity. Qed.

Lemma pull_pulls pl x0 y0 : pulls (snd (pull pl x0 y0)) = S (pulls pl).
Proof. unfold pull. destruct (available pl); reflexivity. Qed.

Lemma pull_pushes pl x0 y0 : pushes (snd (pull pl x0 y0)) = pushes pl.
Proof. unfold pull. destruct (available pl); reflexivity. Qed.

Lemma pull_available pl x0 y0 : available (snd (pull pl x0 y0)) = drop 1 (available pl).
Proof. unfold pull. destruct (available pl); reflexivity. Qed.

Lemma pulled_0 pl : pulled 0 pl = pl.
Proof. destruct pl; reflexivity. Qed.

Lemma pulled_S k pl x0 y0 : pulled k (snd (pull pl x0 y0)) = pulled (S k) pl.
Proof.
  unfold pulled. rewrite pull_available, pull_pulls, pull_pushes, drop_drop.
  f_equal; try lia.
Qed.

Lemma pushed_nil pl : pushed [] pl = pl.
Proof. destruct pl; reflexivity. Qed.

End PoolFacts.

(* ================================================================== *)
(** * Path2D: closePath, arc and triangulatePath *)
(* ================================================================== *)

Module PathFacts.

Import JSNumber Geometry Pool JS Path JSNumberFacts PoolFacts.
Local Open Scope float_scope.

Lemma push_pulled_eq pts pl x0 y0 :
  push_pulled pts pl x0 y0 = (pts ++ [ {| x := x0; y := y0 |} ], snd (pull pl x0 y0)).
Proof.
  unfold push_pulled. pose proof (pull_point pl x0 y0) as H.
  destruct (pull pl x0 y0) as [q pl']. simpl in *. subst q. reflexivity.
Qed.

(** ** [closePath] *)

(** What one call does: nothing, or append a copy of the first point. *)
Lemma closePath_cases (p : Path2D) (pl : pool) :
  closePath p pl = (p, pl)
  \/ exists first,
      points p !! 0%nat = Some first
      /\ closePath p pl =
           (with_points p (points p ++ [ {| x := x first; y := y first |} ]),
            snd (pull pl (x first) (y first))).
Proof.
  unfold closePath.
  destruct (points p !! 0%nat) as [first|] eqn:Hfirst; [|now left].
  destruct (points p !! (length (points p) - 1)%nat) as [final|]; [|now left].
  destruct ((1 <? length (points p))%nat && negb (equals final first)); [|now left].
  right. exists first. rewrite push_pulled_eq. split; reflexivity.
Qed.

(** A sequence that ends with a point coordinate-equal to its first one
    is left alone. *)
Lemma closePath_closed (p : Path2D) (pl : pool) pts first final :
  points p = pts ++ [final] -> pts !! 0%nat = Some first ->
  equals final first = true -> closePath p pl = (p, pl).
Proof.
  intros Hp Hfirst Heq. unfold closePath. rewrite Hp.
  rewrite (lookup_app_l_Some _ _ _ _ Hfirst).
  rewrite length_app. simpl.
  replace (length pts + 1 - 1)%nat with (length pts) by lia.
  rewrite lookup_app_r by lia. rewrite Nat.sub_diag. simpl.
  rewrite Heq, andb_false_r. reflexivity.
Qed.

(** What one call does, in terms of the first and the last point. *)
Lemma closePath_spec (p : Path2D) (pl : pool) first final :
  points p !! 0%nat = Some first -> last (points p) = Some final ->
  closePath p pl =
    if (1 <? length (points p))%nat && negb (equals final first)
    then (with_points p (points p ++ [ {| x := x first; y := y first |} ]),
          snd (pull pl (x first) (y first)))
    else (p, pl).
Proof.
  intros Hfirst Hlast. unfold closePath.
  rewrite last_lookup in Hlast.
  replace (length (points p) - 1)%nat with (Nat.pred (length (points p))) by lia.
  rewrite Hfirst, Hlast.
  destruct ((1 <? length (points p))%nat && negb (equals final first)); [|reflexivity].
  rewrite push_pulled_eq. reflexivity.
Qed.

Lemma closePath_empty (p : Path2D) (pl : pool) :
  points p = [] -> closePath p pl = (p, pl).
Proof. intros H. unfold closePath. rewrite H. reflexivity. Qed.

(** C4, as amended.  [closePath()] is idempotent on every point sequence
    whose first point is coordinate-equal to itself, that is whose first
    point has no [NaN] coordinate: a second call in succession changes
    neither the path nor the pool, so that two calls append at most one
    closing point.  One call appends a copy of the first point exactly
    when the sequence has more than one point and the last point is not
    coordinate-equal to the first, and does nothing otherwise. *)
Theorem closePath_idempotent (p : Path2D) (pl : pool) :
  (forall first, points p !! 0%nat = Some first -> equals first first = true) ->
  closePath (fst (closePath p pl)) (snd (closePath p pl)) = closePath p pl
  /\ (length (points (fst (closePath p pl))) <= length (points p) + 1)%nat
  /\ (forall first final,
        points p !! 0%nat = Some first -> last (points p) = Some final ->
        closePath p pl =
          if (1 <? length (points p))%nat && negb (equals final first)
          then (with_points p (points p ++ [ {| x := x first; y := y first |} ]),
                snd (pull pl (x first) (y first)))
          else (p, pl))
  /\ (points p = [] -> closePath p pl = (p, pl)).
Proof.
  intros Hrefl. split; [|split; [|split; [apply closePath_spec | apply closePath_empty]]].
  - destruct (closePath_cases p pl) as [Hnop | (first & Hfirst & Happ)].
    + rewrite Hnop. simpl. exact Hnop.
    + rewrite Happ. simpl.
      eapply closePath_closed; [reflexivity | exact Hfirst |].
      exact (Hrefl first Hfirst).
  - destruct (closePath_cases p pl) as [Hnop | (first & Hfirst & Happ)].
    + rewrite Hnop. simpl. lia.
    + rewrite Happ. simpl. rewrite length_app. simpl. lia.
Qed.

(** The open triangle (0,0), (10,0), (10,10): the first call appends
    (0,0), the second one nothing. *)
Lemma closePath_idempotent_witness :
  closePath (fst (closePath Sample.triangle Pool.empty))
            (snd (closePath Sample.triangle Pool.empty))
    = closePath Sample.triangle Pool.empty
  /\ length (points (fst (closePath Sample.triangle Pool.empty))) = 4%nat.
Proof.
  split; [|reflexivity].
  apply (closePath_idempotent Sample.triangle Pool.empty).
  intros first [= <-]. reflexivity.
Defined.

(** C4 as stated fails when the first point has a [NaN] coordinate: the
    copy appended by the first call is not coordinate-equal to the first
    point, and the second call appends another one. *)
Lemma closePath_twice_from_nan :
  points (fst (closePath (fst (closePath Sample.outline_from_nan Pool.empty))
                         (snd (closePath Sample.outline_from_nan Pool.empty))))
    = [Sample.at_ nan 0; Sample.at_ 1 1; Sample.at_ nan 0; Sample.at_ nan 0]
  /\ length (points Sample.outline_from_nan) = 2%nat.
Proof. split; reflexivity. Qed.

(** ** [arc] *)

(** An end angle that is [NaN] or infinite is normalised to [NaN]. *)
Lemma normalized_end_not_finite startAngle endAngle :
  is_finite endAngle = false -> normalized_end startAngle endAngle = nan.
Proof.
  intros H. unfold normalized_end. rewrite (rem_not_finite _ _ H). cbv zeta.
  change (nan <? 0) with false. cbv iota. unfold ge. rewrite leb_nan_l. reflexivity.
Qed.

Section ArcFacts.

Variables cos sin : number -> number.

(** [arc] in terms of the named intermediate values. *)
Lemma arc_unfold fuel p pl x0 y0 radius startAngle endAngle anticlockwise :
  strict_eq startAngle endAngle = false ->
  arc cos sin fuel p pl x0 y0 radius startAngle endAngle anticlockwise =
    let e := normalized_end startAngle endAngle in
    let nr := interpolation_points p radius startAngle endAngle anticlockwise in
    let diff := sweep startAngle endAngle anticlockwise in
    match arc_loop cos sin fuel x0 y0 radius nr (diff / nr)
            (if anticlockwise then -1 else 1) 0 (normalized_start startAngle)
            (points p) pl with
    | None => None
    | Some (pts, pl') =>
        Some (with_points p (pts ++ [ {| x := x0 + radius * cos e; y := y0 + radius * sin e |} ]),
              snd (pull pl' (x0 + radius * cos e) (y0 + radius * sin e)))
    end.
Proof.
  intros Hne. unfold arc. rewrite Hne. cbv zeta.
  unfold interpolation_points, sweep, normalized_end, normalized_start.
  destruct (arc_loop _ _ _ _ _ _ _ _ _ _ _ _ _) as [[pts pl']|]; [|reflexivity].
  rewrite push_pulled_eq. reflexivity.
Qed.

(** The loop stops as soon as the counter is not below the bound. *)
Lemma arc_loop_exit fuel x0 y0 radius nr dangle direction j angle pts pl :
  (j <? nr) = false ->
  arc_loop cos sin fuel x0 y0 radius nr dangle direction j angle pts pl = Some (pts, pl).
Proof. intros H. destruct fuel; simpl; rewrite H; reflexivity. Qed.

(** If the counter leaves the range after [n] increments, [n] units of
    fuel are enough. *)
Lemma arc_loop_terminates n : forall x0 y0 radius nr dangle direction j angle pts pl,
  (count_from j n <? nr) = false ->
  exists r, arc_loop cos sin n x0 y0 radius nr dangle direction j angle pts pl = Some r.
Proof.
  induction n as [|n IH]; intros x0 y0 radius nr dangle direction j angle pts pl Hexit.
  - simpl in Hexit. rewrite arc_loop_exit by assumption. eauto.
  - simpl. destruct (j <? nr) eqn:Hj; [|eauto].
    rewrite push_pulled_eq. apply IH. exact Hexit.
Qed.

(** C8.  When [startAngle === endAngle], [arc] returns at once: the point
    sequence, the rest of the path and the pool are exactly as before, so
    nothing was pulled from the pool. *)
Theorem arc_zero_length_noop fuel p pl x0 y0 radius startAngle endAngle anticlockwise :
  strict_eq startAngle endAngle = true ->
  arc cos sin fuel p pl x0 y0 radius startAngle endAngle anticlockwise = Some (p, pl).
Proof. intros H. unfold arc. rewrite H. reflexivity. Qed.

(** C3, as amended.  For [startAngle !== endAngle], whenever the call
    returns, the last point of the path is exactly
    [(x + radius * cos e, y + radius * sin e)] where [e] is the value of
    [endAngle] after the normalisation [arc] applies to it; the call
    returns as soon as the loop counter leaves the range of the
    interpolation count; and [e] is [endAngle] itself when [endAngle] is
    its own remainder modulo [TAU], is not negative and lies above the
    normalised start. *)
Theorem arc_terminal_point p pl x0 y0 radius startAngle endAngle anticlockwise :
  strict_eq startAngle endAngle = false ->
  let e := normalized_end startAngle endAngle in
  (forall fuel p' pl',
      arc cos sin fuel p pl x0 y0 radius startAngle endAngle anticlockwise = Some (p', pl') ->
      last (points p') = Some {| x := x0 + radius * cos e; y := y0 + radius * sin e |})
  /\ (forall n,
      (count_from 0 n <? interpolation_points p radius startAngle endAngle anticlockwise) = false ->
      exists r, arc cos sin n p pl x0 y0 radius startAngle endAngle anticlockwise = Some r)
  /\ (rem endAngle TAU = endAngle -> (endAngle <? 0) = false ->
      ge (normalized_start startAngle) endAngle = false -> e = endAngle).
Proof.
  intros Hne e. split; [|split].
  - intros fuel p' pl' H. rewrite arc_unfold in H by assumption. cbv zeta in H.
    destruct (arc_loop _ _ _ _ _ _ _ _ _ _ _ _ _) as [[pts pl1]|]; [|discriminate].
    injection H as <- _. simpl. apply last_snoc.
  - intros n Hexit. rewrite arc_unfold by assumption. cbv zeta.
    edestruct (arc_loop_terminates n) as [[pts pl1] Hr]; [exact Hexit|].
    rewrite Hr. eauto.
  - intros Hrem Hpos Hlt. subst e. unfold normalized_end.
    rewrite Hrem. cbv zeta. rewrite Hpos, Hlt. reflexivity.
Qed.

(** C10, as amended.  With a zero radius and [startAngle !== endAngle] the
    interpolation loop runs zero times and exactly one point is appended,
    [(x + radius * cos e, y + radius * sin e)] for the normalised end
    angle [e]; its coordinates are those of [(x, y)] (up to the sign of a
    zero) whenever [cos e] and [sin e] are finite; and [e] is [NaN] when
    [endAngle] is [NaN] or infinite. *)
Theorem arc_zero_radius fuel p pl x0 y0 radius startAngle endAngle anticlockwise :
  strict_eq radius 0 = true ->
  strict_eq startAngle endAngle = false ->
  let e := normalized_end startAngle endAngle in
  let q := {| x := x0 + radius * cos e; y := y0 + radius * sin e |} in
  arc cos sin fuel p pl x0 y0 radius startAngle endAngle anticlockwise
    = Some (with_points p (points p ++ [q]), snd (pull pl (x q) (y q)))
  /\ (is_finite (cos e) = true -> is_finite (sin e) = true ->
      same_value_zero (x q) x0 = true /\ same_value_zero (y q) y0 = true)
  /\ (is_finite endAngle = false -> e = nan).
Proof.
  intros Hr Hne e q. split; [|split].
  - rewrite arc_unfold by assumption. cbv zeta.
    rewrite arc_loop_exit; [reflexivity|].
    unfold interpolation_points. apply ltb_zero_div_mul_zero. exact Hr.
  - intros Hc Hs. simpl. split; apply add_zero_same, mul_zero_finite; assumption.
  - apply normalized_end_not_finite.
Qed.

End ArcFacts.

(** [arc(0, 0, 10, 1, 1)] leaves a fresh path and the pool untouched. *)
Lemma arc_zero_length_noop_witness :
  strict_eq 1 1 = true
  /\ arc JSMath.cos JSMath.sin 0 Path.create Pool.empty 0 0 10 1 1 false
     = Some (Path.create, Pool.empty).
Proof.
  split; [reflexivity|].
  apply (arc_zero_length_noop JSMath.cos JSMath.sin 0 Path.create Pool.empty 0 0 10 1 1 false).
  reflexivity.
Defined.

(** [arc(0, 0, 10, 0, Math.PI / 2)] returns after four interpolated
    points and ends at the requested angle, which needs no normalisation. *)
Lemma arc_terminal_point_witness :
  strict_eq 0 (PI / 2) = false
  /\ exists p' pl',
      arc JSMath.cos JSMath.sin 4 Path.create Pool.empty 0 0 10 0 (PI / 2) false
        = Some (p', pl')
      /\ last (points p')
         = Some {| x := 0 + 10 * JSMath.cos (PI / 2); y := 0 + 10 * JSMath.sin (PI / 2) |}.
Proof.
  split; [reflexivity|].
  destruct (arc_terminal_point JSMath.cos JSMath.sin Path.create Pool.empty
              0 0 10 0 (PI / 2) false eq_refl) as (Hlast & Hreturns & Hsame).
  destruct (Hreturns 4%nat) as [[p' pl'] Hrun]; [vm_compute; reflexivity|].
  exists p', pl'. split; [exact Hrun|].
  rewrite (Hlast _ _ _ Hrun), Hsame; [reflexivity | | |]; vm_compute; reflexivity.
Defined.

(** C3 as stated fails for [arc(0, 0, 1, 1, 0)]: the end angle 0 is
    normalised to [TAU], the last point is
    [(cos TAU, sin TAU) = (1, -2.4492935982947064e-16)], and its second
    coordinate differs from [0 + 1 * sin 0 = 0]. *)
Lemma arc_terminal_point_not_at_endAngle :
  arc JSMath.cos JSMath.sin 2 Path.create Pool.empty 0 0 1 1 0 false
    = Some (with_points Path.create
              [ {| x := 0 + 1 * JSMath.cos 1; y := 0 + 1 * JSMath.sin 1 |};
                {| x := 0 + 1 * JSMath.cos 6; y := 0 + 1 * JSMath.sin 6 |};
                {| x := 1; y := -0x1.1a62633145c07p-52 |} ],
            {| available := []; pulls := 3; pushes := 0 |})
  /\ strict_eq (-0x1.1a62633145c07p-52) (0 + 1 * JSMath.sin 0) = false.
Proof. split; vm_compute; reflexivity. Qed.

(** [arc(1, 2, 0, 0, 1)] appends the single point (1, 2), with no fuel. *)
Lemma arc_zero_radius_witness :
  strict_eq 0 0 = true /\ strict_eq 0 1 = false
  /\ arc JSMath.cos JSMath.sin 0 Path.create Pool.empty 1 2 0 0 1 false
     = Some (with_points Path.create [ {| x := 1; y := 2 |} ],
             {| available := []; pulls := 1; pushes := 0 |}).
Proof.
  split; [reflexivity|]. split; [reflexivity|].
  rewrite (proj1 (arc_zero_radius JSMath.cos JSMath.sin 0 Path.create Pool.empty
                    1 2 0 0 1 false eq_refl eq_refl)).
  vm_compute. reflexivity.
Defined.

(** C10 as stated fails for [arc(1, 2, 0, 0, Infinity)]: the normalised
    end angle is [NaN], and the one point appended is [(NaN, NaN)], not
    [(1, 2)]. *)
Lemma arc_zero_radius_infinite_endAngle :
  arc JSMath.cos JSMath.sin 0 Path.create Pool.empty 1 2 0 0 infinity false
    = Some (with_points Path.create [ {| x := nan; y := nan |} ],
            {| available := []; pulls := 1; pushes := 0 |})
  /\ same_value_zero nan 1 = false /\ same_value_zero nan 2 = false.
Proof. repeat split; vm_compute; reflexivity. Qed.

(** ** [triangulatePath] *)

Lemma grow_spec vs pl n :
  grow vs pl n =
    (vs ++ replicate (n - length vs) {| x := 0; y := 0 |}, pulled (n - length vs) pl).
Proof.
  funelim (grow vs pl n).
  - rewrite H. rewrite length_app. simpl.
    rewrite pulled_S, pull_point.
    replace (n - length vs)%nat with (S (n - (length vs + 1))) by lia.
    simpl. rewrite <- app_assoc. reflexivity.
  - replace (n - length vs)%nat with 0%nat by lia.
    simpl. rewrite app_nil_r, pulled_0. reflexivity.
Qed.

Lemma split_last (vs : list Point) v :
  vs !! (length vs - 1)%nat = Some v -> vs = take (length vs - 1) vs ++ [v].
Proof.
  intros H. rewrite <- (take_S_r _ _ _ H).
  assert (length vs - 1 < length vs)%nat by (eapply lookup_lt_Some; eauto).
  rewrite take_ge by lia. reflexivity.
Qed.

Lemma shrink_spec vs pl n :
  shrink vs pl n = (take n vs, pushed (drop n vs) pl).
Proof.
  funelim (shrink vs pl n).
  - rewrite take_ge, drop_ge by lia. rewrite pushed_nil. reflexivity.
  - rewrite H. rewrite take_take.
    replace (n `min` (length vs - 1))%nat with n by lia.
    f_equal. unfold pushed, push. simpl.
    assert (Hd : drop n vs = drop n (take (length vs - 1) vs) ++ [v]).
    { rewrite (split_last vs v Heq) at 1.
      rewrite drop_app_le by (rewrite length_take; lia). reflexivity. }
    rewrite Hd, length_app, <- app_assoc. simpl. f_equal. lia.
  - apply lookup_ge_None in Heq. lia.
Qed.

(** With indices in range the copy loop succeeds: it writes the
    coordinates of [points[indices[k]]] at [i + k] and nothing else. *)
Lemma set_vertices_spec pts indices : forall i vs,
  Forall (fun index => index < length pts)%nat indices ->
  (i + length indices <= length vs)%nat ->
  exists vs', set_vertices pts indices i vs = Ok vs' /\ length vs' = length vs
    /\ (forall k index, indices !! k = Some index ->
          exists point, pts !! index = Some point
            /\ vs' !! (i + k)%nat = Some {| x := x point; y := y point |})
    /\ (forall k, (k < i \/ i + length indices <= k)%nat -> vs' !! k = vs !! k).
Proof.
  induction indices as [|index rest IH]; intros i vs Hin Hlen; simpl in *.
  - exists vs. repeat split; auto. intros k index Hk. discriminate.
  - inversion Hin as [|? ? Hidx Hrest]; subst.
    destruct (lookup_lt_is_Some_2 pts index Hidx) as [point Hpoint].
    destruct (lookup_lt_is_Some_2 vs i ltac:(lia)) as [v Hv].
    rewrite Hpoint, Hv.
    destruct (IH (S i) (<[i := set v (x point) (y point)]> vs) Hrest)
      as (vs' & Hrun & Hl & Hset & Hframe).
    { rewrite length_insert. lia. }
    exists vs'. split; [exact Hrun|]. rewrite length_insert in Hl. split; [exact Hl|]. split.
    + intros [|k] idx Hk; simpl in Hk.
      * injection Hk as <-. exists point. split; [exact Hpoint|].
        rewrite Nat.add_0_r, Hframe by lia.
        rewrite list_lookup_insert_eq by lia. reflexivity.
      * destruct (Hset k idx Hk) as (pt & Hpt & Hvs). exists pt. split; [exact Hpt|].
        rewrite <- Hvs. f_equal. lia.
    + intros k Hk. rewrite Hframe by lia. apply list_lookup_insert_ne. lia.
Qed.

Section TriangulateFacts.

Variable earcut : list number -> list nat.

(** C1.  When the indices [earcut] returns are indices of [points], as
    those of the package are, [triangulatePath()] returns and leaves a
    vertex buffer whose length is the length of the index list (three
    per triangle): vertex [k] holds the coordinates of point
    [indices[k]]; the buffer was grown by as many pulls as it was short
    of, and every entry beyond the index count was pushed back to the
    pool, which now holds them on top of what it had. *)
Theorem triangulatePath_buffer_length (p : Path2D) (pl : pool) :
  let indices := earcut (flat_map (fun q => [x q; y q]) (points p)) in
  Forall (fun index => index < length (points p))%nat indices ->
  exists p' pl',
    triangulatePath earcut p pl = Ok (p', pl')
    /\ length (vertices p') = length indices
    /\ points p' = points p
    /\ (forall k index, indices !! k = Some index ->
          exists point, points p !! index = Some point
            /\ vertices p' !! k = Some {| x := x point; y := y point |})
    /\ pulls pl' = (pulls pl + (length indices - length (vertices p)))%nat
    /\ pushes pl' = (pushes pl + (length (vertices p) - length indices))%nat
    /\ available pl' =
         drop (length indices) (vertices p)
           ++ drop (length indices - length (vertices p)) (available pl).
Proof.
  intros indices Hin. unfold triangulatePath. fold indices.
  rewrite grow_spec.
  set (n := length indices).
  set (vs1 := vertices p ++ replicate (n - length (vertices p)) {| x := 0; y := 0 |}).
  assert (Hlen1 : (n <= length vs1)%nat).
  { unfold vs1. rewrite length_app, length_replicate. lia. }
  destruct (set_vertices_spec (points p) indices 0 vs1 Hin)
    as (vs2 & Hrun & Hlen2 & Hset & Hframe); [simpl; exact Hlen1|].
  rewrite Hrun. simpl. rewrite shrink_spec.
  eexists _, _. split; [reflexivity|]. simpl.
  assert (Hdrop : drop n vs2 = drop n (vertices p)).
  { apply list_eq. intros k. rewrite !lookup_drop.
    rewrite Hframe by (simpl; fold n; lia).
    unfold vs1. destruct (le_lt_dec n (length (vertices p))) as [Hle|Hlt].
    - replace (n - length (vertices p))%nat with 0%nat by lia.
      simpl. rewrite app_nil_r. reflexivity.
    - rewrite !lookup_ge_None_2; [reflexivity | lia |].
      rewrite length_app, length_replicate. lia. }
  repeat split.
  - rewrite length_take. lia.
  - intros k index Hk. destruct (Hset k index Hk) as (point & Hpoint & Hv).
    exists point. split; [exact Hpoint|].
    assert (k < n)%nat by (eapply lookup_lt_Some; eauto).
    rewrite lookup_take_lt by assumption. exact Hv.
  - lia.
  - rewrite Hdrop, length_drop. lia.
  - rewrite Hdrop. reflexivity.
Qed.

End TriangulateFacts.

(** A triangle triangulated over a buffer of six vertices: the buffer
    shrinks to three and the three surplus vertices go to the pool. *)
Lemma triangulatePath_buffer_length_witness :
  Forall (fun index => index < length (points Sample.triangle))%nat
    (Sample.fan (flat_map (fun q => [x q; y q]) (points Sample.triangle)))
  /\ exists p' pl',
      triangulatePath Sample.fan Sample.triangle Pool.empty = Ok (p', pl')
      /\ length (vertices p') = 3%nat
      /\ pushes pl' = 3%nat
      /\ length (available pl') = 3%nat.
Proof.
  split; [vm_compute; repeat constructor|].
  destruct (triangulatePath_buffer_length Sample.fan Sample.triangle Pool.empty)
    as (p' & pl' & Hrun & Hlen & _ & _ & _ & Hpushes & Havailable).
  - vm_compute. repeat constructor.
  - exists p', pl'. split; [exact Hrun|]. split; [exact Hlen|]. split; [exact Hpushes|].
    rewrite Havailable. reflexivity.
Defined.

End PathFacts.

(* ================================================================== *)
(** * TMX: property values, decoding, the "data" node *)
(* ================================================================== *)

Module TMXFacts.

Import JSNumber JS TMX.
Local Open Scope string_scope.

(** ** [setTMXValue] *)

Section PropertiesFacts.

Variables isBoolean isNumeric : string -> bool.
Variable Number_of_string : string -> number.
Variables JSON_parse evaluate : string -> result val.

(** Outside the types [int], [float] and [bool] a string goes through the
    default case. *)
Lemma setTMXValue_default name type s :
  is_string type "int" = false -> is_string type "float" = false ->
  is_string type "bool" = false ->
  setTMXValue isBoolean isNumeric Number_of_string JSON_parse evaluate name type (VString s) =
    match interpret isBoolean isNumeric Number_of_string JSON_parse evaluate s with
    | Ok v => Ok (normalize_named name v)
    | Throw e => Throw e
    end.
Proof.
  intros Hi Hf Hb. unfold setTMXValue. rewrite Hi, Hf, Hb. simpl.
  destruct (interpret _ _ _ _ _ s); reflexivity.
Qed.

(** C9.  For every property name and every type other than ["int"],
    ["float"] and ["bool"], [setTMXValue] maps the empty string to the
    boolean [true]. *)
Theorem setTMXValue_empty_string name type :
  is_string type "int" = false -> is_string type "float" = false ->
  is_string type "bool" = false ->
  setTMXValue isBoolean isNumeric Number_of_string JSON_parse evaluate name type (VString "")
    = Ok (VBool true).
Proof.
  intros Hi Hf Hb. rewrite setTMXValue_default by assumption.
  unfold interpret. simpl. unfold normalize_named.
  destruct (is_ratio_or_anchorPoint name); reflexivity.
Qed.

(** A string that starts with a non-empty prefix is not empty. *)
Lemma starts_with_ci_truthy prefix s :
  prefix <> "" -> starts_with_ci prefix s = true -> truthy (VString s) = true.
Proof.
  intros Hp H. destruct s as [|c s]; [|reflexivity].
  unfold starts_with_ci in H.
  destruct prefix; [congruence | discriminate H].
Qed.


End PropertiesFacts.

(** An empty [string] property named [tag]. *)
Lemma setTMXValue_empty_string_witness :
  is_string (VString "string") "int" = false
  /\ setTMXValue Sample.isBoolean Sample.isNumeric Sample.Number_of_string
       Sample.JSON_parse Sample.evaluate "tag" (VString "string") (VString "")
     = Ok (VBool true).
Proof.
  split; [reflexivity|].
  apply (setTMXValue_empty_string Sample.isBoolean Sample.isNumeric Sample.Number_of_string
           Sample.JSON_parse Sample.evaluate "tag" (VString "string")); reflexivity.
Defined.



(** ** [decodeBase64AsArray] and [decode] *)

Lemma sextet_range c z : sextet c = Some z -> (0 <= z < 64)%Z.
Proof.
  unfold sextet.
  repeat match goal with
         | |- context [if ?b then _ else _] => destruct b eqn:?
         end; intros [= <-]; lia.
Qed.

Lemma bytes_of_sextets_range n : forall l,
  (length l <= n)%nat -> Forall (fun a => 0 <= a < 64)%Z l ->
  Forall is_byte (bytes_of_sextets l).
Proof.
  unfold is_byte.
  induction n as [|n IH]; intros l Hlen Hl.
  - destruct l; [constructor | simpl in Hlen; lia].
  - destruct l as [|a [|b [|c [|d rest]]]]; simpl;
      repeat match goal with
             | H : Forall _ (_ :: _) |- _ => inversion H; subst; clear H
             end;
      repeat first
        [ apply Forall_nil_2
        | apply Forall_cons_2;
          [ first [ apply Z.mod_pos_bound; lia
                  | split; [apply Z.div_pos; lia | apply Z.div_lt_upper_bound; lia] ] | ] ].
    apply IH; [simpl in Hlen; lia | assumption].
Qed.

(** [atob] returns character codes below 256. *)
Lemma atob_range s dec : atob s = Ok dec -> Forall is_byte dec.
Proof.
  unfold atob.
  destruct (_ =? 1)%nat; [discriminate|].
  destruct (mapM sextet _) as [sextets|] eqn:Hm; [|discriminate].
  intros [= <-]. apply (bytes_of_sextets_range (length sextets)); [lia|].
  apply mapM_Some in Hm.
  induction Hm as [|c z l k Hc _ IH]; constructor; [|exact IH].
  eapply sextet_range; eauto.
Qed.

Lemma charCodeAt_range dec k : Forall is_byte dec -> is_byte (charCodeAt dec k).
Proof.
  intros H. unfold charCodeAt. destruct (dec !! k) as [b|] eqn:E; simpl.
  - eapply Forall_lookup_1; eauto.
  - unfold is_byte. lia.
Qed.

(** The four wrapping additions of the inner loop add up to the
    little-endian word. *)
Lemma add_bytes_word dec i :
  Forall is_byte dec ->
  add_bytes dec 4 i (rev (seq 0 4)) 0%Z = word_at dec i.
Proof.
  intros H. unfold word_at. simpl. rewrite Nat.add_0_r.
  pose proof (charCodeAt_range dec (i * 4) H) as H0.
  pose proof (charCodeAt_range dec (i * 4 + 1) H) as H1.
  pose proof (charCodeAt_range dec (i * 4 + 2) H) as H2.
  pose proof (charCodeAt_range dec (i * 4 + 3) H) as H3.
  unfold is_byte in *.
  set (b0 := charCodeAt dec (i * 4)) in *.
  set (b1 := charCodeAt dec (i * 4 + 1)) in *.
  set (b2 := charCodeAt dec (i * 4 + 2)) in *.
  set (b3 := charCodeAt dec (i * 4 + 3)) in *.
  clearbody b0 b1 b2 b3.
  change (shl (Z.of_nat 3) 3) with 24%Z.
  change (shl (Z.of_nat 2) 3) with 16%Z.
  change (shl (Z.of_nat 1) 3) with 8%Z.
  change (shl (Z.of_nat 0) 3) with 0%Z.
  unfold shl, to_int32, to_uint32.
  change (24 mod 32)%Z with 24%Z. change (16 mod 32)%Z with 16%Z.
  change (8 mod 32)%Z with 8%Z. change (0 mod 32)%Z with 0%Z.
  rewrite !Z.shiftl_mul_pow2 by lia.
  change (2 ^ 24)%Z with 16777216%Z. change (2 ^ 16)%Z with 65536%Z.
  change (2 ^ 8)%Z with 256%Z. change (2 ^ 0)%Z with 1%Z.
  change (2 ^ 31)%Z with 2147483648%Z. change (2 ^ 32)%Z with 4294967296%Z.
  Z.div_mod_to_equations. lia.
Qed.

Lemma word_at_range dec i : Forall is_byte dec -> (0 <= word_at dec i < 2 ^ 32)%Z.
Proof.
  intros H. unfold word_at.
  pose proof (charCodeAt_range dec (i * 4) H) as H0.
  pose proof (charCodeAt_range dec (i * 4 + 1) H) as H1.
  pose proof (charCodeAt_range dec (i * 4 + 2) H) as H2.
  pose proof (charCodeAt_range dec (i * 4 + 3) H) as H3.
  unfold is_byte in *. change (2 ^ 32)%Z with 4294967296%Z. lia.
Qed.

(** The outer loop writes the assembled word at every index it visits
    that is inside the array and leaves the rest alone. *)
Lemma fill_words_lookup dec bytes k : forall a ar i,
  fill_words dec bytes (seq a k) ar !! i =
    if decide (a <= i < a + k /\ i < length ar)%nat
    then Some (add_bytes dec bytes i (rev (seq 0 bytes)) 0%Z)
    else ar !! i.
Proof.
  induction k as [|k IH]; intros a ar i; simpl.
  - destruct (decide _) as [H|H]; [lia | reflexivity].
  - rewrite IH, length_insert.
    destruct (decide (S a <= i < S a + k /\ i < length ar)%nat) as [H|H].
    + rewrite decide_True by lia. reflexivity.
    + destruct (decide (a = i)) as [->|Hne].
      * destruct (decide (i < length ar)%nat) as [Hi|Hi].
        -- rewrite decide_True by lia. apply list_lookup_insert_eq. exact Hi.
        -- rewrite decide_False by lia. rewrite list_insert_ge by lia. reflexivity.
      * rewrite decide_False by lia. apply list_lookup_insert_ne. exact Hne.
Qed.

(** With four bytes per entry the array is the list of little-endian
    words of the decoded string, a trailing partial word being dropped. *)
Lemma decodeBase64AsArray_words s dec :
  atob (string_of_list_ascii (filter is_base64_char (list_ascii_of_string s))) = Ok dec ->
  decodeBase64AsArray (VString s) 4 = Ok (map (word_at dec) (seq 0 (length dec / 4))).
Proof.
  intros Hdec. unfold decodeBase64AsArray.
  change (4 =? 0)%nat with false. cbv iota.
  rewrite Hdec. unfold bind. f_equal.
  pose proof (atob_range _ _ Hdec) as Hb.
  apply list_eq. intros i. rewrite fill_words_lookup, length_replicate.
  destruct (decide _) as [[H1 H2]|H].
  - rewrite add_bytes_word by assumption.
    rewrite list_lookup_fmap, lookup_seq_lt by lia. reflexivity.
  - assert (Hi : (length dec / 4 <= i)%nat).
    { destruct (le_lt_dec (length dec / 4) i) as [Hi|Hi]; [exact Hi|].
      exfalso. apply H. split; [|exact Hi]. split; [lia|].
      assert (length dec / 4 <= (length dec + 4 - 1) / 4)%nat; [|lia].
      apply Nat.Div0.div_le_mono. lia. }
    rewrite list_lookup_fmap, lookup_seq_ge by lia.
    apply lookup_replicate_None. lia.
Qed.

Section DecodingFacts.

Variable ToNumber : val -> number.
Variable ToString : val -> string.

Lemma decode_base64 (data compression : val) :
  decode ToNumber ToString data (VString "base64") compression =
    match decodeBase64AsArray data 4 with
    | Ok decoded =>
        if is_string (or_else compression (VString "none")) "none"
        then Ok (VUint32Array decoded) else decompress
    | Throw e => Throw e
    end.
Proof. reflexivity. Qed.

(** C7, as amended.  With the encoding ["base64"]: a compression that is
    given (truthy) and is not ["none"] makes [decode] throw, whatever the
    data, and the exception is that of [decompress] as soon as the base64
    decoding itself succeeds, so no decoded array is returned; a
    compression that is ["none"], or falsy and so defaulted to ["none"],
    gives the [Uint32Array] of the little-endian 32-bit words of the
    decoded bytes. *)
Theorem decode_base64_compression (data compression : val) :
  (truthy compression = true -> is_string compression "none" = false ->
     exists e, decode ToNumber ToString data (VString "base64") compression = Throw e
       /\ (forall words, decodeBase64AsArray data 4 = Ok words ->
             e = Error "GZIP/ZLIB compressed TMX Tile Map not supported!"))
  /\ (truthy compression = false \/ is_string compression "none" = true ->
     forall s dec,
       data = VString s ->
       atob (string_of_list_ascii (filter is_base64_char (list_ascii_of_string s))) = Ok dec ->
       decode ToNumber ToString data (VString "base64") compression
         = Ok (VUint32Array (map (word_at dec) (seq 0 (length dec / 4))))
       /\ Forall (fun w => 0 <= w < 2 ^ 32)%Z (map (word_at dec) (seq 0 (length dec / 4)))).
Proof.
  split.
  - intros Ht Hn. rewrite decode_base64. unfold or_else. rewrite Ht, Hn.
    destruct (decodeBase64AsArray data 4) as [words|e].
    + eexists. split; [reflexivity|]. intros _ _. reflexivity.
    + exists e. split; [reflexivity|]. intros words [=].
  - intros Hc s dec -> Hdec. split.
    + rewrite decode_base64, (decodeBase64AsArray_words s dec Hdec).
      unfold or_else. destruct Hc as [Hc|Hc].
      * rewrite Hc. reflexivity.
      * destruct (truthy compression); [rewrite Hc|]; reflexivity.
    + apply Forall_fmap, Forall_forall. intros i _.
      apply word_at_range. eapply atob_range; eauto.
Qed.

End DecodingFacts.

(** The payload ["AQAAAAIAAAA="] holds the words 1 and 2: it is refused
    with the compression ["gzip"] and decoded with ["none"]. *)
Lemma decode_base64_compression_witness :
  decode Sample.ToNumber Sample.ToString (VString "AQAAAAIAAAA=") (VString "base64")
    (VString "gzip")
    = Throw (Error "GZIP/ZLIB compressed TMX Tile Map not supported!")
  /\ decode Sample.ToNumber Sample.ToString (VString "AQAAAAIAAAA=") (VString "base64")
       (VString "none")
     = Ok (VUint32Array [1%Z; 2%Z]).
Proof.
  split.
  - destruct (proj1 (decode_base64_compression Sample.ToNumber Sample.ToString
                       (VString "AQAAAAIAAAA=") (VString "gzip")) eq_refl eq_refl)
      as (e & Hthrow & Hwhich).
    rewrite Hthrow. f_equal. apply (Hwhich [1%Z; 2%Z]). reflexivity.
  - apply (proj2 (decode_base64_compression Sample.ToNumber Sample.ToString
                    (VString "AQAAAAIAAAA=") (VString "none")) (or_intror eq_refl)
             "AQAAAAIAAAA=" [1; 0; 0; 0; 2; 0; 0; 0]%Z eq_refl eq_refl).
Defined.

(** C7 as stated fails for the compression [""], which is other than
    ["none"]: [compression || "none"] reads it as ["none"], and the
    payload is decoded, not refused. *)
Lemma decode_base64_empty_compression :
  is_string (VString "") "none" = false
  /\ decode Sample.ToNumber Sample.ToString (VString "AQAAAAIAAAA=") (VString "base64")
       (VString "")
     = Ok (VUint32Array [1%Z; 2%Z]).
Proof. split; vm_compute; reflexivity. Qed.

(** ** The "data" case of [normalize] *)

Section NormalizeFacts.

Variable ToNumber : val -> number.
Variable ToString : val -> string.

Lemma get_insert (o : gmap string val) k k' v :
  get (<[k := v]> o) k' = if decide (k = k') then v else get o k'.
Proof.
  unfold get. rewrite lookup_insert. destruct (decide (k = k')); reflexivity.
Qed.

Lemma truthy_defined v : truthy v = true -> defined v = true.
Proof. destruct v; simpl; intros H; try reflexivity; discriminate. Qed.

Lemma or_else_array_defined v : defined (or_else v (VArray [])) = true.
Proof.
  unfold or_else. destruct (truthy v) eqn:H; [now apply truthy_defined | reflexivity].
Qed.

(** Whatever the pushes do, [obj.chunks] stays defined. *)
Lemma push_chunks_defined data chunks : forall target v,
  push_chunks ToNumber ToString data chunks target = Ok v ->
  defined target = true -> defined v = true.
Proof.
  induction chunks as [|chunk rest IH]; intros target v; simpl.
  - intros [= <-] H. exact H.
  - destruct (chunk_entry ToNumber ToString data chunk) as [entry|e]; simpl; [|discriminate].
    destruct target; try discriminate. intros H _. eapply IH; [exact H | reflexivity].
Qed.

(** Pushing onto an array extends it by one entry per chunk. *)
Lemma push_chunks_all data chunks : forall old entries,
  Forall2 (fun chunk entry => chunk_entry ToNumber ToString data chunk = Ok entry)
    chunks entries ->
  push_chunks ToNumber ToString data chunks (VArray old) = Ok (VArray (old ++ entries)).
Proof.
  induction chunks as [|chunk rest IH]; intros old entries Hall;
    inversion Hall as [|? entry ? entries' He Hrest]; subst; simpl.
  - rewrite app_nil_r. reflexivity.
  - rewrite He. simpl. rewrite (IH _ _ Hrest), <- app_assoc. reflexivity.
Qed.

(** C5.  When the parsed record has both [chunks] and [text] defined, the
    chunks win: a call that returns leaves [obj.data] as it was, with
    [obj.chunks] defined and [obj.encoding] set to ["none"]; and when
    [obj.chunks] is absent or an array and every chunk decodes, the call
    returns [obj] with the decoded chunks appended to [obj.chunks]. *)
Theorem normalize_data_chunks_win (obj data : gmap string val) :
  defined (get data "chunks") = true ->
  defined (get data "text") = true ->
  let data' := <["encoding" := or_else (get data "encoding") (VString "xml")]> data in
  (forall obj',
      normalize_data ToNumber ToString obj data = Ok obj' ->
      obj' !! "data" = obj !! "data"
      /\ get obj' "encoding" = VString "none"
      /\ defined (get obj' "chunks") = true)
  /\ (forall old entries chunks,
      or_else (get obj "chunks") (VArray []) = VArray old ->
      get data "chunks" = VArray chunks ->
      Forall2 (fun chunk entry => chunk_entry ToNumber ToString data' chunk = Ok entry)
        chunks entries ->
      normalize_data ToNumber ToString obj data
        = Ok (<["encoding" := VString "none"]> (<["chunks" := VArray (old ++ entries)]> obj))).
Proof.
  intros Hchunks Htext data'.
  assert (Hc' : get data' "chunks" = get data "chunks")
    by (unfold data'; rewrite get_insert; reflexivity).
  assert (Ht' : get data' "text" = get data "text")
    by (unfold data'; rewrite get_insert; reflexivity).
  split.
  - intros obj'. unfold normalize_data. fold data'. rewrite Hc', Ht', Hchunks, Htext.
    destruct (get data "chunks") as [| | | | |chunks| |] eqn:Hd; simpl; try discriminate.
    rewrite get_insert. simpl.
    destruct (push_chunks _ _ _ _ _) as [pushed|e] eqn:Hpush; simpl; [|discriminate].
    apply push_chunks_defined in Hpush; [|apply or_else_array_defined].
    rewrite !get_insert. simpl. rewrite Hpush. simpl.
    intros [= <-]. rewrite !lookup_insert_ne by discriminate.
    rewrite !get_insert. simpl. auto.
  - intros old entries chunks Hold Hd Hall.
    unfold normalize_data. fold data'. rewrite Hc', Ht', Hchunks, Htext, Hd. simpl.
    rewrite get_insert. simpl. rewrite Hold.
    rewrite (push_chunks_all _ _ _ _ Hall). simpl.
    rewrite !get_insert. simpl. rewrite insert_insert_eq. reflexivity.
Qed.

End NormalizeFacts.

(** A [data] node with one chunk and stray text, normalised into an empty
    layer record: the chunk is decoded and no [data] property appears. *)
Lemma normalize_data_chunks_win_witness :
  defined (get Sample.data_with_both "chunks") = true
  /\ defined (get Sample.data_with_both "text") = true
  /\ normalize_data Sample.ToNumber Sample.ToString ∅ Sample.data_with_both
     = Ok (<["encoding" := VString "none"]> (<["chunks" := VArray [Sample.entry0]]> ∅))
  /\ (<["encoding" := VString "none"]> (<["chunks" := VArray [Sample.entry0]]> ∅)
        : gmap string val) !! "data" = None.
Proof.
  split; [reflexivity|]. split; [reflexivity|]. split; [|reflexivity].
  destruct (normalize_data_chunks_win Sample.ToNumber Sample.ToString ∅
              Sample.data_with_both eq_refl eq_refl) as [_ Hreturns].
  apply (Hreturns [] [Sample.entry0] [Sample.chunk0]); [reflexivity | reflexivity |].
  constructor; [vm_compute; reflexivity | constructor].
Defined.

End TMXFacts.

(* ================================================================== *)
(** * Container: one holder per Renderable *)
(* ================================================================== *)

Module ContainerFacts.

Import JS Container.

Lemma sequence_with_sequence s c l c0 :
  sequence (with_sequence s c l) c0 = if decide (c = c0) then l else sequence s c0.
Proof.
  unfold sequence, with_sequence. simpl. rewrite lookup_insert.
  destruct (decide (c = c0)); reflexivity.
Qed.

Lemma elem_of_sequence_unlink s c child c0 r :
  r ∈ sequence (unlink s c child) c0 <-> r ∈ sequence s c0 /\ (c0 = c -> r ≠ child).
Proof.
  unfold unlink. rewrite sequence_with_sequence.
  destruct (decide (c = c0)) as [->|Hne].
  - rewrite list_elem_of_filter. tauto.
  - split; [intros H; split; [exact H | congruence] | tauto].
Qed.

Lemma exclusive_unlink s c child : exclusive s -> exclusive (unlink s c child).
Proof.
  intros Hs c1 c2 r H1 H2.
  apply elem_of_sequence_unlink in H1, H2. apply (Hs c1 c2 r); tauto.
Qed.

Lemma elem_of_sequence_lookup s c r :
  r ∈ sequence s c -> exists l, children s !! c = Some l /\ r ∈ l.
Proof.
  unfold sequence. destruct (children s !! c) as [l|]; simpl.
  - eauto.
  - intros H. apply elem_of_nil in H. destruct H.
Qed.

Lemma other_holder_Some s c child previous :
  other_holder s c child = Some previous ->
  previous ≠ c /\ child ∈ sequence s previous.
Proof.
  unfold other_holder.
  destruct (List.find _ _) as [[k l]|] eqn:Hfind; [|discriminate].
  simpl. intros [= <-]. apply find_some in Hfind as [Hin Hp].
  apply andb_true_iff in Hp as [Hk Hl].
  apply bool_decide_eq_true in Hk, Hl. simpl in *.
  apply list_elem_of_In, elem_of_map_to_list in Hin.
  split; [exact Hk|]. unfold sequence. rewrite Hin. exact Hl.
Qed.

Lemma other_holder_None s c child c' :
  other_holder s c child = None -> c' ≠ c -> child ∉ sequence s c'.
Proof.
  unfold other_holder.
  destruct (List.find _ _) as [[k l]|] eqn:Hfind; [discriminate|].
  intros _ Hne Hin.
  destruct (elem_of_sequence_lookup _ _ _ Hin) as (l & Hl & Hr).
  apply elem_of_map_to_list, list_elem_of_In in Hl.
  pose proof (find_none _ _ Hfind _ Hl) as Hp. simpl in Hp.
  apply andb_false_iff in Hp as [Hp|Hp]; apply bool_decide_eq_false in Hp; tauto.
Qed.

(** After a successful [addChild], the child is in [c], and in no other
    Container as long as no two Containers shared it before. *)
Lemma addChild_sequences s c child s' :
  addChild s c child = Ok s' ->
  exists s1,
    (s1 = s \/ exists previous, previous ≠ c /\ child ∈ sequence s previous
                                /\ s1 = unlink s previous child)
    /\ (forall c', c' ≠ c -> exclusive s -> child ∉ sequence s1 c')
    /\ s' = with_sequence s1 c (sequence s1 c ++ [child]).
Proof.
  unfold addChild.
  destruct (Nat.eqb child c); [discriminate|].
  destruct (Nat.eqb child (root s) && is_descendant s child c); [discriminate|].
  intros [= <-].
  destruct (other_holder s c child) as [previous|] eqn:Hh.
  - apply other_holder_Some in Hh as [Hne Hin].
    exists (unlink s previous child). split; [right; eauto|]. split; [|reflexivity].
    intros c' Hc' Hex Hin'. apply elem_of_sequence_unlink in Hin' as [Hin' Hp].
    assert (c' = previous) by (eapply Hex; eauto). tauto.
  - exists s. split; [now left|]. split; [|reflexivity].
    intros c' Hc' _. eapply other_holder_None; eauto.
Qed.

Lemma exclusive_addChild s c child s' :
  exclusive s -> addChild s c child = Ok s' -> exclusive s'.
Proof.
  intros Hex Hadd.
  destruct (addChild_sequences _ _ _ _ Hadd) as (s1 & Hs1 & Hout & ->).
  assert (Hex1 : exclusive s1).
  { destruct Hs1 as [->|(previous & _ & _ & ->)]; [exact Hex | now apply exclusive_unlink]. }
  intros c1 c2 r H1 H2. rewrite sequence_with_sequence in H1, H2.
  destruct (decide (c = c1)) as [<-|Hc1]; destruct (decide (c = c2)) as [<-|Hc2];
    try reflexivity.
  - apply elem_of_app in H1 as [H1|H1]; [eapply Hex1; eauto|].
    apply list_elem_of_singleton in H1 as ->.
    exfalso. apply (Hout c2); auto.
  - apply elem_of_app in H2 as [H2|H2]; [eapply Hex1; eauto|].
    apply list_elem_of_singleton in H2 as ->.
    exfalso. apply (Hout c1); auto.
  - eapply Hex1; eauto.
Qed.

Lemma sequence_removeChildNow s c child keepalive c0 :
  sequence (removeChildNow s c child keepalive) c0 = sequence (unlink s c child) c0.
Proof. unfold removeChildNow. destruct keepalive; reflexivity. Qed.

Lemma exclusive_ext s s' :
  (forall c, sequence s' c = sequence s c) -> exclusive s -> exclusive s'.
Proof.
  intros Heq Hex c1 c2 r H1 H2. rewrite Heq in H1, H2. eapply Hex; eauto.
Qed.

Lemma exclusive_removeChildNow s c child keepalive :
  exclusive s -> exclusive (removeChildNow s c child keepalive).
Proof.
  intros Hex. eapply exclusive_ext; [apply sequence_removeChildNow|].
  now apply exclusive_unlink.
Qed.

Lemma exclusive_drain pending : forall s,
  exclusive s ->
  exclusive (fold_left (fun s (r : nat * nat * bool) => removeChildNow s r.1.1 r.1.2 r.2)
               pending s).
Proof.
  induction pending as [|r pending IH]; intros s Hex; simpl; [exact Hex|].
  apply IH. now apply exclusive_removeChildNow.
Qed.

(** Every operation keeps the holders exclusive. *)
Lemma exclusive_step s o : exclusive s -> exclusive (step s o).
Proof.
  intros Hex. destruct o as [c child|c child k|c child k|]; simpl.
  - destruct (addChild s c child) as [s'|e] eqn:Hadd; [|exact Hex].
    eapply exclusive_addChild; eauto.
  - eapply exclusive_ext; [|exact Hex]. reflexivity.
  - now apply exclusive_removeChildNow.
  - unfold endOfPass. eapply exclusive_ext; [|apply exclusive_drain, Hex]. reflexivity.
Qed.

Lemma exclusive_run ops : forall s, exclusive s -> exclusive (run ops s).
Proof.
  unfold run. induction ops as [|o ops IH]; intros s Hex; simpl; [exact Hex|].
  apply IH, exclusive_step, Hex.
Qed.

Lemma exclusive_create root0 : exclusive (create root0).
Proof.
  intros c1 c2 r H. unfold sequence, create in H. simpl in H.
  rewrite lookup_empty in H. simpl in H. apply elem_of_nil in H. destruct H.
Qed.

(** C2.  After every sequence of [addChild], [removeChild] (with the
    passes that carry the scheduled removals out) and [removeChildNow]
    operations on a scene that starts without children, no Renderable is
    in the child sequences of two Containers; and an [addChild] of a child
    held by another Container takes it out of that Container and puts it
    into the new one. *)
Theorem one_container_per_renderable (root0 : nat) (ops : list operation) :
  exclusive (run ops (create root0))
  /\ (forall c previous child s',
        child ∈ sequence (run ops (create root0)) previous -> previous ≠ c ->
        addChild (run ops (create root0)) c child = Ok s' ->
        (child ∉ sequence s' previous) /\ (child ∈ sequence s' c)).
Proof.
  assert (Hex : exclusive (run ops (create root0))) by apply exclusive_run, exclusive_create.
  split; [exact Hex|].
  intros c previous child s' Hin Hne Hadd.
  destruct (addChild_sequences _ _ _ _ Hadd) as (s1 & Hs1 & Hout & ->).
  rewrite !sequence_with_sequence.
  destruct (decide (c = previous)) as [->|_]; [congruence|].
  destruct (decide (c = c)) as [_|]; [|congruence].
  split; [apply Hout; auto | apply elem_of_app; right; apply list_elem_of_singleton; reflexivity].
Qed.

(** Renderable 5 is added to Container 1, then to Container 2, then
    scheduled for removal from 2: it moves from 1 to 2 and is gone after
    the pass. *)
Lemma one_container_per_renderable_witness :
  sequence (run [AddChild 1 5; AddChild 2 5] (create 0)) 1 = []
  /\ sequence (run [AddChild 1 5; AddChild 2 5] (create 0)) 2 = [5]
  /\ sequence (run [AddChild 1 5; AddChild 2 5; RemoveChild 2 5 false] (create 0)) 2 = [5]
  /\ sequence (run [AddChild 1 5; AddChild 2 5; RemoveChild 2 5 false; EndOfPass] (create 0)) 2 = []
  /\ exclusive (run [AddChild 1 5; AddChild 2 5] (create 0)).
Proof.
  repeat split; try (vm_compute; reflexivity).
  apply (one_container_per_renderable 0 [AddChild 1 5; AddChild 2 5]).
Defined.

End ContainerFacts.

(* ================================================================== *)
(** * Path2D: the other methods, and sequences of calls *)
(* ================================================================== *)

Module DrawingFacts.

Import JSNumber Geometry Pool JS Path Drawing JSNumberFacts PoolFacts PathFacts.

Local Open Scope float_scope.

(** Whatever the sweep [d] and the resolution [a], two zero radii give an
    interpolation count [((d * rx + d * ry) / 2) / a] that is a zero or
    [NaN]. *)
Lemma ltb_zero_div_mean_zero (d rx ry a : number) :
  (rx =? 0) = true -> (ry =? 0) = true ->
  (0 <? ((d * rx + d * ry) / 2) / a) = false.
Proof.
  intros Hx Hy.
  destruct (Prim2SF_zero_of_eqb rx Hx) as [sx Hsx].
  destruct (Prim2SF_zero_of_eqb ry Hy) as [sy Hsy].
  rewrite FloatAxioms.ltb_spec, !div_spec, add_spec, !mul_spec, Hsx, Hsy.
  change (Prim2SF 0) with (S754_zero false).
  change (Prim2SF 2) with (S754_finite false 4503599627370496 (-51)).
  destruct (Prim2SF d) as [sd| sd | |sd md ed];
    destruct (Prim2SF a) as [sa| sa | |sa ma ea];
    destruct sx, sy; try destruct sd; try destruct sa; reflexivity.
Qed.

Lemma pull_pulled pl x0 y0 : snd (pull pl x0 y0) = pulled 1 pl.
Proof. rewrite <- (pulled_0 (snd (pull pl x0 y0))). apply pulled_S. Qed.

Lemma pulled_pulled j k pl : pulled j (pulled k pl) = pulled (j + k) pl.
Proof.
  unfold pulled. simpl. rewrite drop_drop, (Nat.add_comm k j), Nat.add_assoc. reflexivity.
Qed.

Lemma fold_push pts : forall pl, fold_left push pts pl = pushed (rev pts) pl.
Proof.
  induction pts as [|q pts IH]; intros pl; simpl.
  - rewrite pushed_nil. reflexivity.
  - rewrite IH. unfold pushed, push. simpl.
    rewrite <- app_assoc, length_app. simpl. f_equal. lia.
Qed.

Lemma beginPath_spec p pl :
  beginPath p pl = (with_points p [], pushed (rev (points p)) pl).
Proof. unfold beginPath. rewrite fold_push. reflexivity. Qed.

Lemma lineTo_spec p pl x0 y0 :
  lineTo p pl x0 y0 = (with_points p (points p ++ [ {| x := x0; y := y0 |} ]), pulled 1 pl).
Proof. unfold lineTo. rewrite push_pulled_eq, pull_pulled. reflexivity. Qed.

Lemma moveTo_spec p pl x0 y0 :
  moveTo p pl x0 y0 = (with_points p (points p ++ [ {| x := x0; y := y0 |} ]), pulled 1 pl).
Proof. unfold moveTo. rewrite push_pulled_eq, pull_pulled. reflexivity. Qed.


Lemma polyline_spec coordinates : forall p pl,
  polyline p pl coordinates =
    (with_points p (points p ++ map (fun c => {| x := fst c; y := snd c |}) coordinates),
     pulled (length coordinates) pl).
Proof.
  unfold polyline.
  induction coordinates as [|c coordinates IH]; intros p pl; simpl.
  - rewrite app_nil_r, pulled_0. destruct p; reflexivity.
  - rewrite lineTo_spec, IH. simpl. rewrite <- app_assoc, pulled_pulled.
    replace (length coordinates + 1)%nat with (S (length coordinates)) by lia.
    reflexivity.
Qed.

(** X1.  [beginPath()] empties the point sequence and pushes every point
    to the pool, the first point first.  The calls of [lineTo] that follow
    build a sequence that holds their points only, and each of them pulls
    once: after [n] of them the pool has handed out [n] more points and
    holds [n] fewer of the released ones, none when [n] exceeds what it
    held. *)
Theorem beginPath_recycles (p : Path2D) (pl : pool) (coordinates : list (number * number)) :
  beginPath p pl = (with_points p [], pushed (rev (points p)) pl)
  /\ exists p' pl',
      polyline (fst (beginPath p pl)) (snd (beginPath p pl)) coordinates = (p', pl')
      /\ points p' = map (fun c => {| x := fst c; y := snd c |}) coordinates
      /\ vertices p' = vertices p
      /\ pulls pl' = (pulls pl + length coordinates)%nat
      /\ pushes pl' = (pushes pl + length (points p))%nat
      /\ length (available pl')
         = (length (points p) + length (available pl) - length coordinates)%nat.
Proof.
  rewrite beginPath_spec. split; [reflexivity|].
  simpl. rewrite polyline_spec. eexists _, _. split; [reflexivity|]. simpl.
  rewrite length_drop, length_app, !length_rev.
  repeat split; lia.
Qed.

(** ** [rect] *)

Lemma rect_spec (p : Path2D) (pl : pool) (x0 y0 width height : number) :
  let c1 := {| x := x0; y := y0 |} in
  let c2 := {| x := x0 + width; y := y0 |} in
  let c3 := {| x := x0 + width; y := y0 + height |} in
  let c4 := {| x := x0; y := y0 + height |} in
  rect p pl x0 y0 width height
    = (with_points p (points p ++ [c1; c2; c2; c3; c3; c4; c4; c1]), pulled 8 pl).
Proof.
  intros c1 c2 c3 c4.
  unfold rect. repeat (rewrite ?moveTo_spec, ?lineTo_spec; cbv beta iota zeta).
  simpl. rewrite <- !app_assoc. simpl. rewrite !pulled_pulled. reflexivity.
Qed.

(** X2.  [rect(x, y, width, height)] appends eight points, the two ends of
    each of the four sides in turn, so that every corner occurs twice,
    and pulls eight times.  On an empty path whose corner [(x, y)] has no
    [NaN] coordinate the outline it leaves is closed: [closePath()] after
    it changes nothing. *)
Theorem rect_outline (p : Path2D) (pl : pool) (x0 y0 width height : number) :
  let c1 := {| x := x0; y := y0 |} in
  let c2 := {| x := x0 + width; y := y0 |} in
  let c3 := {| x := x0 + width; y := y0 + height |} in
  let c4 := {| x := x0; y := y0 + height |} in
  rect p pl x0 y0 width height
    = (with_points p (points p ++ [c1; c2; c2; c3; c3; c4; c4; c1]), pulled 8 pl)
  /\ (points p = [] -> strict_eq x0 x0 = true -> strict_eq y0 y0 = true ->
      closePath (fst (rect p pl x0 y0 width height)) (snd (rect p pl x0 y0 width height))
        = rect p pl x0 y0 width height).
Proof.
  intros c1 c2 c3 c4.
  pose proof (rect_spec p pl x0 y0 width height) as H. cbv zeta in H.
  split; [exact H|]. intros Hempty Hx Hy. rewrite H. simpl.
  rewrite Hempty. simpl.
  eapply (closePath_closed _ _ [c1; c2; c2; c3; c3; c4; c4] c1 c1); try reflexivity.
  unfold equals. simpl. rewrite Hx, Hy. reflexivity.
Qed.


(** ** The loops of [arc] and [ellipse] *)

Section CurveFacts.

Variables cos sin : number -> number.

(** Fuel beyond the number of rounds changes nothing; a loop that runs
    [n] rounds pushes the points of the [n] angles it sweeps. *)
Lemma arc_loop_points n : forall fuel x0 y0 radius nr dangle direction j angle pts pl,
  (forall m, (m < n)%nat -> (count_from j m <? nr) = true) ->
  (count_from j n <? nr) = false ->
  (n <= fuel)%nat ->
  arc_loop cos sin fuel x0 y0 radius nr dangle direction j angle pts pl
    = Some (pts ++ map (fun k => arc_point cos sin x0 y0 radius
                                   (swept angle (direction * dangle) k)) (seq 0 n),
            pulled n pl).
Proof.
  induction n as [|n IH]; intros fuel x0 y0 radius nr dangle direction j angle pts pl
    Hin Hout Hfuel.
  - simpl in Hout. rewrite arc_loop_exit by assumption.
    simpl. rewrite app_nil_r, pulled_0. reflexivity.
  - destruct fuel as [|fuel]; [lia|]. simpl.
    pose proof (Hin 0%nat ltac:(lia)) as H0. simpl in H0. rewrite H0.
    rewrite push_pulled_eq, pull_pulled.
    rewrite (IH fuel); try lia; try assumption.
    + rewrite <- app_assoc, pulled_pulled. simpl.
      rewrite <- seq_shift, map_map.
      replace (n + 1)%nat with (S n) by lia. reflexivity.
    + intros m Hm. apply (Hin (S m)). lia.
Qed.

Lemma ellipse_loop_exit fuel x0 y0 rx ry cr sr nr dangle direction j angle pts pl :
  (j <? nr) = false ->
  ellipse_loop cos sin fuel x0 y0 rx ry cr sr nr dangle direction j angle pts pl
    = Some (pts, pl).
Proof. intros H. destruct fuel; simpl; rewrite H; reflexivity. Qed.

Lemma ellipse_loop_points n : forall fuel x0 y0 rx ry cr sr nr dangle direction j angle pts pl,
  (forall m, (m < n)%nat -> (count_from j m <? nr) = true) ->
  (count_from j n <? nr) = false ->
  (n <= fuel)%nat ->
  ellipse_loop cos sin fuel x0 y0 rx ry cr sr nr dangle direction j angle pts pl
    = Some (pts ++ map (fun k => ellipse_point cos sin x0 y0 rx ry cr sr
                                   (swept angle (direction * dangle) k)) (seq 0 n),
            pulled n pl).
Proof.
  induction n as [|n IH]; intros fuel x0 y0 rx ry cr sr nr dangle direction j angle pts pl
    Hin Hout Hfuel.
  - simpl in Hout. rewrite ellipse_loop_exit by assumption.
    simpl. rewrite app_nil_r, pulled_0. reflexivity.
  - destruct fuel as [|fuel]; [lia|]. simpl.
    pose proof (Hin 0%nat ltac:(lia)) as H0. simpl in H0. rewrite H0.
    rewrite push_pulled_eq, pull_pulled.
    rewrite (IH fuel); try lia; try assumption.
    + rewrite <- app_assoc, pulled_pulled. simpl.
      rewrite <- seq_shift, map_map.
      replace (n + 1)%nat with (S n) by lia. reflexivity.
    + intros m Hm. apply (Hin (S m)). lia.
Qed.

(** [ellipse] in terms of the named intermediate values. *)
Lemma ellipse_unfold fuel p pl x0 y0 rx ry rotation startAngle endAngle anticlockwise :
  strict_eq startAngle endAngle = false ->
  ellipse cos sin fuel p pl x0 y0 rx ry rotation startAngle endAngle anticlockwise =
    let nr := ellipse_interpolation_points p rx ry startAngle endAngle anticlockwise in
    let diff := sweep startAngle endAngle anticlockwise in
    match ellipse_loop cos sin fuel x0 y0 rx ry (cos rotation) (sin rotation) nr (diff / nr)
            (if anticlockwise then -1 else 1) 0 (normalized_start startAngle)
            (points p) pl with
    | None => None
    | Some (pts, pl') => Some (with_points p pts, pl')
    end.
Proof.
  intros Hne. unfold ellipse. rewrite Hne. cbv zeta.
  unfold ellipse_interpolation_points, sweep, normalized_end, normalized_start.
  reflexivity.
Qed.

(** X3.  The points of an arc.  When the loop counter leaves the range of
    the interpolation count after [n] increments, [arc] returns as soon
    as it is given [n] rounds, and appends [n + 1] points: the points of
    the circle at the [n] angles reached from the normalised start angle
    by adding [direction * dangle] repeatedly, and the point at the
    normalised end angle.  The points already there stay, and the pool is
    pulled [n + 1] times. *)
Theorem arc_points (n fuel : nat) (p : Path2D) (pl : pool)
    (x0 y0 radius startAngle endAngle : number) (anticlockwise : bool) :
  let nr := interpolation_points p radius startAngle endAngle anticlockwise in
  let step :=
    (if anticlockwise then -1 else 1) * (sweep startAngle endAngle anticlockwise / nr) in
  strict_eq startAngle endAngle = false ->
  (forall m, (m < n)%nat -> (count_from 0 m <? nr) = true) ->
  (count_from 0 n <? nr) = false ->
  (n <= fuel)%nat ->
  arc cos sin fuel p pl x0 y0 radius startAngle endAngle anticlockwise
    = Some (with_points p
              (points p
               ++ map (fun k => arc_point cos sin x0 y0 radius
                                  (swept (normalized_start startAngle) step k)) (seq 0 n)
               ++ [arc_point cos sin x0 y0 radius (normalized_end startAngle endAngle)]),
            pulled (S n) pl).
Proof.
  intros nr step Hne Hin Hout Hfuel.
  rewrite arc_unfold by assumption. cbv zeta.
  rewrite (arc_loop_points n) by assumption.
  rewrite pull_pulled, pulled_pulled, <- app_assoc. reflexivity.
Qed.

(** X4.  The points of an ellipse.  Under the same condition [ellipse]
    appends [n] points and no more: the points of the rotated ellipse at
    the [n] angles swept.  No point is pushed for the end angle. *)
Theorem ellipse_points (n fuel : nat) (p : Path2D) (pl : pool)
    (x0 y0 radiusX radiusY rotation startAngle endAngle : number) (anticlockwise : bool) :
  let nr := ellipse_interpolation_points p radiusX radiusY startAngle endAngle anticlockwise in
  let step :=
    (if anticlockwise then -1 else 1) * (sweep startAngle endAngle anticlockwise / nr) in
  strict_eq startAngle endAngle = false ->
  (forall m, (m < n)%nat -> (count_from 0 m <? nr) = true) ->
  (count_from 0 n <? nr) = false ->
  (n <= fuel)%nat ->
  ellipse cos sin fuel p pl x0 y0 radiusX radiusY rotation startAngle endAngle anticlockwise
    = Some (with_points p
              (points p
               ++ map (fun k => ellipse_point cos sin x0 y0 radiusX radiusY
                                  (cos rotation) (sin rotation)
                                  (swept (normalized_start startAngle) step k)) (seq 0 n)),
            pulled n pl).
Proof.
  intros nr step Hne Hin Hout Hfuel.
  rewrite ellipse_unfold by assumption. cbv zeta.
  rewrite (ellipse_loop_points n) by assumption. reflexivity.
Qed.

End CurveFacts.


(** [arc(0, 0, 10, 0, Math.PI / 2)] on a fresh path: the count is
    [PI], four rounds, five points. *)
Lemma arc_points_witness :
  exists p' pl',
    arc JSMath.cos JSMath.sin 4 Path.create Pool.empty 0 0 10 0 (PI / 2) false = Some (p', pl')
    /\ length (points p') = 5%nat /\ pulls pl' = 5%nat.
Proof.
  eexists _, _. split.
  - apply (arc_points JSMath.cos JSMath.sin 4 4 Path.create Pool.empty 0 0 10 0 (PI / 2) false).
    + reflexivity.
    + intros m Hm. do 4 (destruct m as [|m]; [vm_compute; reflexivity|]). lia.
    + vm_compute. reflexivity.
    + lia.
  - split; reflexivity.
Defined.

(** [ellipse(0, 0, 10, 10, 0, 0, Math.PI / 2)] on a fresh path: the
    same count, four rounds, four points. *)
Lemma ellipse_points_witness :
  exists p' pl',
    ellipse JSMath.cos JSMath.sin 4 Path.create Pool.empty 0 0 10 10 0 0 (PI / 2) false
      = Some (p', pl')
    /\ length (points p') = 4%nat /\ pulls pl' = 4%nat.
Proof.
  eexists _, _. split.
  - apply (ellipse_points JSMath.cos JSMath.sin 4 4 Path.create Pool.empty
             0 0 10 10 0 0 (PI / 2) false).
    + reflexivity.
    + intros m Hm. do 4 (destruct m as [|m]; [vm_compute; reflexivity|]). lia.
    + vm_compute. reflexivity.
    + lia.
  - split; reflexivity.
Defined.


(** ** Calls that only append *)

Lemma with_points_same p : with_points p (points p) = p.
Proof. destruct p; reflexivity. Qed.

Lemma appends_refl p pl : appends p pl p pl.
Proof.
  exists []. rewrite app_nil_r, with_points_same, pulled_0. split; reflexivity.
Qed.

Lemma appends_trans p pl p1 pl1 p2 pl2 :
  appends p pl p1 pl1 -> appends p1 pl1 p2 pl2 -> appends p pl p2 pl2.
Proof.
  intros (e1 & -> & ->) (e2 & -> & ->). exists (e1 ++ e2). simpl.
  rewrite <- app_assoc, pulled_pulled, length_app.
  rewrite (Nat.add_comm (length e2)). split; reflexivity.
Qed.

Lemma appends_one p pl q :
  appends p pl (with_points p (points p ++ [q])) (pulled 1 pl).
Proof. exists [q]. split; reflexivity. Qed.

Lemma lineTo_appends p pl x0 y0 :
  appends p pl (fst (lineTo p pl x0 y0)) (snd (lineTo p pl x0 y0)).
Proof. rewrite lineTo_spec. apply appends_one. Qed.

Lemma moveTo_appends p pl x0 y0 :
  appends p pl (fst (moveTo p pl x0 y0)) (snd (moveTo p pl x0 y0)).
Proof. rewrite moveTo_spec. apply appends_one. Qed.

Lemma closePath_appends p pl :
  appends p pl (fst (closePath p pl)) (snd (closePath p pl)).
Proof.
  destruct (closePath_cases p pl) as [H | (first & _ & H)]; rewrite H; simpl.
  - apply appends_refl.
  - rewrite pull_pulled. apply appends_one.
Qed.

Lemma rect_appends p pl x0 y0 width height :
  appends p pl (fst (rect p pl x0 y0 width height)) (snd (rect p pl x0 y0 width height)).
Proof.
  rewrite rect_spec. simpl.
  eexists. split; reflexivity.
Qed.

Section AppendFacts.

Variables cos sin sqrt tan : number -> number.
Variables pow atan2 : number -> number -> number.

Lemma arc_loop_appends fuel : forall x0 y0 radius nr dangle direction j angle pts pl pts' pl',
  arc_loop cos sin fuel x0 y0 radius nr dangle direction j angle pts pl = Some (pts', pl') ->
  exists extra, pts' = pts ++ extra /\ pl' = pulled (length extra) pl.
Proof.
  induction fuel as [|fuel IH]; intros x0 y0 radius nr dangle direction j angle pts pl
    pts' pl' H; simpl in H; destruct (j <? nr).
  - discriminate.
  - injection H as <- <-. exists []. rewrite app_nil_r, pulled_0. split; reflexivity.
  - rewrite push_pulled_eq, pull_pulled in H.
    destruct (IH _ _ _ _ _ _ _ _ _ _ _ _ H) as (extra & -> & ->).
    eexists (_ :: extra). rewrite <- app_assoc, pulled_pulled. simpl.
    replace (length extra + 1)%nat with (S (length extra)) by lia.
    split; reflexivity.
  - injection H as <- <-. exists []. rewrite app_nil_r, pulled_0. split; reflexivity.
Qed.

Lemma ellipse_loop_appends fuel :
  forall x0 y0 rx ry cr sr nr dangle direction j angle pts pl pts' pl',
  ellipse_loop cos sin fuel x0 y0 rx ry cr sr nr dangle direction j angle pts pl
    = Some (pts', pl') ->
  exists extra, pts' = pts ++ extra /\ pl' = pulled (length extra) pl.
Proof.
  induction fuel as [|fuel IH]; intros x0 y0 rx ry cr sr nr dangle direction j angle pts pl
    pts' pl' H; simpl in H; destruct (j <? nr).
  - discriminate.
  - injection H as <- <-. exists []. rewrite app_nil_r, pulled_0. split; reflexivity.
  - rewrite push_pulled_eq, pull_pulled in H.
    destruct (IH _ _ _ _ _ _ _ _ _ _ _ _ _ _ _ H) as (extra & -> & ->).
    eexists (_ :: extra). rewrite <- app_assoc, pulled_pulled. simpl.
    replace (length extra + 1)%nat with (S (length extra)) by lia.
    split; reflexivity.
  - injection H as <- <-. exists []. rewrite app_nil_r, pulled_0. split; reflexivity.
Qed.

Lemma arc_appends fuel p pl x0 y0 radius startAngle endAngle anticlockwise p' pl' :
  arc cos sin fuel p pl x0 y0 radius startAngle endAngle anticlockwise = Some (p', pl') ->
  appends p pl p' pl'.
Proof.
  destruct (strict_eq startAngle endAngle) eqn:He.
  - unfold arc. rewrite He. intros [= <- <-]. apply appends_refl.
  - rewrite arc_unfold by assumption. cbv zeta.
    destruct (arc_loop _ _ _ _ _ _ _ _ _ _ _ _ _) as [[pts pl1]|] eqn:Hloop; [|discriminate].
    intros [= <- <-].
    destruct (arc_loop_appends _ _ _ _ _ _ _ _ _ _ _ _ _ Hloop) as (extra & -> & ->).
    eexists (extra ++ [_]). rewrite pull_pulled, pulled_pulled, app_assoc, length_app.
    simpl. rewrite (Nat.add_comm 1). split; reflexivity.
Qed.

Lemma ellipse_appends fuel p pl x0 y0 rx ry rotation startAngle endAngle anticlockwise p' pl' :
  ellipse cos sin fuel p pl x0 y0 rx ry rotation startAngle endAngle anticlockwise
    = Some (p', pl') ->
  appends p pl p' pl'.
Proof.
  destruct (strict_eq startAngle endAngle) eqn:He.
  - unfold ellipse. rewrite He. intros [= <- <-]. apply appends_refl.
  - rewrite ellipse_unfold by assumption. cbv zeta.
    destruct (ellipse_loop _ _ _ _ _ _ _ _ _ _ _ _ _ _ _ _) as [[pts pl1]|] eqn:Hloop;
      [|discriminate].
    intros [= <- <-].
    destruct (ellipse_loop_appends _ _ _ _ _ _ _ _ _ _ _ _ _ _ _ _ Hloop) as (extra & -> & ->).
    exists extra. split; reflexivity.
Qed.

(** [arcTo] throws on the empty path; on a path that has a current point
    it does not, and what it returns starts with the first tangent
    point. *)
Lemma arcTo_cases fuel p pl x1 y1 x2 y2 radius :
  (points p = []
   /\ arcTo cos sin sqrt tan pow atan2 fuel p pl x1 y1 x2 y2 radius = Some (Throw TypeError))
  \/ (exists current,
        last (points p) = Some current
        /\ (arcTo cos sin sqrt tan pow atan2 fuel p pl x1 y1 x2 y2 radius = None
            \/ exists rest,
                 let tangent :=
                   (arcTo_geometry sqrt tan pow atan2 (x current) (y current)
                      x1 y1 x2 y2 radius).1.1.1 in
                 arcTo cos sin sqrt tan pow atan2 fuel p pl x1 y1 x2 y2 radius
                   = Some (Ok (with_points p
                                 (points p ++ {| x := tangent.1; y := tangent.2 |} :: rest),
                               pulled (S (length rest)) pl)))).
Proof.
  unfold arcTo. rewrite last_lookup.
  replace (Nat.pred (length (points p))) with (length (points p) - 1)%nat by lia.
  destruct (points p !! (length (points p) - 1)%nat) as [current|] eqn:Hc.
  - right. exists current. split; [reflexivity|].
    destruct (arcTo_geometry _ _ _ _ _ _ _ _ _ _ _) as [[[t1 center] startAngle] endAngle].
    rewrite push_pulled_eq, pull_pulled.
    destruct (arc _ _ _ _ _ _ _ _ _ _ _) as [[p' pl']|] eqn:Harc; [|now left].
    right. destruct (arc_appends _ _ _ _ _ _ _ _ _ _ _ Harc) as (rest & -> & ->).
    exists rest. simpl. rewrite <- app_assoc, pulled_pulled.
    replace (length rest + 1)%nat with (S (length rest)) by lia. reflexivity.
  - left. split; [|reflexivity].
    apply lookup_ge_None in Hc. destruct (points p); [reflexivity|simpl in Hc; lia].
Qed.

Lemma arcTo_appended fuel p pl x1 y1 x2 y2 radius :
  points p <> [] ->
  appended p pl (arcTo cos sin sqrt tan pow atan2 fuel p pl x1 y1 x2 y2 radius).
Proof.
  intros Hne.
  destruct (arcTo_cases fuel p pl x1 y1 x2 y2 radius)
    as [[Hempty _] | (current & _ & [Hnone | (rest & Hrun)])].
  - contradiction.
  - rewrite Hnone. exact I.
  - cbv zeta in Hrun. rewrite Hrun. simpl. eexists (_ :: rest). split; reflexivity.
Qed.

Lemma arcTo_after_point fuel p pl q ql point x1 y1 x2 y2 radius :
  appends p pl q ql ->
  appended p pl (arcTo cos sin sqrt tan pow atan2 fuel
                   (with_points q (points q ++ [point])) (pulled 1 ql) x1 y1 x2 y2 radius).
Proof.
  intros Hq.
  pose proof (arcTo_appended fuel (with_points q (points q ++ [point])) (pulled 1 ql)
                x1 y1 x2 y2 radius) as H.
  destruct (arcTo _ _ _ _ _ _ _ _ _ _ _ _ _ _) as [[[p' pl']|e]|]; simpl in *.
  - eapply appends_trans; [exact Hq|]. eapply appends_trans; [apply appends_one|].
    apply H. destruct (points q); discriminate.
  - apply H. destruct (points q); discriminate.
  - exact I.
Qed.

Lemma and_then_appended p pl r k :
  appended p pl r ->
  (forall q ql, appends p pl q ql -> appended p pl (k q ql)) ->
  appended p pl (and_then r k).
Proof.
  intros Hr Hk. destruct r as [[[q ql]|e]|]; simpl in *; auto.
Qed.

(** [roundRect] does not throw, and what it returns was appended. *)
Lemma roundRect_appended fuel p pl x0 y0 width height radius :
  appended p pl (roundRect cos sin sqrt tan pow atan2 fuel p pl x0 y0 width height radius).
Proof.
  unfold roundRect. rewrite moveTo_spec, lineTo_spec.
  assert (H0 : appends p pl (with_points p (points p ++ [ {| x := x0 + radius; y := y0 |} ]))
                 (pulled 1 pl)) by apply appends_one.
  apply and_then_appended; [apply arcTo_after_point; exact H0|].
  intros q1 ql1 H1. rewrite lineTo_spec.
  apply and_then_appended; [apply arcTo_after_point; exact H1|].
  intros q2 ql2 H2. rewrite lineTo_spec.
  apply and_then_appended; [apply arcTo_after_point; exact H2|].
  intros q3 ql3 H3. rewrite lineTo_spec.
  apply arcTo_after_point; exact H3.
Qed.

(** [arcTo] on a path that has a current point: the push of the first
    tangent point, then the call of [arc]. *)
Lemma arcTo_unfold fuel p pl current x1 y1 x2 y2 radius :
  last (points p) = Some current ->
  arcTo cos sin sqrt tan pow atan2 fuel p pl x1 y1 x2 y2 radius =
    let geometry :=
      arcTo_geometry sqrt tan pow atan2 (x current) (y current) x1 y1 x2 y2 radius in
    let first := {| x := geometry.1.1.1.1; y := geometry.1.1.1.2 |} in
    returned (arc cos sin fuel (with_points p (points p ++ [first])) (pulled 1 pl)
                geometry.1.1.2.1 geometry.1.1.2.2 radius geometry.1.2 geometry.2 false).
Proof.
  intros Hlast. unfold arcTo. rewrite last_lookup in Hlast.
  replace (Nat.pred (length (points p))) with (length (points p) - 1)%nat in Hlast by lia.
  rewrite Hlast. cbv zeta.
  destruct (arcTo_geometry _ _ _ _ _ _ _ _ _ _ _) as [[[t1 center] startAngle] endAngle].
  rewrite push_pulled_eq, pull_pulled. reflexivity.
Qed.

(** X5.  [arcTo] needs a current point.  On an empty path it throws a
    [TypeError], reading [x] of [points[-1]], and only then.  On any
    other path it is the push of the first tangent point, computed from
    the last point of the path, followed by the call of [arc] with the
    centre, the radius and the two angles computed from that point,
    clockwise: when the two angles are equal only the tangent point is
    appended, and otherwise, when the loop counter of [arc] leaves the
    range of the interpolation count after [n] increments, the tangent
    point, the [n] points of the circle at the angles swept and the point
    at the normalised end angle, each of them pulled.  [roundRect] calls
    [arcTo] only after a [lineTo], so that it does not throw on any path,
    the empty one included, and only appends. *)
Theorem arcTo_needs_current_point fuel p pl x1 y1 x2 y2 radius :
  (arcTo cos sin sqrt tan pow atan2 fuel p pl x1 y1 x2 y2 radius = Some (Throw TypeError)
   <-> points p = [])
  /\ match last (points p) with
     | None => True
     | Some current =>
         let '(tangent, center, startAngle, endAngle) :=
           arcTo_geometry sqrt tan pow atan2 (x current) (y current) x1 y1 x2 y2 radius in
         let first := {| x := tangent.1; y := tangent.2 |} in
         let nr := interpolation_points p radius startAngle endAngle false in
         let step := 1 * (sweep startAngle endAngle false / nr) in
         arcTo cos sin sqrt tan pow atan2 fuel p pl x1 y1 x2 y2 radius
           = returned (arc cos sin fuel (with_points p (points p ++ [first])) (pulled 1 pl)
                         center.1 center.2 radius startAngle endAngle false)
         /\ (strict_eq startAngle endAngle = true ->
             arcTo cos sin sqrt tan pow atan2 fuel p pl x1 y1 x2 y2 radius
               = Some (Ok (with_points p (points p ++ [first]), pulled 1 pl)))
         /\ (forall n,
               strict_eq startAngle endAngle = false ->
               (forall m, (m < n)%nat -> (count_from 0 m <? nr) = true) ->
               (count_from 0 n <? nr) = false ->
               (n <= fuel)%nat ->
               arcTo cos sin sqrt tan pow atan2 fuel p pl x1 y1 x2 y2 radius
                 = Some (Ok (with_points p
                               (points p
                                ++ first
                                   :: map (fun k => arc_point cos sin center.1 center.2 radius
                                                      (swept (normalized_start startAngle) step k))
                                        (seq 0 n)
                                ++ [arc_point cos sin center.1 center.2 radius
                                      (normalized_end startAngle endAngle)]),
                             pulled (S (S n)) pl)))
     end
  /\ (forall x0 y0 width height,
        appended p pl
          (roundRect cos sin sqrt tan pow atan2 fuel p pl x0 y0 width height radius)).
Proof.
  split; [|split].
  - destruct (arcTo_cases fuel p pl x1 y1 x2 y2 radius)
      as [[Hempty Hrun] | (current & Hlast & [Hnone | (rest & Hrun)])].
    + split; auto.
    + rewrite Hnone. split; [discriminate|]. intros E. rewrite E in Hlast. discriminate.
    + cbv zeta in Hrun. rewrite Hrun. split; [discriminate|].
      intros E. rewrite E in Hlast. discriminate.
  - destruct (last (points p)) as [current|] eqn:Hlast; [|exact I].
    rewrite (arcTo_unfold fuel p pl current) by exact Hlast. cbv zeta.
    destruct (arcTo_geometry _ _ _ _ _ _ _ _ _ _ _) as [[[tangent center] startAngle] endAngle].
    cbn [fst snd]. split; [reflexivity|]. split.
    + intros He. unfold arc. rewrite He. reflexivity.
    + intros n He Hin Hout Hfuel.
      rewrite arc_unfold by exact He. cbv zeta.
      change (interpolation_points (with_points p _) radius startAngle endAngle false)
        with (interpolation_points p radius startAngle endAngle false).
      rewrite (arc_loop_points cos sin n) by assumption.
      rewrite pull_pulled, !pulled_pulled. simpl.
      rewrite <- !app_assoc. simpl.
      replace (S (n + 1)) with (S (S n)) by lia. reflexivity.
  - intros x0 y0 width height. apply roundRect_appended.
Qed.

(** X6.  Nothing to draw.  [ellipse] returns at once, the path and the
    pool as they were, when [startAngle === endAngle], and also when both
    radii are zero: the interpolation count is then a zero or [NaN], the
    loop does not run, and, unlike [arc], [ellipse] pushes no point after
    its loop. *)
Theorem ellipse_nothing_to_draw fuel p pl x0 y0 radiusX radiusY rotation
    startAngle endAngle anticlockwise :
  strict_eq startAngle endAngle = true
  \/ (strict_eq radiusX 0 = true /\ strict_eq radiusY 0 = true) ->
  ellipse cos sin fuel p pl x0 y0 radiusX radiusY rotation startAngle endAngle anticlockwise
    = Some (p, pl).
Proof.
  intros H. destruct (strict_eq startAngle endAngle) eqn:He.
  - unfold ellipse. rewrite He. reflexivity.
  - destruct H as [H | [Hx Hy]]; [discriminate|].
    rewrite ellipse_unfold by assumption. cbv zeta.
    rewrite ellipse_loop_exit.
    + rewrite with_points_same. reflexivity.
    + unfold ellipse_interpolation_points. apply ltb_zero_div_mean_zero; assumption.
Qed.

End AppendFacts.

(** [ellipse(1, 2, 0, 0, 0, 0, 1)] leaves a fresh path and the pool
    untouched, with no fuel. *)
Lemma ellipse_nothing_to_draw_witness :
  (strict_eq 0 1 = true \/ (strict_eq 0 0 = true /\ strict_eq 0 0 = true))
  /\ ellipse JSMath.cos JSMath.sin 0 Path.create Pool.empty 1 2 0 0 0 0 1 false
     = Some (Path.create, Pool.empty).
Proof.
  split; [right; split; reflexivity|].
  apply (ellipse_nothing_to_draw JSMath.cos JSMath.sin 0 Path.create Pool.empty
           1 2 0 0 0 0 1 false).
  right. split; reflexivity.
Defined.

(** ** [triangulatePath] *)

Lemma set_vertices_length pts indices : forall i vs vs',
  set_vertices pts indices i vs = Ok vs' -> length vs' = length vs.
Proof.
  induction indices as [|index rest IH]; intros i vs vs' H; simpl in H.
  - injection H as <-. reflexivity.
  - destruct (pts !! index) as [point|]; [|discriminate].
    destruct (vs !! i) as [v|]; [|discriminate].
    rewrite (IH _ _ _ H), length_insert. reflexivity.
Qed.

(** With room for every index, the copy loop throws exactly when an
    index is not one of [points], and then a [TypeError]. *)
Lemma set_vertices_throws pts indices : forall i vs,
  (i + length indices <= length vs)%nat ->
  (set_vertices pts indices i vs = Throw TypeError
   <-> Exists (fun index => length pts <= index)%nat indices)
  /\ (forall e, set_vertices pts indices i vs = Throw e -> e = TypeError).
Proof.
  induction indices as [|index rest IH]; intros i vs Hlen; simpl in *.
  - split; [|discriminate]. split; [discriminate|]. intros H. inversion H.
  - destruct (lookup_lt_is_Some_2 vs i ltac:(lia)) as [v Hv]. rewrite Hv.
    destruct (pts !! index) as [point|] eqn:Hp.
    + apply lookup_lt_Some in Hp.
      destruct (IH (S i) (<[i := set v (x point) (y point)]> vs)) as [Hiff He].
      { rewrite length_insert. lia. }
      split; [|exact He]. rewrite Hiff. rewrite Exists_cons. split; [tauto|].
      intros [H|H]; [lia|exact H].
    + apply lookup_ge_None in Hp. split; [|intros e [= <-]; reflexivity].
      split; [|reflexivity]. intros _. apply Exists_cons_hd. exact Hp.
Qed.

Section MoreTriangulateFacts.

Variable earcut : list number -> list nat.

(** X7.  [triangulatePath()] throws exactly when [earcut] returns an index
    that is not one of [points], and then a [TypeError] (reading [x] of
    [undefined]); it throws nothing else. *)
Theorem triangulatePath_throws (p : Path2D) (pl : pool) :
  let indices := earcut (flat_map (fun q => [x q; y q]) (points p)) in
  (triangulatePath earcut p pl = Throw TypeError
   <-> Exists (fun index => length (points p) <= index)%nat indices)
  /\ (forall e, triangulatePath earcut p pl = Throw e -> e = TypeError).
Proof.
  intros indices. unfold triangulatePath. fold indices. rewrite grow_spec.
  set (vs1 := vertices p ++ replicate (length indices - length (vertices p))
                              {| x := 0; y := 0 |}).
  destruct (set_vertices_throws (points p) indices 0 vs1) as [Hiff He].
  { unfold vs1. rewrite length_app, length_replicate. lia. }
  destruct (set_vertices (points p) indices 0 vs1) as [vs2|e] eqn:Hrun; simpl.
  - rewrite shrink_spec. split; [|discriminate].
    rewrite <- Hiff. split; discriminate.
  - split.
    + rewrite <- Hiff. split; intros [= ->]; reflexivity.
    + intros e' [= <-]. apply He. reflexivity.
Qed.

(** What a call that returns leaves. *)
Lemma triangulatePath_Ok (p : Path2D) (pl : pool) p' pl' :
  let n := length (earcut (flat_map (fun q => [x q; y q]) (points p))) in
  triangulatePath earcut p pl = Ok (p', pl') ->
  points p' = points p /\ arcResolution p' = arcResolution p
  /\ length (vertices p') = n
  /\ pulls pl' = (pulls pl + (n - length (vertices p)))%nat
  /\ pushes pl' = (pushes pl + (length (vertices p) - n))%nat.
Proof.
  intros n. unfold triangulatePath. fold n. rewrite grow_spec.
  destruct (set_vertices _ _ _ _) as [vs2|e] eqn:Hrun; simpl; [|discriminate].
  rewrite shrink_spec. intros [= <- <-]. simpl.
  apply set_vertices_length in Hrun. rewrite length_app, length_replicate in Hrun.
  rewrite length_take, length_drop. repeat split; lia.
Qed.

Lemma set_vertices_in_range pts indices : forall i vs vs',
  set_vertices pts indices i vs = Ok vs' ->
  Forall (fun index => index < length pts)%nat indices.
Proof.
  induction indices as [|index rest IH]; intros i vs vs' H; simpl in H.
  - constructor.
  - destruct (pts !! index) as [point|] eqn:Hp; [|discriminate].
    destruct (vs !! i) as [v|]; [|discriminate].
    constructor; [eapply lookup_lt_Some; eauto | eapply IH; eauto].
Qed.

(** Copying once more over a buffer that already holds the copies
    changes nothing. *)
Lemma set_vertices_again pts indices i vs vs2 ws :
  set_vertices pts indices i vs = Ok vs2 ->
  (i + length indices <= length vs)%nat ->
  (i + length indices <= length ws)%nat ->
  (forall k, (k < length indices)%nat -> ws !! (i + k)%nat = vs2 !! (i + k)%nat) ->
  set_vertices pts indices i ws = Ok ws.
Proof.
  intros Hrun Hvs Hws Hsame.
  pose proof (set_vertices_in_range _ _ _ _ _ Hrun) as Hin.
  destruct (set_vertices_spec pts indices i vs Hin Hvs) as (vs2' & Hrun' & _ & Hset & _).
  rewrite Hrun in Hrun'. injection Hrun' as <-.
  destruct (set_vertices_spec pts indices i ws Hin Hws) as (ws' & Hrunw & Hlen & Hsetw & Hframe).
  rewrite Hrunw. f_equal. apply list_eq. intros k.
  destruct (decide (i <= k < i + length indices)%nat) as [Hk|Hk].
  - replace k with (i + (k - i))%nat by lia.
    destruct (lookup_lt_is_Some_2 indices (k - i)%nat ltac:(lia)) as [index Hindex].
    destruct (Hsetw _ _ Hindex) as (point & Hpoint & ->).
    destruct (Hset _ _ Hindex) as (point' & Hpoint' & Hv).
    rewrite Hsame by lia. rewrite Hv. congruence.
  - apply Hframe. lia.
Qed.

(** X8.  Triangulating again.  A call of [triangulatePath()] that follows
    one that returned, the path untouched in between, returns the same
    vertices and leaves the pool alone: the buffer has the length of the
    index list already, so nothing is pulled and nothing is pushed. *)
Theorem triangulatePath_again (p : Path2D) (pl : pool) p' pl' :
  triangulatePath earcut p pl = Ok (p', pl') ->
  triangulatePath earcut p' pl' = Ok (p', pl').
Proof.
  intros H.
  destruct (triangulatePath_Ok p pl p' pl' H) as (Hpts & _ & Hlen & _).
  revert H. unfold triangulatePath. rewrite Hpts.
  set (indices := earcut (flat_map (fun q => [x q; y q]) (points p))) in *.
  rewrite !grow_spec.
  set (vs1 := vertices p ++ replicate (length indices - length (vertices p))
                              {| x := 0; y := 0 |}).
  destruct (set_vertices (points p) indices 0 vs1) as [vs2|e] eqn:Hrun; simpl; [|discriminate].
  rewrite shrink_spec. intros [= <- <-]. simpl in *.
  rewrite length_take in *.
  assert (Hlen2 : length vs2 = length vs1) by (eapply set_vertices_length; eauto).
  assert (Hlen1 : (length indices <= length vs1)%nat).
  { unfold vs1. rewrite length_app, length_replicate. lia. }
  replace (length indices - length indices `min` length vs2)%nat with 0%nat by lia.
  simpl. rewrite app_nil_r, pulled_0.
  rewrite (set_vertices_again (points p) indices 0 vs1 vs2 (take (length indices) vs2) Hrun).
  - simpl. rewrite shrink_spec.
    rewrite take_take, Nat.min_id, drop_ge, pushed_nil by (rewrite length_take; lia).
    reflexivity.
  - simpl. lia.
  - simpl. rewrite length_take. lia.
  - intros k Hk. simpl. apply lookup_take_lt. exact Hk.
Qed.

(** Indices in range are enough for the call to return. *)
Lemma triangulatePath_returns (p : Path2D) (pl : pool) :
  Forall (fun index => index < length (points p))%nat
    (earcut (flat_map (fun q => [x q; y q]) (points p))) ->
  exists p' pl', triangulatePath earcut p pl = Ok (p', pl').
Proof.
  intros Hin. unfold triangulatePath. rewrite grow_spec.
  set (indices := earcut (flat_map (fun q => [x q; y q]) (points p))) in *.
  set (vs1 := vertices p ++ replicate (length indices - length (vertices p))
                              {| x := 0; y := 0 |}).
  destruct (set_vertices_spec (points p) indices 0 vs1 Hin) as (vs2 & Hrun & _).
  - unfold vs1. rewrite length_app, length_replicate. simpl. lia.
  - rewrite Hrun. simpl. rewrite shrink_spec. eauto.
Qed.

End MoreTriangulateFacts.

(** The triangle of the examples, triangulated twice. *)
Lemma triangulatePath_again_witness :
  exists p' pl',
    triangulatePath Sample.fan Sample.triangle Pool.empty = Ok (p', pl')
    /\ triangulatePath Sample.fan p' pl' = Ok (p', pl').
Proof.
  destruct (triangulatePath_returns Sample.fan Sample.triangle Pool.empty)
    as (p' & pl' & Hrun).
  - vm_compute. repeat constructor.
  - exists p', pl'. split; [exact Hrun|].
    exact (triangulatePath_again Sample.fan Sample.triangle Pool.empty p' pl' Hrun).
Defined.

(** ** Any sequence of calls *)

Lemma appends_unaccounted p pl p' pl' :
  appends p pl p' pl' -> unaccounted p' pl' = unaccounted p pl.
Proof.
  intros (extra & -> & ->). unfold unaccounted. simpl. rewrite length_app. lia.
Qed.

Section RunFacts.

Variables cos sin sqrt tan : number -> number.
Variables pow atan2 : number -> number -> number.
Variable earcut : list number -> list nat.

(** X9.  Which call changes what.  A call that returns has left
    [arcResolution] alone.  [beginPath] empties the point sequence and
    pulls nothing; [triangulatePath] leaves the point sequence alone;
    every other call only appends: the points it found are still there,
    in place and unchanged, followed by those it pulled, one pull each,
    and it has pushed nothing and left [vertices] alone. *)
Theorem calls_only_append (fuel : nat) (c : call) (p : Path2D) (pl : pool) :
  match perform cos sin sqrt tan pow atan2 earcut fuel c p pl with
  | Some (Ok (p', pl')) =>
      arcResolution p' = arcResolution p
      /\ match c with
         | BeginPath =>
             points p' = [] /\ vertices p' = vertices p /\ pulls pl' = pulls pl
         | TriangulatePath => points p' = points p
         | _ =>
             exists extra,
               p' = with_points p (points p ++ extra) /\ pl' = pulled (length extra) pl
         end
  | _ => True
  end.
Proof.
  assert (Happ : forall p' pl', appends p pl p' pl' ->
    arcResolution p' = arcResolution p
    /\ exists extra, p' = with_points p (points p ++ extra) /\ pl' = pulled (length extra) pl).
  { intros p' pl' (extra & -> & ->). split; [reflexivity|]. exists extra. split; reflexivity. }
  destruct c as [ | | | mx my | lx ly | ax ay ar asa aea acw | x1 y1 x2 y2 radius
             | ex ey erx ery erot esa eea ecw | rx ry rw rh | qx qy qw qh qr ];
    unfold perform.
  - rewrite beginPath_spec. repeat split.
  - destruct (closePath p pl) as [p' pl'] eqn:E. apply Happ.
    pose proof (closePath_appends p pl) as H. rewrite E in H. exact H.
  - destruct (triangulatePath earcut p pl) as [[p' pl']|e] eqn:E; [|exact I].
    destruct (triangulatePath_Ok earcut p pl p' pl' E) as (Hp & Hr & _). split; assumption.
  - rewrite moveTo_spec. apply Happ, appends_one.
  - rewrite lineTo_spec. apply Happ, appends_one.
  - destruct (arc _ _ _ _ _ _ _ _ _ _ _) as [[p' pl']|] eqn:E; simpl; [|exact I].
    apply Happ. eapply arc_appends; eauto.
  - destruct (arcTo_cases cos sin sqrt tan pow atan2 fuel p pl x1 y1 x2 y2 radius)
      as [[_ Hrun] | (current & _ & [Hnone | (rest & Hrun)])].
    + rewrite Hrun. exact I.
    + rewrite Hnone. exact I.
    + cbv zeta in Hrun. rewrite Hrun. apply Happ. eexists (_ :: rest). split; reflexivity.
  - destruct (ellipse _ _ _ _ _ _ _ _ _ _ _ _ _) as [[p' pl']|] eqn:E; simpl; [|exact I].
    apply Happ. eapply ellipse_appends; eauto.
  - destruct (rect p pl rx ry rw rh) as [p' pl'] eqn:E. apply Happ.
    pose proof (rect_appends p pl rx ry rw rh) as H. rewrite E in H. exact H.
  - pose proof (roundRect_appended cos sin sqrt tan pow atan2 fuel p pl qx qy qw qh qr)
      as H.
    destruct (roundRect _ _ _ _ _ _ _ _ _ _ _ _ _ _) as [[[p' pl']|e]|]; try exact I.
    apply Happ. exact H.
Qed.

Lemma perform_unaccounted fuel c p pl p' pl' :
  perform cos sin sqrt tan pow atan2 earcut fuel c p pl = Some (Ok (p', pl')) ->
  unaccounted p' pl' = unaccounted p pl.
Proof.
  destruct c as [ | | | mx my | lx ly | ax ay ar asa aea acw | x1 y1 x2 y2 radius
             | ex ey erx ery erot esa eea ecw | rx ry rw rh | qx qy qw qh qr ];
    unfold perform.
  - rewrite beginPath_spec. intros [= <- <-]. unfold unaccounted. simpl.
    rewrite length_rev. lia.
  - intros [= H]. apply appends_unaccounted.
    pose proof (closePath_appends p pl) as Ha. rewrite H in Ha. exact Ha.
  - intros [= H]. destruct (triangulatePath_Ok earcut p pl p' pl' H) as (Hp & _ & Hl & Hpull & Hpush).
    unfold unaccounted. rewrite Hp, Hl, Hpull, Hpush. lia.
  - rewrite moveTo_spec. intros [= <- <-]. apply appends_unaccounted, appends_one.
  - rewrite lineTo_spec. intros [= <- <-]. apply appends_unaccounted, appends_one.
  - destruct (arc _ _ _ _ _ _ _ _ _ _ _) as [[q ql]|] eqn:E; simpl; [|discriminate].
    intros [= <- <-]. apply appends_unaccounted. eapply arc_appends; eauto.
  - destruct (arcTo_cases cos sin sqrt tan pow atan2 fuel p pl x1 y1 x2 y2 radius)
      as [[_ Hrun] | (current & _ & [Hnone | (rest & Hrun)])];
      cbv zeta in *; rewrite ?Hrun, ?Hnone; try discriminate.
    intros [= <- <-]. apply appends_unaccounted. eexists (_ :: rest). split; reflexivity.
  - destruct (ellipse _ _ _ _ _ _ _ _ _ _ _ _ _) as [[q ql]|] eqn:E; simpl; [|discriminate].
    intros [= <- <-]. apply appends_unaccounted. eapply ellipse_appends; eauto.
  - intros [= H]. apply appends_unaccounted.
    pose proof (rect_appends p pl rx ry rw rh) as Ha. rewrite H in Ha. exact Ha.
  - intros H.
    pose proof (roundRect_appended cos sin sqrt tan pow atan2 fuel p pl qx qy qw qh qr)
      as Ha.
    rewrite H in Ha. apply appends_unaccounted, Ha.
Qed.

(** X10.  No point is lost.  Over any sequence of calls that return, the
    number of pulls less the number of pushes moves with the number of
    points the path holds in [points] and [vertices]: each point pulled
    is put into one of the two sequences, and each point taken out of one
    is pushed. *)
Theorem pool_conservation (fuel : nat) (calls : list call) (p : Path2D) (pl : pool) :
  match run cos sin sqrt tan pow atan2 earcut fuel calls p pl with
  | Some (Ok (p', pl')) => unaccounted p' pl' = unaccounted p pl
  | _ => True
  end.
Proof.
  revert p pl. induction calls as [|c rest IH]; intros p pl; simpl.
  - reflexivity.
  - destruct (Drawing.perform _ _ _ _ _ _ _ _ _ _ _) as [[[q ql]|e]|] eqn:E; try exact I.
    specialize (IH q ql).
    destruct (Drawing.run _ _ _ _ _ _ _ _ _ _ _) as [[[p' pl']|e]|]; try exact I.
    rewrite IH. eapply perform_unaccounted; eauto.
Qed.

End RunFacts.


End DrawingFacts.

(* ================================================================== *)
(** * TMX: more on property values and decoding *)
(* ================================================================== *)

Module TMXMoreFacts.

Import JSNumber JS TMX TMXFacts TMXArrays.
Local Open Scope string_scope.

(** ** [decodeCSV] *)

Lemma split_commas_length l : forall current,
  length (split_commas l current) = S (count_commas l).
Proof.
  induction l as [|c l IH]; intros current; simpl; [reflexivity|].
  destruct (nat_of_ascii c =? 44)%nat; simpl; rewrite IH; reflexivity.
Qed.

Lemma count_commas_app l k : count_commas (l ++ k) = (count_commas l + count_commas k)%nat.
Proof. induction l as [|c l IH]; simpl; [reflexivity|]. rewrite IH. lia. Qed.

Lemma count_commas_rev l : count_commas (rev l) = count_commas l.
Proof.
  induction l as [|c l IH]; simpl; [reflexivity|].
  rewrite count_commas_app, IH. simpl. lia.
Qed.

(** Of the code units a character can be, [trim] removes 9 to 13, 32
    and 160. *)
Lemma is_space_code_units c :
  is_space c = true <-> In (nat_of_ascii c) [9; 10; 11; 12; 13; 32; 160]%nat.
Proof.
  split.
  - destruct c as [[] [] [] [] [] [] [] []]; vm_compute; intros H;
      try discriminate H; auto 10.
  - intros H. simpl in H.
    repeat (destruct H as [H|H];
            [rewrite <- (ascii_nat_embedding c), <- H; reflexivity|]).
    destruct H.
Qed.

Lemma is_space_not_comma c : is_space c = true -> (nat_of_ascii c =? 44)%nat = false.
Proof.
  unfold is_space. intros H. apply Nat.eqb_neq. intros E. rewrite E in H. discriminate.
Qed.

Lemma count_commas_trim_start l : count_commas (trim_start l) = count_commas l.
Proof.
  induction l as [|c l IH]; simpl; [reflexivity|].
  destruct (is_space c) eqn:E; [|reflexivity].
  rewrite IH, (is_space_not_comma c E). reflexivity.
Qed.

Lemma count_commas_trim l : count_commas (trim l) = count_commas l.
Proof.
  unfold trim.
  rewrite count_commas_rev, count_commas_trim_start, count_commas_rev, count_commas_trim_start.
  reflexivity.
Qed.

Lemma count_commas_remove_first_newline l :
  count_commas (remove_first_newline l) = count_commas l.
Proof.
  induction l as [|c l IH]; simpl; [reflexivity|].
  destruct (nat_of_ascii c =? 10)%nat eqn:E; simpl.
  - apply Nat.eqb_eq in E. rewrite E. reflexivity.
  - rewrite IH. reflexivity.
Qed.

Section CSVFacts.

Variable ToNumber : val -> number.

(** X11.  [decodeCSV] returns one number per piece of its input, that is
    one more than the input has commas: removing the first line feed and
    trimming leave the commas alone, and a piece that is empty, the whole
    of an empty input included, still gives an entry.  Anything but a
    string makes it throw a [TypeError]. *)
Theorem decodeCSV_entries (input : val) :
  match input with
  | VString s =>
      exists entries,
        decodeCSV ToNumber input = Ok (VArray (map VNumber entries))
        /\ length entries = S (commas s)
  | _ => decodeCSV ToNumber input = Throw TypeError
  end.
Proof.
  destruct input as [| | | |s| | |]; try reflexivity.
  unfold decodeCSV.
  set (pieces := split_commas _ _).
  exists (map (fun e => ToNumber (VString (string_of_list_ascii e))) pieces). split.
  - rewrite map_map. reflexivity.
  - rewrite length_map. unfold pieces.
    rewrite split_commas_length, count_commas_trim, count_commas_remove_first_newline.
    reflexivity.
Qed.

End CSVFacts.

(** ** [decodeBase64AsArray] *)

(** The wrapping additions of the inner loop add up to the little-endian
    value of the entry, for entries of one to four bytes. *)
Lemma add_bytes_little_endian dec bytes i :
  Forall is_byte dec -> (1 <= bytes <= 4)%nat ->
  add_bytes dec bytes i (rev (seq 0 bytes)) 0%Z = little_endian dec (i * bytes) bytes.
Proof.
  intros H Hb.
  assert (Hcases : bytes = 1%nat \/ bytes = 2%nat \/ bytes = 3%nat \/ bytes = 4%nat) by lia.
  pose proof (charCodeAt_range dec (i * bytes) H) as H0.
  pose proof (charCodeAt_range dec (S (i * bytes)) H) as H1.
  pose proof (charCodeAt_range dec (S (S (i * bytes))) H) as H2.
  pose proof (charCodeAt_range dec (S (S (S (i * bytes)))) H) as H3.
  unfold is_byte in *.
  destruct Hcases as [-> | [-> | [-> | ->]]]; simpl;
    rewrite ?Nat.add_0_r;
    replace (i * 2 + 1)%nat with (S (i * 2)) by lia;
    replace (i * 3 + 1)%nat with (S (i * 3)) by lia;
    replace (i * 3 + 2)%nat with (S (S (i * 3))) by lia;
    replace (i * 4 + 1)%nat with (S (i * 4)) by lia;
    replace (i * 4 + 2)%nat with (S (S (i * 4))) by lia;
    replace (i * 4 + 3)%nat with (S (S (S (i * 4)))) by lia;
    match goal with
    | |- context [charCodeAt dec (?i * ?b)] =>
        set (b0 := charCodeAt dec (i * b)) in *;
        set (b1 := charCodeAt dec (S (i * b))) in *;
        set (b2 := charCodeAt dec (S (S (i * b)))) in *;
        set (b3 := charCodeAt dec (S (S (S (i * b))))) in *
    end;
    clearbody b0 b1 b2 b3;
    change (shl (Z.of_nat 3) 3) with 24%Z;
    change (shl (Z.of_nat 2) 3) with 16%Z;
    change (shl (Z.of_nat 1) 3) with 8%Z;
    change (shl (Z.of_nat 0) 3) with 0%Z;
    unfold shl, to_int32, to_uint32;
    change (24 mod 32)%Z with 24%Z; change (16 mod 32)%Z with 16%Z;
    change (8 mod 32)%Z with 8%Z; change (0 mod 32)%Z with 0%Z;
    rewrite !Z.shiftl_mul_pow2 by lia;
    change (2 ^ 24)%Z with 16777216%Z; change (2 ^ 16)%Z with 65536%Z;
    change (2 ^ 8)%Z with 256%Z; change (2 ^ 0)%Z with 1%Z;
    change (2 ^ 31)%Z with 2147483648%Z; change (2 ^ 32)%Z with 4294967296%Z;
    Z.div_mod_to_equations; lia.
Qed.

Lemma little_endian_range dec bytes : forall k,
  Forall is_byte dec -> (0 <= little_endian dec k bytes < 256 ^ Z.of_nat bytes)%Z.
Proof.
  induction bytes as [|bytes IH]; intros k H.
  - simpl. lia.
  - pose proof (charCodeAt_range dec k H) as H0. unfold is_byte in H0.
    specialize (IH (S k) H).
    rewrite Nat2Z.inj_succ, Z.pow_succ_r by lia. simpl. lia.
Qed.

(** X12.  Entries of one to four bytes.  When the characters of the input
    that belong to the base64 alphabet decode to the character codes
    [dec], [decodeBase64AsArray(input, bytes)] returns
    [floor(dec.length / bytes)] entries, entry [i] being the little-endian
    value of the [bytes] codes from [i * bytes] on, so below
    [256 ^ bytes]; the codes left over at the end are dropped.  A missing
    or zero [bytes] counts as one. *)
Theorem decodeBase64AsArray_entries (s : string) (bytes : nat) (dec : list Z) :
  (bytes <= 4)%nat ->
  atob (string_of_list_ascii (filter is_base64_char (list_ascii_of_string s))) = Ok dec ->
  let size := if (bytes =? 0)%nat then 1%nat else bytes in
  let entries := map (fun i => little_endian dec (i * size) size) (seq 0 (length dec / size)) in
  decodeBase64AsArray (VString s) bytes = Ok entries
  /\ Forall (fun w => 0 <= w < 256 ^ Z.of_nat size)%Z entries.
Proof.
  intros Hb Hdec size entries.
  assert (Hsize : (1 <= size <= 4)%nat).
  { unfold size. destruct (Nat.eqb_spec bytes 0); lia. }
  pose proof (atob_range _ _ Hdec) as Hbytes.
  split.
  - unfold decodeBase64AsArray. fold size. rewrite Hdec. unfold bind. f_equal.
    apply list_eq. intros i. rewrite fill_words_lookup, length_replicate.
    unfold entries.
    destruct (decide _) as [[H1 H2]|H].
    + rewrite add_bytes_little_endian by assumption.
      rewrite list_lookup_fmap, lookup_seq_lt by lia. reflexivity.
    + assert (Hi : (length dec / size <= i)%nat).
      { destruct (le_lt_dec (length dec / size) i) as [Hi|Hi]; [exact Hi|].
        exfalso. apply H. split; [|exact Hi]. split; [lia|].
        assert (length dec / size <= (length dec + size - 1) / size)%nat; [|lia].
        apply Nat.Div0.div_le_mono. lia. }
      rewrite list_lookup_fmap, lookup_seq_ge by lia.
      apply lookup_replicate_None. lia.
  - apply Forall_fmap, Forall_forall. intros i _. apply little_endian_range. exact Hbytes.
Qed.

(** The six bytes of ["AQIDBAUG"], two per entry: 0x0201, 0x0403, 0x0605. *)
Lemma decodeBase64AsArray_entries_witness :
  atob "AQIDBAUG" = Ok [1; 2; 3; 4; 5; 6]%Z
  /\ decodeBase64AsArray (VString "AQIDBAUG") 2 = Ok [513; 1027; 1541]%Z.
Proof.
  split; [reflexivity|].
  apply (proj1 (decodeBase64AsArray_entries "AQIDBAUG" 2 [1; 2; 3; 4; 5; 6]%Z
                  ltac:(lia) eq_refl)).
Defined.


(** ** [setTMXValue] *)

Lemma length_append (a b : string) :
  String.length (a ++ b) = (String.length a + String.length b)%nat.
Proof. induction a as [|c a IH]; simpl; [reflexivity|]. rewrite IH. reflexivity. Qed.

Lemma all_hex_append (a b : string) : all_hex (a ++ b) = all_hex a && all_hex b.
Proof.
  induction a as [|c a IH]; simpl; [reflexivity|]. rewrite IH, andb_assoc. reflexivity.
Qed.

Lemma substring_whole (a : string) : substring 0 (String.length a) a = a.
Proof. induction a as [|c a IH]; simpl; [reflexivity|]. rewrite IH. reflexivity. Qed.

Lemma substring_append_l (a b : string) : substring 0 (String.length a) (a ++ b) = a.
Proof. induction a as [|c a IH]; simpl; [destruct b|rewrite IH]; reflexivity. Qed.

Lemma substring_append_r (a b : string) :
  substring (String.length a) (String.length b) (a ++ b) = b.
Proof. induction a as [|c a IH]; simpl; [apply substring_whole|exact IH]. Qed.

Lemma match_color_groups (m n : nat) (a b : string) :
  String.length a = m -> String.length b = n ->
  all_hex a = true -> all_hex b = true ->
  match_color m n ("#" ++ a ++ b) = Some (a, b).
Proof.
  intros <- <- Ha Hb. unfold match_color.
  change ("#" ++ a ++ b) with (String "#"%char (a ++ b)). cbv iota beta.
  rewrite length_append, Nat.eqb_refl, all_hex_append, Ha, Hb.
  rewrite substring_append_l, substring_append_r. reflexivity.
Qed.

Section MorePropertiesFacts.

Variables isBoolean isNumeric : string -> bool.
Variable Number_of_string : string -> number.
Variables JSON_parse evaluate : string -> result val.

(** X13.  Colours.  With a type other than ["int"], ["float"] and
    ["bool"], a colour written [#ARGB] or [#AARRGGBB], that the helpers
    find neither boolean nor numeric, comes back with the alpha group
    moved to the end, [#RGBA] or [#RRGGBBAA], whatever the property is
    named. *)
Theorem setTMXValue_colour (name : string) (type : val) (alpha rgb : string) :
  is_string type "int" = false -> is_string type "float" = false ->
  is_string type "bool" = false ->
  (String.length alpha = 1%nat /\ String.length rgb = 3%nat)
  \/ (String.length alpha = 2%nat /\ String.length rgb = 6%nat) ->
  all_hex alpha = true -> all_hex rgb = true ->
  isBoolean ("#" ++ alpha ++ rgb) = false -> isNumeric ("#" ++ alpha ++ rgb) = false ->
  setTMXValue isBoolean isNumeric Number_of_string JSON_parse evaluate name type
    (VString ("#" ++ alpha ++ rgb))
    = Ok (VString ("#" ++ rgb ++ alpha)).
Proof.
  intros Hi Hf Hb Hlen Ha Hrgb Hbool Hnum.
  rewrite setTMXValue_default by assumption.
  assert (Hint : interpret isBoolean isNumeric Number_of_string JSON_parse evaluate
                   ("#" ++ alpha ++ rgb) = Ok (VString ("#" ++ rgb ++ alpha))).
  { unfold interpret. rewrite Hbool, Hnum.
    change (truthy (VString ("#" ++ alpha ++ rgb))) with true.
    change (starts_with_ci "json:" ("#" ++ alpha ++ rgb)) with false.
    change (starts_with_ci "eval:" ("#" ++ alpha ++ rgb)) with false.
    cbv iota. simpl negb. cbv iota.
    destruct Hlen as [[H1 H2] | [H1 H2]].
    - rewrite (match_color_groups 1 3) by assumption. reflexivity.
    - assert (Hno : match_color 1 3 ("#" ++ alpha ++ rgb) = None).
      { unfold match_color.
        change ("#" ++ alpha ++ rgb) with (String "#"%char (alpha ++ rgb)). cbv iota beta.
        rewrite length_append, H1, H2. reflexivity. }
      rewrite Hno, (match_color_groups 2 6) by assumption. reflexivity. }
  rewrite Hint. unfold normalize_named.
  destruct (is_ratio_or_anchorPoint name); reflexivity.
Qed.

(** X14.  The only exceptions.  [setTMXValue] throws in its default case
    only, that is for a string and a type other than ["int"], ["float"]
    and ["bool"], and there in three cases, in each of which it does
    throw: the string, neither boolean nor numeric for the helpers,
    starts with [json:] (in any letter case) and [JSON.parse] rejects the
    payload, the exception being the [Error] that names the payload; it
    starts with [eval:] and the evaluation of the payload throws,
    likewise; or the chain of tests went through and the name is not a
    string, [name.search] being then no function and the exception a
    [TypeError].  So with a name that is a string only the two payloads
    make it throw. *)
Theorem setTMXValue_exceptions (name type value : val) (e : exn) :
  let payload_fails (s : string) :=
    isBoolean s = false /\ isNumeric s = false
    /\ ((starts_with_ci "json:" s = true
         /\ (exists e', JSON_parse (after_prefix "json:" s) = Throw e')
         /\ e = Error ("Unable to parse JSON: " ++ after_prefix "json:" s))
        \/ (starts_with_ci "json:" s = false /\ starts_with_ci "eval:" s = true
            /\ (exists e', evaluate (after_prefix "eval:" s) = Throw e')
            /\ e = Error ("Unable to evaluate: " ++ after_prefix "eval:" s))) in
  let default_case (s : string) :=
    value = VString s
    /\ is_string type "int" = false /\ is_string type "float" = false
    /\ is_string type "bool" = false in
  (TMXParse.setTMXValue_of isBoolean isNumeric Number_of_string JSON_parse evaluate
     name type value = Throw e
   <-> exists s,
         default_case s
         /\ (payload_fails s
             \/ ((exists v, interpret isBoolean isNumeric Number_of_string JSON_parse evaluate s
                              = Ok v)
                 /\ (forall n, name <> VString n) /\ e = TypeError)))
  /\ (forall n,
        setTMXValue isBoolean isNumeric Number_of_string JSON_parse evaluate n type value
          = Throw e
        <-> exists s, default_case s /\ payload_fails s).
Proof.
  intros payload_fails default_case.
  assert (Hchain : forall s,
            interpret isBoolean isNumeric Number_of_string JSON_parse evaluate s = Throw e
            <-> payload_fails s).
  { intros s. unfold interpret, payload_fails. split.
    - intros H.
      destruct (negb (truthy (VString s))); [discriminate|].
      destruct (isBoolean s); [discriminate|]. simpl in H.
      destruct (isNumeric s); [discriminate|].
      split; [reflexivity|]. split; [reflexivity|].
      destruct (starts_with_ci "json:" s).
      + destruct (JSON_parse _) as [v|e'] eqn:Hp; [discriminate|].
        injection H as <-. left. eauto.
      + destruct (starts_with_ci "eval:" s).
        * destruct (evaluate _) as [v|e'] eqn:Hp; [discriminate|].
          injection H as <-. right. eauto.
        * destruct (match_color 1 3 s) as [[g1 g2]|]; [discriminate|].
          destruct (match_color 2 6 s) as [[g1 g2]|]; discriminate.
    - intros (Hb & Hn & [(Hj & [e' Hp] & ->) | (Hj & He & [e' Hp] & ->)]).
      + rewrite (starts_with_ci_truthy "json:" s) by (discriminate || exact Hj).
        rewrite Hb, Hn, Hj, Hp. reflexivity.
      + rewrite (starts_with_ci_truthy "eval:" s) by (discriminate || exact He).
        rewrite Hb, Hn, Hj, He, Hp. reflexivity. }
  split.
  - unfold TMXParse.setTMXValue_of, default_case. split.
    + destruct value as [| | | |s| | |]; try discriminate.
      destruct (is_string type "int") eqn:Hi; [discriminate|].
      destruct (is_string type "float") eqn:Hf; [discriminate|].
      destruct (is_string type "bool") eqn:Hb; [discriminate|].
      simpl.
      destruct (interpret _ _ _ _ _ s) as [v|e'] eqn:Hint; simpl.
      * destruct name; try discriminate; intros [= <-]; exists s;
          (split; [repeat split|]); right;
          (split; [eauto|]); (split; [discriminate|reflexivity]).
      * intros [= <-]. exists s. split; [repeat split|]. left. apply Hchain. exact Hint.
    + intros (s & (-> & Hi & Hf & Hb) & [Hfails | ([v Hv] & Hname & ->)]);
        rewrite Hi, Hf, Hb; simpl.
      * apply Hchain in Hfails. rewrite Hfails. reflexivity.
      * rewrite Hv. simpl. destruct name; try reflexivity.
        exfalso. eapply Hname. reflexivity.
  - intros n. unfold setTMXValue, default_case. split.
    + destruct value as [| | | |s| | |]; try discriminate.
      destruct (is_string type "int") eqn:Hi; [discriminate|].
      destruct (is_string type "float") eqn:Hf; [discriminate|].
      destruct (is_string type "bool") eqn:Hb; [discriminate|].
      simpl.
      destruct (interpret _ _ _ _ _ s) as [v|e'] eqn:Hint; simpl; [discriminate|].
      intros [= <-]. exists s. split; [repeat split|]. apply Hchain. exact Hint.
    + intros (s & (-> & Hi & Hf & Hb) & Hfails). rewrite Hi, Hf, Hb. simpl.
      apply Hchain in Hfails. rewrite Hfails. reflexivity.
Qed.

End MorePropertiesFacts.

(** The colour ["#80ff0000"], half-transparent red. *)
Lemma setTMXValue_colour_witness :
  setTMXValue Sample.isBoolean Sample.isNumeric Sample.Number_of_string
    Sample.JSON_parse Sample.evaluate "tint" (VString "color") (VString "#80ff0000")
  = Ok (VString "#ff000080").
Proof.
  apply (setTMXValue_colour Sample.isBoolean Sample.isNumeric Sample.Number_of_string
           Sample.JSON_parse Sample.evaluate "tint" (VString "color") "80" "ff0000");
    try reflexivity.
  right. split; reflexivity.
Defined.

(** ** [decode] *)

Section MoreDecodingFacts.

Variable ToNumber : val -> number.
Variable ToString : val -> string.

(** X15.  What [decode] throws.  With no encoding, or the encoding
    ["none"], [decode] returns the data as it is, whatever the
    compression.  It throws in four cases, and in these only: with
    ["csv"], a [TypeError] for data that is not a string (the compression
    plays no part); with ["base64"], what the base64 decoding throws, or
    else the error of [decompress] when the compression is neither absent
    nor ["none"]; with ["xml"], the error of the deprecated encoding; with
    any other encoding, an [Error] that names it. *)
Theorem decode_throws (data encoding compression : val) :
  let chosen := or_else encoding (VString "none") in
  (is_string chosen "none" = true ->
     decode ToNumber ToString data encoding compression = Ok data)
  /\ (forall e,
        decode ToNumber ToString data encoding compression = Throw e
        <-> (is_string chosen "csv" = true /\ e = TypeError /\ forall s, data <> VString s)
            \/ (is_string chosen "base64" = true
                /\ (decodeBase64AsArray data 4 = Throw e
                    \/ (exists words, decodeBase64AsArray data 4 = Ok words)
                       /\ is_string (or_else compression (VString "none")) "none" = false
                       /\ e = Error "GZIP/ZLIB compressed TMX Tile Map not supported!"))
            \/ (is_string chosen "xml" = true
                /\ e = Error "XML encoding is deprecated, use base64 instead")
            \/ (is_string chosen "csv" = false /\ is_string chosen "base64" = false
                /\ is_string chosen "none" = false /\ is_string chosen "xml" = false
                /\ e = Error ("Unknown layer encoding: " ++ ToString chosen))).
Proof.
  intros chosen.
  assert (Hone : forall a b, a <> b ->
            is_string chosen a = true -> is_string chosen b = false).
  { intros a b Hab Ha. destruct chosen; try reflexivity. simpl in *.
    apply String.eqb_eq in Ha. subst. apply String.eqb_neq. exact Hab. }
  unfold decode. fold chosen.
  destruct (is_string chosen "csv") eqn:Hcsv.
  - split.
    + intros Hnone. rewrite (Hone "csv" "none") in Hnone by (discriminate || assumption).
      discriminate.
    + intros e. split.
      * intros H. left. split; [reflexivity|].
        destruct data; simpl in H; try discriminate; injection H as <-;
          (split; [reflexivity|]); intros s'; discriminate.
      * intros [(_ & -> & Hdata) | [(Hb & _) | [(Hx & _) | (Hc & _)]]].
        -- destruct data; try reflexivity. exfalso. eapply Hdata. reflexivity.
        -- rewrite (Hone "csv" "base64") in Hb by (discriminate || assumption). discriminate.
        -- rewrite (Hone "csv" "xml") in Hx by (discriminate || assumption). discriminate.
        -- discriminate.
  - destruct (is_string chosen "base64") eqn:Hb64.
    + split.
      * intros Hnone. rewrite (Hone "base64" "none") in Hnone by (discriminate || assumption).
        discriminate.
      * intros e. split.
        -- intros H. right. left. split; [reflexivity|].
           destruct (decodeBase64AsArray data 4) as [words|e'] eqn:Hd; simpl in H.
           ++ right. split; [eauto|].
              destruct (is_string (or_else compression (VString "none")) "none");
                [discriminate|]. split; [reflexivity|].
              unfold decompress in H. injection H as <-. reflexivity.
           ++ left. injection H as <-. reflexivity.
        -- intros [(Hc & _) | [(_ & [Hd | ([words Hd] & Hn & ->)]) | [(Hx & _) | (_ & Hb & _)]]].
           ++ discriminate.
           ++ rewrite Hd. reflexivity.
           ++ rewrite Hd. simpl. rewrite Hn. reflexivity.
           ++ rewrite (Hone "base64" "xml") in Hx by (discriminate || assumption). discriminate.
           ++ discriminate.
    + destruct (is_string chosen "none") eqn:Hnone.
      * split; [reflexivity|]. intros e. split; [discriminate|].
        intros [(Hc & _) | [(Hb & _) | [(Hx & _) | (_ & _ & Hn & _)]]]; try discriminate.
        rewrite (Hone "none" "xml") in Hx by (discriminate || assumption). discriminate.
      * split; [discriminate|]. intros e.
        destruct (is_string chosen "xml") eqn:Hxml.
        -- split.
           ++ intros H. right. right. left. split; [reflexivity|]. injection H as <-. reflexivity.
           ++ intros [(Hc & _) | [(Hb & _) | [(_ & ->) | (_ & _ & _ & Hx & _)]]];
                try discriminate. reflexivity.
        -- split.
           ++ intros H. right. right. right. repeat split. injection H as <-. reflexivity.
           ++ intros [(Hc & _) | [(Hb & _) | [(Hx & _) | (_ & _ & _ & _ & ->)]]];
                try discriminate. reflexivity.
Qed.

End MoreDecodingFacts.

(** ** The "data" case of [normalize], without chunks *)

Section MoreNormalizeFacts.

Variable ToNumber : val -> number.
Variable ToString : val -> string.

Lemma normalize_data_without_chunks (obj data : gmap string val) :
  defined (get data "chunks") = false ->
  normalize_data ToNumber ToString obj data =
    if defined (get data "text") && negb (defined (get obj "chunks")) then
      match decode ToNumber ToString (get data "text")
              (or_else (get data "encoding") (VString "xml")) (get data "compression") with
      | Ok decoded => Ok (<["encoding" := VString "none"]> (<["data" := decoded]> obj))
      | Throw e => Throw e
      end
    else Ok obj.
Proof.
  intros Hchunks.
  unfold normalize_data. rewrite !get_insert. simpl. rewrite Hchunks. simpl.
  destruct (defined (get data "text") && negb (defined (get obj "chunks")));
    [|reflexivity].
  destruct (decode _ _ _ _ _); reflexivity.
Qed.

(** X16.  A [data] node of a finite map.  When the parsed record has no
    [chunks], its [text] is decoded into [obj.data], with the encoding
    ["none"] recorded, only if [obj.chunks] is not defined; when
    [obj.chunks] is defined, or when there is no [text], [obj] is
    returned as it is.  The encoding used is that of the record, and
    ["xml"] when it has none: text in a [data] node without an
    [encoding] then makes the call throw the error of the deprecated XML
    encoding. *)
Theorem normalize_data_finite (obj data : gmap string val) :
  defined (get data "chunks") = false ->
  normalize_data ToNumber ToString obj data =
    (if defined (get data "text") && negb (defined (get obj "chunks")) then
       match decode ToNumber ToString (get data "text")
               (or_else (get data "encoding") (VString "xml")) (get data "compression") with
       | Ok decoded => Ok (<["encoding" := VString "none"]> (<["data" := decoded]> obj))
       | Throw e => Throw e
       end
     else Ok obj)
  /\ (truthy (get data "encoding") = false ->
      decode ToNumber ToString (get data "text")
        (or_else (get data "encoding") (VString "xml")) (get data "compression")
      = Throw (Error "XML encoding is deprecated, use base64 instead")).
Proof.
  intros Hchunks. split.
  - apply normalize_data_without_chunks. exact Hchunks.
  - intros He. unfold or_else. rewrite He. unfold decode.
    destruct (truthy (or_else (get data "compression") (VString "none"))); reflexivity.
Qed.

End MoreNormalizeFacts.

(** The CSV text of a two by two layer, decoded into an empty layer
    record. *)
Lemma normalize_data_finite_witness :
  normalize_data Sample.ToNumber Sample.ToString ∅
    (<["encoding" := VString "csv"]> (<["text" := VString "1,2,3,4"]> ∅))
  = Ok (<["encoding" := VString "none"]>
          (<["data" := VArray [VNumber 1; VNumber 2; VNumber 3; VNumber 4]%float]> ∅)).
Proof.
  destruct (normalize_data_finite Sample.ToNumber Sample.ToString ∅
              (<["encoding" := VString "csv"]> (<["text" := VString "1,2,3,4"]> ∅)))
    as [Hrun _]; [vm_compute; reflexivity|].
  rewrite Hrun. vm_compute. reflexivity.
Defined.

End TMXMoreFacts.

(* ================================================================== *)
(** * TMX: parse, normalize and applyTMXProperties *)
(* ================================================================== *)

Module TMXParseFacts.

Import JSNumber JS TMX TMXFacts TMXMoreFacts TMXParse.
Local Open Scope string_scope.

Lemma append_assoc (a b c : string) : (a ++ b) ++ c = a ++ b ++ c.
Proof.
  induction a as [|x a IH]; [reflexivity|].
  change (String x ((a ++ b) ++ c) = String x (a ++ b ++ c)). rewrite IH. reflexivity.
Qed.

Lemma append_empty_r (a : string) : a ++ "" = a.
Proof.
  induction a as [|x a IH]; [reflexivity|].
  change (String x (a ++ "") = String x a). rewrite IH. reflexivity.
Qed.

(** ** [parseAttributes] *)

Lemma set_attribute_lookup obj attribute k :
  k <> "__proto__" ->
  set_attribute obj attribute !! k =
    if decide (fst attribute = k) then Some (VString (snd attribute)) else obj !! k.
Proof.
  intros Hk. unfold set_attribute, sets_prototype.
  destruct (String.eqb_spec (fst attribute) "__proto__") as [E|E]; simpl.
  - destruct (bool_decide _); simpl.
    + rewrite lookup_insert. destruct (decide (fst attribute = k)); reflexivity.
    + destruct (decide (fst attribute = k)); [congruence|reflexivity].
  - rewrite lookup_insert. destruct (decide (fst attribute = k)); reflexivity.
Qed.

(** Each attribute becomes a property whose value is a string, the last
    attribute of a name winning. *)
Lemma parseAttributes_lookup attributes : forall obj k,
  k <> "__proto__" ->
  parseAttributes obj attributes !! k =
    match find (fun a => bool_decide (fst a = k)) (rev attributes) with
    | Some a => Some (VString (snd a))
    | None => obj !! k
    end.
Proof.
  unfold parseAttributes.
  induction attributes as [|a attributes IH] using rev_ind; intros obj k Hk; [reflexivity|].
  rewrite fold_left_app, rev_app_distr. simpl.
  rewrite set_attribute_lookup by assumption.
  destruct (decide (fst a = k)) as [E|E].
  - rewrite bool_decide_eq_true_2 by assumption. reflexivity.
  - rewrite bool_decide_eq_false_2 by assumption. apply IH. exact Hk.
Qed.

Section ParseFacts.

Variables isBoolean isNumeric : string -> bool.
Variable Number_of_string : string -> number.
Variables JSON_parse evaluate : string -> result val.
Variable ToNumber : val -> number.
Variable ToString : val -> string.
Variable trim : string -> string.

Lemma parse_children_leaves nodes : forall obj text,
  forallb (fun child => negb (is_element child)) nodes = true ->
  parse_children isBoolean isNumeric Number_of_string JSON_parse evaluate ToNumber ToString trim
    (parse isBoolean isNumeric Number_of_string JSON_parse evaluate ToNumber ToString trim)
    nodes obj text
  = Some (Ok (with_text obj (text ++ gathered_text trim nodes))).
Proof.
  induction nodes as [|item rest IH]; intros obj text Hleaf; simpl.
  - rewrite append_empty_r. reflexivity.
  - simpl in Hleaf. apply andb_true_iff in Hleaf as [Hitem Hrest].
    destruct item as [name attributes childNodes|nodeValue|name childNodes];
      [discriminate Hitem| |].
    + rewrite IH by assumption. rewrite append_assoc. reflexivity.
    + apply IH. assumption.
Qed.

(** The record of an element without child elements. *)
Lemma parse_leaf_record item :
  is_element item = true -> is_leaf item = true ->
  parse isBoolean isNumeric Number_of_string JSON_parse evaluate ToNumber ToString trim item
    = Some (Ok (leaf_record trim item)).
Proof.
  destruct item as [name attributes childNodes| |]; try discriminate.
  intros _ Hleaf. simpl. apply parse_children_leaves. exact Hleaf.
Qed.

(** X17.  Elements without child elements.  [parse] returns for such an
    element the record of its attributes, each one a string property, the
    last attribute of a name winning, with the property [text] set, over
    an attribute of that name, to what the text nodes hold: their values,
    each one as [String.prototype.trim] returns it, put end to end.  When
    that is empty the text nodes give no [text].  This holds whatever
    [trim] removes. *)
Theorem parse_leaf (name : string) (attributes : list (string * string))
    (childNodes : list node) :
  is_leaf (Element name attributes childNodes) = true ->
  let text := gathered_text trim childNodes in
  let obj := with_text (parseAttributes ∅ attributes) text in
  let attribute k :=
    (fun a => VString (snd a)) <$> find (fun a => bool_decide (fst a = k)) (rev attributes) in
  parse isBoolean isNumeric Number_of_string JSON_parse evaluate ToNumber ToString trim
    (Element name attributes childNodes) = Some (Ok obj)
  /\ (forall k, k <> "__proto__" -> k <> "text" -> obj !! k = attribute k)
  /\ obj !! "text" = (if String.eqb text "" then attribute "text" else Some (VString text)).
Proof.
  intros Hleaf text obj attribute.
  split; [apply (parse_leaf_record (Element name attributes childNodes) eq_refl Hleaf)|].
  assert (Hattr : forall k, k <> "__proto__" -> parseAttributes ∅ attributes !! k = attribute k).
  { intros k Hk. rewrite parseAttributes_lookup by assumption. unfold attribute.
    destruct (find _ _); reflexivity. }
  unfold obj, with_text. split.
  - intros k Hk Ht. destruct (truthy (VString text)).
    + rewrite lookup_insert_ne by congruence. apply Hattr, Hk.
    + apply Hattr, Hk.
  - destruct text as [|c text']; simpl.
    + apply Hattr. discriminate.
    + apply lookup_insert_eq.
Qed.



(** ** Children gathered in arrays *)

Lemma normalize_parsed_collects tag obj parsed :
  tag = "chunk" \/ tag = "frame" \/ tag = "object" ->
  normalize_parsed isBoolean isNumeric Number_of_string JSON_parse evaluate ToNumber ToString
    obj tag parsed
  = Some (push_onto obj (tag ++ "s") (VObject parsed)).
Proof. intros [-> | [-> | ->]]; reflexivity. Qed.

Lemma get_insert_eq (o : record) k v : get (<[k := v]> o) k = v.
Proof. unfold get. rewrite lookup_insert_eq. reflexivity. Qed.

Lemma pushed_onto_push o k old entry :
  or_else (get o k) (VArray []) = VArray old ->
  push_onto o k entry = Ok (pushed_onto o k [entry])
  /\ or_else (get (pushed_onto o k [entry]) k) (VArray []) = VArray (old ++ [entry])
  /\ forall entries,
       pushed_onto (pushed_onto o k [entry]) k entries = pushed_onto o k (entry :: entries).
Proof.
  intros Hold. unfold push_onto, pushed_onto. rewrite Hold. split; [reflexivity|].
  rewrite get_insert_eq. split; [reflexivity|].
  intros [|e entries]; [reflexivity|].
  unfold or_else. simpl. rewrite insert_insert_eq, <- app_assoc. reflexivity.
Qed.

Lemma parse_children_collects tag nodes : forall obj text old,
  tag = "chunk" \/ tag = "frame" \/ tag = "object" ->
  only_leaves_named tag nodes = true ->
  or_else (get obj (tag ++ "s")) (VArray []) = VArray old ->
  parse_children isBoolean isNumeric Number_of_string JSON_parse evaluate ToNumber ToString trim
    (parse isBoolean isNumeric Number_of_string JSON_parse evaluate ToNumber ToString trim)
    nodes obj text
  = Some (Ok (with_text
                (pushed_onto obj (tag ++ "s")
                   (map (fun item => VObject (leaf_record trim item)) (filter is_element nodes)))
                (text ++ gathered_text trim nodes))).
Proof.
  induction nodes as [|item rest IH]; intros obj text old Htag Hnodes Hold.
  - simpl. rewrite append_empty_r. reflexivity.
  - unfold only_leaves_named in Hnodes. simpl in Hnodes.
    apply andb_true_iff in Hnodes as [Hitem Hrest].
    destruct item as [name attributes childNodes|nodeValue|name childNodes].
    + simpl in Hitem. apply andb_true_iff in Hitem as [Hname Hleaf].
      apply String.eqb_eq in Hname. subst name.
      rewrite filter_cons_True by reflexivity.
      change (parse_children _ _ _ _ _ _ _ _ _ (Element tag attributes childNodes :: rest) obj text)
        with (and_then
                (parse isBoolean isNumeric Number_of_string JSON_parse evaluate ToNumber ToString trim
                   (Element tag attributes childNodes))
                (fun parsed =>
                   and_then
                     (normalize_parsed isBoolean isNumeric Number_of_string JSON_parse evaluate
                        ToNumber ToString obj tag parsed)
                     (fun obj =>
                        parse_children isBoolean isNumeric Number_of_string JSON_parse evaluate
                          ToNumber ToString trim
                          (parse isBoolean isNumeric Number_of_string JSON_parse evaluate
                             ToNumber ToString trim) rest obj text))).
      rewrite parse_leaf_record by (reflexivity || exact Hleaf).
      unfold and_then at 1. rewrite normalize_parsed_collects by assumption.
      destruct (pushed_onto_push obj (tag ++ "s") old
                  (VObject (leaf_record trim (Element tag attributes childNodes))) Hold)
        as (Hpush & Hold' & Hmerge).
      rewrite Hpush. unfold and_then.
      rewrite (IH _ text _ Htag Hrest Hold'). rewrite Hmerge. reflexivity.
    + rewrite filter_cons_False by (simpl; auto).
      simpl. rewrite (IH _ _ old Htag Hrest Hold), append_assoc. reflexivity.
    + rewrite filter_cons_False by (simpl; auto).
      simpl. apply (IH _ _ old Htag Hrest Hold).
Qed.

(** X19.  Chunks, frames and objects.  When every child element of an
    element is named [chunk] and has no child element itself, and no
    attribute of the element gives it a truthy [chunks], [parse] returns
    the record of the attributes with an array [chunks] that holds the
    records of the children in document order, and with the trimmed text
    of the text nodes, if any; an element without such children gets no
    array.  The same holds of the names [frame] and [object] with the
    arrays [frames] and [objects]. *)
Theorem parse_collects (tag name : string) (attributes : list (string * string))
    (childNodes : list node) :
  tag = "chunk" \/ tag = "frame" \/ tag = "object" ->
  only_leaves_named tag childNodes = true ->
  truthy (get (parseAttributes ∅ attributes) (tag ++ "s")) = false ->
  parse isBoolean isNumeric Number_of_string JSON_parse evaluate ToNumber ToString trim
    (Element name attributes childNodes)
  = Some (Ok (with_text
                (match filter is_element childNodes with
                 | [] => parseAttributes ∅ attributes
                 | children =>
                     <[tag ++ "s" := VArray (map (fun item => VObject (leaf_record trim item)) children)]>
                       (parseAttributes ∅ attributes)
                 end)
                (gathered_text trim childNodes))).
Proof.
  intros Htag Hnodes Hfalsy. simpl.
  rewrite (parse_children_collects tag childNodes _ "" [] Htag Hnodes)
    by (unfold or_else; rewrite Hfalsy; reflexivity).
  unfold pushed_onto, or_else. rewrite Hfalsy.
  destruct (filter is_element childNodes); reflexivity.
Qed.

(** ** [applyTMXProperties] *)

Variable enumerate : record -> list string.

(** What one round stores for a property named [name], of type [type]
    and value [value]. *)
Lemma apply_property_json properties types obj property name type value :
  hasOwnProperty_fails properties = false ->
  defined types = false ->
  defined value = true ->
  apply_property isBoolean isNumeric Number_of_string JSON_parse evaluate ToString
    properties types obj property (json_property name type value)
  = match setTMXValue isBoolean isNumeric Number_of_string JSON_parse evaluate name
            (if defined type then type else VString "string") value with
    | Ok v => store obj name v
    | Throw e => Some (Throw e)
    end.
Proof.
  intros Hown Htypes Hvalue. unfold apply_property. rewrite Hown.
  unfold json_property, member.
  assert (Hn : get (<["name" := VString name]> (<["type" := type]> (<["value" := value]> ∅)))
                 "name" = VString name) by (unfold get; rewrite lookup_insert_eq; reflexivity).
  assert (Ht : get (<["name" := VString name]> (<["type" := type]> (<["value" := value]> ∅)))
                 "type" = type).
  { unfold get. rewrite lookup_insert_ne by discriminate. rewrite lookup_insert_eq. reflexivity. }
  assert (Hv : get (<["name" := VString name]> (<["type" := type]> (<["value" := value]> ∅)))
                 "value" = value).
  { unfold get. rewrite !lookup_insert_ne by discriminate. rewrite lookup_insert_eq.
    reflexivity. }
  rewrite Hn, Ht, Hv, Htypes, Hvalue. simpl. reflexivity.
Qed.

Lemma apply_properties_json properties types (keys : nat -> string) entries : forall obj i,
  hasOwnProperty_fails properties = false ->
  defined types = false ->
  Forall (fun entry => defined (snd entry) = true) entries ->
  apply_properties isBoolean isNumeric Number_of_string JSON_parse evaluate ToString
    properties types obj
    (imap (fun j v => (keys (i + j)%nat, v))
       (map (fun entry => json_property (fst (fst entry)) (snd (fst entry)) (snd entry)) entries))
  = fold_left
      (fun (done : outcome record) entry =>
         and_then done (fun obj =>
           match setTMXValue isBoolean isNumeric Number_of_string JSON_parse evaluate
                   (fst (fst entry))
                   (if defined (snd (fst entry)) then snd (fst entry) else VString "string")
                   (snd entry) with
           | Ok v => store obj (fst (fst entry)) v
           | Throw e => Some (Throw e)
           end))
      entries (Some (Ok obj)).
Proof.
  induction entries as [|[[name type] value] entries IH]; intros obj i Hown Htypes Hdef;
    [reflexivity|].
  inversion Hdef as [|? ? Hvalue Hrest]; subst. simpl in Hvalue.
  simpl. rewrite apply_property_json by assumption.
  destruct (setTMXValue _ _ _ _ _ name _ value) as [v|e]; simpl.
  - destruct (store obj name v) as [[obj'|e]|]; simpl.
    + rewrite <- (IH obj' (S i)) by assumption.
      f_equal. apply imap_ext. intros j x _. simpl. f_equal. f_equal. lia.
    + clear. induction entries as [|entry entries IH]; [reflexivity|exact IH].
    + clear. induction entries as [|entry entries IH]; [reflexivity|exact IH].
  - clear. induction entries as [|entry entries IH]; [reflexivity|exact IH].
Qed.

(** X20.  The properties of a JSON map.  When [data.properties] is an
    array of entries that each have a [name], a [type] and a [value], and
    [data.propertytypes] is not there, [applyTMXProperties] goes through
    the entries in order and stores, under the name of each, what
    [setTMXValue] makes of its value with its type, the type ["string"]
    standing for one that is not given; the place of an entry in the
    array plays no part, a later entry of the same name replaces an
    earlier one, and the first exception of [setTMXValue] ends the call. *)
Theorem applyTMXProperties_array (obj data : record) (entries : list (string * val * val)) :
  get data "properties"
    = VArray (map (fun entry => json_property (fst (fst entry)) (snd (fst entry)) (snd entry))
                entries) ->
  get data "propertytypes" = VUndefined ->
  Forall (fun entry => defined (snd entry) = true) entries ->
  applyTMXProperties isBoolean isNumeric Number_of_string JSON_parse evaluate ToString
    enumerate obj (VObject data)
  = fold_left
      (fun (done : outcome record) entry =>
         and_then done (fun obj =>
           match setTMXValue isBoolean isNumeric Number_of_string JSON_parse evaluate
                   (fst (fst entry))
                   (if defined (snd (fst entry)) then snd (fst entry) else VString "string")
                   (snd entry) with
           | Ok v => store obj (fst (fst entry)) v
           | Throw e => Some (Throw e)
           end))
      entries (Some (Ok obj)).
Proof.
  intros Hp Ht Hdef. unfold applyTMXProperties, member. rewrite Hp, Ht. simpl.
  apply (apply_properties_json _ _ pretty entries obj 0); auto.
Qed.

(** The type that [applyTMXProperties] finds for a property whose value
    has no [type] of its own. *)
Lemma apply_property_plain (o : record) types obj property :
  o !! "hasOwnProperty" = None ->
  (types = VUndefined \/ exists t, types = VObject t) ->
  is_plain (get o property) = true ->
  apply_property isBoolean isNumeric Number_of_string JSON_parse evaluate ToString
    (VObject o) types obj property (get o property)
  = match setTMXValue isBoolean isNumeric Number_of_string JSON_parse evaluate property
            (match types with VObject t => get t property | _ => VString "string" end)
            (get o property) with
    | Ok v => store obj property v
    | Throw e => Some (Throw e)
    end.
Proof.
  intros Hown Htypes Hplain. unfold apply_property, hasOwnProperty_fails.
  rewrite Hown. rewrite bool_decide_eq_false_2 by (intros [? ?]; discriminate).
  destruct (get o property) as [| | | | | | |] eqn:Hv; try discriminate Hplain;
    destruct Htypes as [-> | [t ->]]; reflexivity.
Qed.

Lemma fold_left_failed {A B : Type} (f : outcome A -> B -> outcome A) (l : list B) r :
  (forall r b, (forall a, r <> Some (Ok a)) -> forall a, f r b <> Some (Ok a)) ->
  (forall a, r <> Some (Ok a)) -> forall a, fold_left f l r <> Some (Ok a).
Proof.
  intros Hf. revert r. induction l as [|b l IH]; intros r Hr; simpl; [exact Hr|].
  apply IH. apply Hf. exact Hr.
Qed.

Lemma store_lookup obj k v obj' :
  store obj k v = Some (Ok obj') ->
  (k <> "__proto__" -> obj' !! k = Some v) /\ (forall k', k' <> k -> obj' !! k' = obj !! k').
Proof.
  unfold store, sets_prototype. destruct (String.eqb_spec k "__proto__") as [E|E]; simpl.
  - destruct (bool_decide _); simpl.
    + intros [= <-]. split; [congruence|]. intros k' Hk'. apply lookup_insert_ne. congruence.
    + destruct v; intros [= <-]; split; try congruence; reflexivity.
  - intros [= <-]. split; [intros _; apply lookup_insert_eq|].
    intros k' Hk'. apply lookup_insert_ne. congruence.
Qed.

(** X21.  The properties of a map read from XML, or from the older JSON
    format.  When [data.properties] is a record whose values are not
    records themselves, and [data.propertytypes] is a record or is not
    there, [applyTMXProperties] stores, for each property the loop
    visits, under the name of the property, what [setTMXValue] makes of
    its value, with the type that [propertytypes] has for the name, or
    with the type ["string"] without [propertytypes]; a value that is not
    a string is so copied as it is.  The record has no property
    [hasOwnProperty] of its own, which the test of the loop would call.
    When the call returns and the loop visited no name twice, [obj] has
    these properties, one named [__proto__] apart, and its other
    properties are as before. *)
Theorem applyTMXProperties_record (obj data o : record) (types : val) :
  get data "properties" = VObject o ->
  get data "propertytypes" = types ->
  (types = VUndefined \/ exists t, types = VObject t) ->
  o !! "hasOwnProperty" = None ->
  Forall (fun k => is_plain (get o k) = true) (enumerate o) ->
  let type_for k := match types with VObject t => get t k | _ => VString "string" end in
  let round (done : outcome record) (k : string) :=
    and_then done (fun obj =>
      match setTMXValue isBoolean isNumeric Number_of_string JSON_parse evaluate
              k (type_for k) (get o k) with
      | Ok v => store obj k v
      | Throw e => Some (Throw e)
      end) in
  applyTMXProperties isBoolean isNumeric Number_of_string JSON_parse evaluate ToString
    enumerate obj (VObject data)
  = fold_left round (enumerate o) (Some (Ok obj))
  /\ (NoDup (enumerate o) ->
      forall obj',
        fold_left round (enumerate o) (Some (Ok obj)) = Some (Ok obj') ->
        (forall k, k ∈ enumerate o -> k <> "__proto__" ->
           exists v,
             setTMXValue isBoolean isNumeric Number_of_string JSON_parse evaluate
               k (type_for k) (get o k) = Ok v
             /\ obj' !! k = Some v)
        /\ (forall k, k ∉ enumerate o -> obj' !! k = obj !! k)).
Proof.
  intros Hp Ht Htypes Hown Hplain type_for round. split.
  - unfold applyTMXProperties, member. rewrite Hp, Ht. simpl.
    assert (Hd : defined types = false \/ defined types = true)
      by (destruct (defined types); auto).
    clear Hp Ht. revert obj. induction (enumerate o) as [|k ks IH]; intros obj; [reflexivity|].
    inversion Hplain as [|? ? Hk Hks]; subst.
    simpl. rewrite apply_property_plain by assumption.
    fold (type_for k).
    destruct (setTMXValue _ _ _ _ _ k (type_for k) (get o k)) as [v|e]; simpl.
    + destruct (store obj k v) as [[obj1|e]|]; simpl.
      * apply IH. exact Hks.
      * clear. induction ks as [|k' ks IH]; [reflexivity|exact IH].
      * clear. induction ks as [|k' ks IH]; [reflexivity|exact IH].
    + clear. induction ks as [|k' ks IH]; [reflexivity|exact IH].
  - intros Hnodup. clear Hplain.
    assert (Hround : forall r b, (forall a, r <> Some (Ok a)) ->
                       forall a, round r b <> Some (Ok a)).
    { intros r b Hr a. unfold round. destruct r as [[a'|e']|]; simpl;
        [exfalso; eapply Hr; reflexivity | discriminate | discriminate]. }
    revert obj.
    induction (enumerate o) as [|k ks IH]; intros obj obj' Hrun.
    + simpl in Hrun. injection Hrun as <-. split; [intros k Hk; inversion Hk|reflexivity].
    + inversion Hnodup as [|? ? Hk Hks]; subst. simpl in Hrun.
      destruct (setTMXValue isBoolean isNumeric Number_of_string JSON_parse evaluate
                  k (type_for k) (get o k)) as [v|e] eqn:Hset.
      2: { exfalso. revert Hrun. apply fold_left_failed; [exact Hround|discriminate]. }
      destruct (store obj k v) as [[obj1|e]|] eqn:Hstore.
      2,3: exfalso; revert Hrun; apply fold_left_failed; [exact Hround|discriminate].
      destruct (IH Hks obj1 obj' Hrun) as [Hin Hout].
      destruct (store_lookup _ _ _ _ Hstore) as [Hk0 Hother].
      split.
      * intros k' Hk' Hproto. apply elem_of_cons in Hk' as [-> | Hk'].
        -- exists v. split; [exact Hset|]. rewrite Hout by exact Hk. apply Hk0, Hproto.
        -- apply Hin; assumption.
      * intros k' Hk'. apply not_elem_of_cons in Hk' as [Hne Hk'].
        rewrite Hout by exact Hk'. apply Hother. exact Hne.
Qed.

End ParseFacts.

(** The chunk of the examples: its four attributes and its payload,
    without the white space around it. *)
Lemma parse_leaf_witness :
  parse Sample.isBoolean Sample.isNumeric Sample.Number_of_string Sample.JSON_parse
    Sample.evaluate Sample.ToNumber Sample.ToString Sample.trimmed SampleMap.chunk
  = Some (Ok SampleMap.chunk_record).
Proof.
  destruct (parse_leaf Sample.isBoolean Sample.isNumeric Sample.Number_of_string
              Sample.JSON_parse Sample.evaluate Sample.ToNumber Sample.ToString Sample.trimmed
              "chunk" SampleMap.chunk_attributes SampleMap.chunk_children eq_refl)
    as [Hrun _].
  unfold SampleMap.chunk. rewrite Hrun. vm_compute. reflexivity.
Defined.


(** The [data] element of the examples: one chunk between two runs of
    white space. *)
Lemma parse_collects_witness :
  parse Sample.isBoolean Sample.isNumeric Sample.Number_of_string Sample.JSON_parse
    Sample.evaluate Sample.ToNumber Sample.ToString Sample.trimmed SampleMap.data
  = Some (Ok (<["chunks" := VArray [VObject SampleMap.chunk_record]]>
                (<["encoding" := VString "base64"]> ∅))).
Proof.
  unfold SampleMap.data.
  rewrite (parse_collects Sample.isBoolean Sample.isNumeric Sample.Number_of_string
             Sample.JSON_parse Sample.evaluate Sample.ToNumber Sample.ToString Sample.trimmed
             "chunk" "data" [("encoding", "base64")] SampleMap.data_children
             (or_introl eq_refl) eq_refl eq_refl).
  vm_compute. reflexivity.
Defined.

(** Two entries of the newer format, stored into an empty record. *)
Lemma applyTMXProperties_array_witness :
  applyTMXProperties Sample.isBoolean Sample.isNumeric Sample.Number_of_string
    Sample.JSON_parse Sample.evaluate Sample.ToString SampleMap.enumerate ∅
    (VObject SampleMap.custom_array)
  = Some (Ok (<["tint" := VString "#ff000080"]> (<["speed" := VNumber 3%float]> ∅))).
Proof.
  rewrite (applyTMXProperties_array Sample.isBoolean Sample.isNumeric Sample.Number_of_string
             Sample.JSON_parse Sample.evaluate Sample.ToString SampleMap.enumerate
             ∅ SampleMap.custom_array SampleMap.custom_entries).
  - vm_compute. reflexivity.
  - reflexivity.
  - reflexivity.
  - repeat constructor.
Defined.

(** Two properties of the older format: the number is copied, the string
    ["true"] of type ["string"] becomes the boolean. *)
Lemma applyTMXProperties_record_witness :
  exists obj',
    applyTMXProperties Sample.isBoolean Sample.isNumeric Sample.Number_of_string
      Sample.JSON_parse Sample.evaluate Sample.ToString SampleMap.enumerate ∅
      (VObject SampleMap.custom) = Some (Ok obj')
    /\ obj' !! "speed" = Some (VNumber 3%float)
    /\ obj' !! "title" = Some (VBool true).
Proof.
  destruct (applyTMXProperties_record Sample.isBoolean Sample.isNumeric
              Sample.Number_of_string Sample.JSON_parse Sample.evaluate Sample.ToString
              SampleMap.enumerate ∅ SampleMap.custom
              (<["speed" := VNumber 3%float]> (<["title" := VString "true"]> ∅))
              (VObject (<["speed" := VString "float"]> (<["title" := VString "string"]> ∅))))
    as [Hrun Hlookup].
  - reflexivity.
  - reflexivity.
  - right. eexists. reflexivity.
  - reflexivity.
  - vm_compute. repeat constructor.
  - eexists. split; [rewrite Hrun; vm_compute; reflexivity|].
    split; vm_compute; reflexivity.
Defined.

Lemma split_on_length separator l : forall current,
  length (split_on separator l current) = S (occurrences separator l).
Proof.
  induction l as [|c l IH]; intros current; simpl; [reflexivity|].
  destruct (Ascii.eqb c separator); simpl; rewrite IH; reflexivity.
Qed.

Lemma split_length separator s :
  length (split separator s) = S (occurrences separator (list_ascii_of_string s)).
Proof. unfold split. rewrite length_map. apply split_on_length. Qed.

Section MoreParseFacts.

Variables isBoolean isNumeric : string -> bool.
Variable Number_of_string : string -> number.
Variables JSON_parse evaluate : string -> result val.
Variable ToNumber : val -> number.
Variable ToString : val -> string.
Variable trim : string -> string.

Lemma parse_children_skip before : forall rest obj text,
  forallb (fun child => negb (is_element child)) before = true ->
  parse_children isBoolean isNumeric Number_of_string JSON_parse evaluate ToNumber ToString trim
    (parse isBoolean isNumeric Number_of_string JSON_parse evaluate ToNumber ToString trim)
    (before ++ rest) obj text
  = parse_children isBoolean isNumeric Number_of_string JSON_parse evaluate ToNumber ToString trim
      (parse isBoolean isNumeric Number_of_string JSON_parse evaluate ToNumber ToString trim)
      rest obj (text ++ gathered_text trim before).
Proof.
  induction before as [|item before IH]; intros rest obj text Hb; simpl.
  - rewrite append_empty_r. reflexivity.
  - simpl in Hb. apply andb_true_iff in Hb as [Hitem Hb].
    destruct item as [name attributes childNodes|nodeValue|name childNodes];
      [discriminate Hitem| |].
    + rewrite IH by assumption. rewrite append_assoc. reflexivity.
    + apply IH. assumption.
Qed.

Lemma parse_children_element name attributes childNodes rest obj text :
  parse_children isBoolean isNumeric Number_of_string JSON_parse evaluate ToNumber ToString trim
    (parse isBoolean isNumeric Number_of_string JSON_parse evaluate ToNumber ToString trim)
    (Element name attributes childNodes :: rest) obj text
  = and_then
      (parse isBoolean isNumeric Number_of_string JSON_parse evaluate ToNumber ToString trim
         (Element name attributes childNodes))
      (fun parsed =>
         and_then
           (normalize_parsed isBoolean isNumeric Number_of_string JSON_parse evaluate
              ToNumber ToString obj name parsed)
           (fun obj =>
              parse_children isBoolean isNumeric Number_of_string JSON_parse evaluate
                ToNumber ToString trim
                (parse isBoolean isNumeric Number_of_string JSON_parse evaluate
                   ToNumber ToString trim) rest obj text)).
Proof. reflexivity. Qed.

Lemma gathered_text_app a b :
  gathered_text trim (a ++ b) = gathered_text trim a ++ gathered_text trim b.
Proof.
  induction a as [|item a IH]; [reflexivity|].
  destruct item as [name attributes childNodes|nodeValue|name childNodes]; simpl;
    rewrite ?IH, ?append_assoc; reflexivity.
Qed.

(** X22.  The image of a tile set.  For a [tileset] element whose only
    child element is an [image] without child elements, [normalize]
    pushes onto [obj.tilesets] the record of the attributes of the tile
    set, with the properties [image], [imagewidth] and [imageheight] set
    to the attributes [source], [width] and [height] of the image:
    strings as they are written, or [undefined] for an attribute the
    image does not have.  The trimmed text of the text nodes around the
    image, when it is not empty, is the [text] of the record. *)
Theorem normalize_tileset_image (obj : record) (attributes image_attributes : list (string * string))
    (before image_children after : list node) :
  forallb (fun child => negb (is_element child)) (before ++ image_children ++ after) = true ->
  let image := leaf_record trim (Element "image" image_attributes image_children) in
  let tileset :=
    with_text (parseAttributes ∅ attributes) (gathered_text trim (before ++ after)) in
  normalize isBoolean isNumeric Number_of_string JSON_parse evaluate ToNumber ToString trim obj
    (Element "tileset" attributes
       (before ++ [Element "image" image_attributes image_children] ++ after))
  = Some (push_onto obj "tilesets"
            (VObject (<["image" := get image "source"]>
                     (<["imageheight" := get image "height"]>
                     (<["imagewidth" := get image "width"]> tileset))))).
Proof.
  intros Hleaves image tileset.
  rewrite !forallb_app in Hleaves.
  apply andb_true_iff in Hleaves as [Hb Hrest].
  apply andb_true_iff in Hrest as [Hi Ha].
  assert (Hparse :
    parse isBoolean isNumeric Number_of_string JSON_parse evaluate ToNumber ToString trim
      (Element "tileset" attributes
         (before ++ [Element "image" image_attributes image_children] ++ after))
    = Some (Ok (with_text (<["image" := VObject image]> (parseAttributes ∅ attributes))
                  (gathered_text trim (before ++ after))))).
  { simpl parse. rewrite parse_children_skip by assumption.
    change ([Element "image" image_attributes image_children] ++ after)%list
      with (Element "image" image_attributes image_children :: after).
    rewrite parse_children_element.
    rewrite (parse_leaf_record _ _ _ _ _ _ _ _ (Element "image" image_attributes image_children)
               eq_refl Hi).
    fold image. unfold and_then.
    change (normalize_parsed _ _ _ _ _ _ _ (parseAttributes ∅ attributes) "image" image)
      with (Some (Ok (<["image" := VObject image]> (parseAttributes ∅ attributes)))).
    cbv iota beta.
    rewrite parse_children_leaves by assumption.
    change ("" ++ gathered_text trim before) with (gathered_text trim before).
    rewrite <- gathered_text_app. reflexivity. }
  unfold normalize. rewrite Hparse. unfold and_then, nodeName.
  change (normalize_parsed _ _ _ _ _ _ _ obj "tileset" ?r)
    with (Some (push_onto obj "tilesets" (VObject (flatten_image r)))).
  f_equal. f_equal. f_equal.
  unfold tileset, with_text, flatten_image.
  set (A := parseAttributes ∅ attributes).
  set (text := gathered_text trim (before ++ after)).
  destruct (truthy (VString text)).
  - assert (Himg : get (<["text" := VString text]> (<["image" := VObject image]> A)) "image"
                   = VObject image).
    { unfold get. rewrite lookup_insert_ne by discriminate. rewrite lookup_insert_eq.
      reflexivity. }
    rewrite Himg. simpl.
    apply map_eq. intros k. rewrite !lookup_insert.
    repeat (destruct (decide _); [reflexivity|]). reflexivity.
  - assert (Himg : get (<["image" := VObject image]> A) "image" = VObject image).
    { unfold get. rewrite lookup_insert_eq. reflexivity. }
    rewrite Himg. simpl.
    apply map_eq. intros k. rewrite !lookup_insert.
    repeat (destruct (decide _); [reflexivity|]). reflexivity.
Qed.

(** X23.  Polygons and polylines.  For a [polygon] or [polyline] element
    without child elements whose attribute [points] is there, [normalize]
    stores under the name of the element an array with one vector for
    each piece of [points] between two spaces, one more vector than
    [points] has spaces: an empty piece, as a doubled or a trailing space
    leaves one, gives a vector too.  Without the attribute [points] it
    throws a [TypeError]. *)
Theorem normalize_polygon (obj : record) (name : string)
    (attributes : list (string * string)) (childNodes : list node) :
  name = "polygon" \/ name = "polyline" ->
  is_leaf (Element name attributes childNodes) = true ->
  match get (leaf_record trim (Element name attributes childNodes)) "points" with
  | VString points =>
      normalize isBoolean isNumeric Number_of_string JSON_parse evaluate ToNumber ToString trim
        obj (Element name attributes childNodes)
      = Some (Ok (<[name := VArray (map (vector_of ToNumber) (split " " points))]> obj))
      /\ length (map (vector_of ToNumber) (split " " points))
         = S (occurrences " " (list_ascii_of_string points))
  | _ =>
      normalize isBoolean isNumeric Number_of_string JSON_parse evaluate ToNumber ToString trim
        obj (Element name attributes childNodes)
      = Some (Throw TypeError)
  end.
Proof.
  intros Hname Hleaf. unfold normalize.
  rewrite (parse_leaf_record _ _ _ _ _ _ _ _ (Element name attributes childNodes) eq_refl Hleaf).
  unfold and_then, nodeName.
  set (parsed := leaf_record _ _).
  assert (Hcase : normalize_parsed isBoolean isNumeric Number_of_string JSON_parse evaluate
                    ToNumber ToString obj name parsed
                  = match get parsed "points" with
                    | VString points =>
                        Some (Ok (<[name := VArray (map (vector_of ToNumber) (split " " points))]>
                                    obj))
                    | _ => Some (Throw TypeError)
                    end).
  { destruct Hname as [-> | ->]; reflexivity. }
  rewrite Hcase. destruct (get parsed "points"); try reflexivity.
  split; [reflexivity|]. rewrite length_map. apply split_length.
Qed.

(** X24.  A tile layer of a finite map.  For a [layer] element whose only
    child element is a [data] element, one without child elements and
    without an attribute [chunks] whose record has a [text], and whose
    own attributes give neither a truthy [image] nor [chunks],
    [normalize] pushes onto [obj.layers] the record of the attributes of
    the layer with the type ["tilelayer"], the encoding ["none"], under
    [data] what [decode] makes of the [text] of the [data] element, the
    trimmed values of its text nodes, with the encoding and the
    compression that this element names, when [decode] returns, and
    under [text] the trimmed text of the text nodes around the [data]
    element, when it is not empty. *)
Theorem normalize_tile_layer (obj : record)
    (attributes data_attributes : list (string * string))
    (before payload after : list node) (decoded : val) :
  let layer := parseAttributes ∅ attributes in
  let data := leaf_record trim (Element "data" data_attributes payload) in
  forallb (fun child => negb (is_element child)) (before ++ payload ++ after) = true ->
  truthy (get layer "image") = false ->
  defined (get layer "chunks") = false ->
  defined (get data "chunks") = false ->
  defined (get data "text") = true ->
  decode ToNumber ToString (get data "text")
    (or_else (get data "encoding") (VString "xml")) (get data "compression") = Ok decoded ->
  normalize isBoolean isNumeric Number_of_string JSON_parse evaluate ToNumber ToString trim obj
    (Element "layer" attributes
       (before ++ [Element "data" data_attributes payload] ++ after))
  = Some (push_onto obj "layers"
            (VObject (<["type" := VString "tilelayer"]>
                        (with_text (<["encoding" := VString "none"]>
                                      (<["data" := decoded]> layer))
                           (gathered_text trim (before ++ after)))))).
Proof.
  intros layer data Hleaves Himage Hlc Hdc Hdt Hdecode.
  rewrite !forallb_app in Hleaves.
  apply andb_true_iff in Hleaves as [Hb Hrest].
  apply andb_true_iff in Hrest as [Hp Ha].
  assert (Hparse :
    parse isBoolean isNumeric Number_of_string JSON_parse evaluate ToNumber ToString trim
      (Element "layer" attributes
         (before ++ [Element "data" data_attributes payload] ++ after))
    = Some (Ok (with_text (<["encoding" := VString "none"]> (<["data" := decoded]> layer))
                  (gathered_text trim (before ++ after))))).
  { simpl parse. rewrite parse_children_skip by assumption.
    change ([Element "data" data_attributes payload] ++ after)%list
      with (Element "data" data_attributes payload :: after).
    rewrite parse_children_element.
    rewrite (parse_leaf_record _ _ _ _ _ _ _ _ (Element "data" data_attributes payload)
               eq_refl Hp).
    fold data. fold layer. unfold and_then.
    change (normalize_parsed _ _ _ _ _ _ _ layer "data" data)
      with (Some (normalize_data ToNumber ToString layer data)).
    rewrite normalize_data_without_chunks by assumption.
    rewrite Hdt, Hlc, Hdecode. simpl.
    rewrite parse_children_leaves by assumption.
    change ("" ++ gathered_text trim before) with (gathered_text trim before).
    rewrite <- gathered_text_app. reflexivity. }
  unfold normalize. rewrite Hparse. unfold and_then, nodeName.
  set (parsed := with_text _ _).
  change (normalize_parsed _ _ _ _ _ _ _ obj "layer" parsed)
    with (Some (push_onto obj "layers"
                  (VObject
                     (if truthy (get (<["type" := VString "tilelayer"]> parsed) "image")
                      then <["image" :=
                               property_of (get (<["type" := VString "tilelayer"]> parsed) "image")
                                 "source"]> (<["type" := VString "tilelayer"]> parsed)
                      else <["type" := VString "tilelayer"]> parsed)))).
  assert (Hno : get (<["type" := VString "tilelayer"]> parsed) "image" = get layer "image").
  { unfold parsed, with_text, get.
    destruct (truthy (VString (gathered_text trim (before ++ after))));
      rewrite !lookup_insert_ne by discriminate; reflexivity. }
  rewrite Hno, Himage. reflexivity.
Qed.

End MoreParseFacts.

(** The image of a tile set, between two runs of white space: its
    width and height stay the strings they are written as. *)
Lemma normalize_tileset_image_witness :
  normalize Sample.isBoolean Sample.isNumeric Sample.Number_of_string Sample.JSON_parse
    Sample.evaluate Sample.ToNumber Sample.ToString Sample.trimmed ∅
    (Element "tileset" [("firstgid", "1")]
       ([Text " "] ++ [Element "image" [("source", "a.png"); ("width", "64"); ("height", "32")] []]
          ++ [Text " "]))
  = Some (Ok (<["tilesets" :=
                  VArray [VObject (<["image" := VString "a.png"]>
                                  (<["imageheight" := VString "32"]>
                                  (<["imagewidth" := VString "64"]>
                                  (<["firstgid" := VString "1"]> ∅))))]]> ∅)).
Proof.
  rewrite (normalize_tileset_image Sample.isBoolean Sample.isNumeric Sample.Number_of_string
             Sample.JSON_parse Sample.evaluate Sample.ToNumber Sample.ToString Sample.trimmed
             ∅ [("firstgid", "1")] [("source", "a.png"); ("width", "64"); ("height", "32")]
             [Text " "] [] [Text " "] eq_refl).
  vm_compute. reflexivity.
Defined.

(** A triangle: three pieces, three vectors. *)
Lemma normalize_polygon_witness :
  exists vectors,
    normalize Sample.isBoolean Sample.isNumeric Sample.Number_of_string Sample.JSON_parse
      Sample.evaluate Sample.ToNumber Sample.ToString Sample.trimmed ∅
      (Element "polygon" [("points", "0,0 10,0 10,10")] [])
    = Some (Ok (<["polygon" := VArray vectors]> ∅))
    /\ length vectors = 3%nat.
Proof.
  pose proof (normalize_polygon Sample.isBoolean Sample.isNumeric Sample.Number_of_string
                Sample.JSON_parse Sample.evaluate Sample.ToNumber Sample.ToString Sample.trimmed
                ∅ "polygon" [("points", "0,0 10,0 10,10")] [] (or_introl eq_refl) eq_refl)
    as H.
  change (get (leaf_record Sample.trimmed (Element "polygon" [("points", "0,0 10,0 10,10")] [])) "points")
    with (VString "0,0 10,0 10,10") in H.
  destruct H as [Hrun Hlen]. eexists. split; [exact Hrun|]. rewrite Hlen. reflexivity.
Defined.

(** A two by two layer in CSV. *)
Lemma normalize_tile_layer_witness :
  normalize Sample.isBoolean Sample.isNumeric Sample.Number_of_string Sample.JSON_parse
    Sample.evaluate Sample.ToNumber Sample.ToString Sample.trimmed ∅
    (Element "layer" [("name", "ground")]
       ([Text " "] ++ [Element "data" [("encoding", "csv")] [Text "
1,2,
3,4
"]] ++ [Text " "]))
  = Some (Ok (<["layers" :=
                  VArray [VObject (<["type" := VString "tilelayer"]>
                                  (<["encoding" := VString "none"]>
                                  (<["data" := VArray [VNumber 1; VNumber 2; VNumber 3;
                                                       VNumber 4]%float]>
                                  (<["name" := VString "ground"]> ∅))))]]> ∅)).
Proof.
  rewrite (normalize_tile_layer Sample.isBoolean Sample.isNumeric Sample.Number_of_string
             Sample.JSON_parse Sample.evaluate Sample.ToNumber Sample.ToString Sample.trimmed
             ∅ [("name", "ground")] [("encoding", "csv")] [Text " "] [Text "
1,2,
3,4
"] [Text " "] (VArray [VNumber 1; VNumber 2; VNumber 3; VNumber 4]%float));
    reflexivity.
Defined.

End TMXParseFacts.
